(** * The moleculer service registry (src/registry/registry.js)

    A shallow embedding of [Registry] and of the catalogs it drives.
    JavaScript objects that are shared and mutated (service items, nodes,
    endpoint lists) live in an explicit store inside the registry record:
    a service item is addressed by the identifier it received when it was
    created, a node by its id.  Arrays and [Map]s keep their insertion
    order, so they are association lists. *)

From Stdlib Require Import List String Bool ZArith Arith Lia.
Import ListNotations.
Open Scope string_scope.
Open Scope list_scope.

Set Implicit Arguments.

(** ** JavaScript values and objects *)

Inductive JsVal : Type :=
| JUndefined
| JNull
| JBool (b : bool)
| JNum (z : Z)
| JStr (s : string)
| JFun (h : nat)
| JRef (r : nat).

Definition jsval_eqb (a b : JsVal) : bool :=
  match a, b with
  | JUndefined, JUndefined => true
  | JNull, JNull => true
  | JBool x, JBool y => Bool.eqb x y
  | JNum x, JNum y => Z.eqb x y
  | JStr x, JStr y => String.eqb x y
  | JFun x, JFun y => Nat.eqb x y
  | JRef x, JRef y => Nat.eqb x y
  | _, _ => false
  end.

(** An object with string keys: [o[k]], [o[k] = v], and lodash's [_.omit]. *)
Definition JsObj (A : Type) := list (string * A).

Fixpoint obj_get {A} (k : string) (o : JsObj A) : option A :=
  match o with
  | [] => None
  | (k', v) :: o' => if String.eqb k k' then Some v else obj_get k o'
  end.

Fixpoint obj_set {A} (k : string) (v : A) (o : JsObj A) : JsObj A :=
  match o with
  | [] => [(k, v)]
  | (k', v') :: o' =>
      if String.eqb k k' then (k', v) :: o' else (k', v') :: obj_set k v o'
  end.

Definition obj_keys {A} (o : JsObj A) : list string := map fst o.

Definition omit {A} (o : JsObj A) (ks : list string) : JsObj A :=
  filter (fun kv => negb (existsb (String.eqb (fst kv)) ks)) o.

(** ** Data model *)

(** An action descriptor: its [name], and every other own property
    ([handler], [service], [cache], [protected], [params], ...). *)
Record Action : Type := mkAction {
  action_name : string;
  action_props : JsObj JsVal
}.

(** A service descriptor as it arrives in a service list. *)
Record ServiceSchema : Type := mkSchema {
  svc_name : string;
  svc_version : JsVal;
  svc_settings : JsVal;
  svc_actions : JsObj Action
}.

(** A service item of the service catalog.  [sid] is the identity of the
    JavaScript object; [service_node] is the id of the node it belongs to. *)
Record ServiceItem : Type := mkService {
  sid : nat;
  service_node : string;
  service_name : string;
  service_version : JsVal;
  service_settings : JsVal;
  service_actions : JsObj Action
}.

Record Node : Type := mkNode {
  node_id : string;
  node_available : bool
}.

Inductive CircuitState : Type := CLOSED | OPEN | HALF_OPEN.

(** An action endpoint: (node, service, action) and its breaker state. *)
Record Endpoint : Type := mkEndpoint {
  ep_node : string;
  ep_service : nat;
  ep_action : Action;
  ep_state : CircuitState
}.

Definition EndpointList := list Endpoint.

(** What the registry sends to the broker. *)
Inductive Payload : Type :=
| PNode (node : string)
| PNodeUnexpected (node : string) (unexpected : bool).

Inductive BrokerCall : Type :=
| EmitLocal (event : string) (payload : Payload)
| ServicesChanged (localService : bool).

(** A subscriber endpoint of the event catalog: (node, service) and the
    optional group name. *)
Record EventEndpoint : Type := mkEventEndpoint {
  ev_node : string;
  ev_service : nat;
  ev_group : JsVal
}.

(** [this.nodes], [this.services], [this.actions], [this.events] and the
    calls made to [this.broker]. *)
Record Registry : Type := mkRegistry {
  broker_nodeID : string;
  nodes : list Node;
  services : list ServiceItem;
  next_sid : nat;
  actions : JsObj EndpointList;
  broker_calls : list BrokerCall;
  events : JsObj (list EventEndpoint)
}.

Definition Registry_new (nodeID : string) : Registry :=
  mkRegistry nodeID [mkNode nodeID true] [] 0 [] [] [].

Definition set_nodes (ns : list Node) (r : Registry) : Registry :=
  mkRegistry (broker_nodeID r) ns (services r) (next_sid r) (actions r)
             (broker_calls r) (events r).

Definition set_services (ss : list ServiceItem) (r : Registry) : Registry :=
  mkRegistry (broker_nodeID r) (nodes r) ss (next_sid r) (actions r)
             (broker_calls r) (events r).

Definition set_actions (acts : JsObj EndpointList) (r : Registry) : Registry :=
  mkRegistry (broker_nodeID r) (nodes r) (services r) (next_sid r) acts
             (broker_calls r) (events r).

Definition set_events (evs : JsObj (list EventEndpoint)) (r : Registry)
    : Registry :=
  mkRegistry (broker_nodeID r) (nodes r) (services r) (next_sid r) (actions r)
             (broker_calls r) evs.

Definition broker_call (c : BrokerCall) (r : Registry) : Registry :=
  mkRegistry (broker_nodeID r) (nodes r) (services r) (next_sid r) (actions r)
             (broker_calls r ++ [c]) (events r).

(** ** The catalogs

    [registry.js] requires node-catalog, service-catalog and action-catalog;
    the registry only calls the methods below. *)

(** Modelled from the spec: EndpointList.add (action-catalog.js is not among
    the sources).  There is "at most one endpoint per nodeId per action
    name", and registration is "add/update an endpoint": when the node has
    an endpoint in the list, [add] gives it the new descriptor and nothing
    else (its service, its place and its breaker state stay); otherwise it
    appends a CLOSED endpoint of the given service. *)
Definition EndpointList_add (node : string) (service : nat) (action : Action)
    (eps : EndpointList) : EndpointList :=
  if existsb (fun ep => String.eqb (ep_node ep) node) eps
  then map (fun ep =>
         if String.eqb (ep_node ep) node
         then mkEndpoint (ep_node ep) (ep_service ep) action (ep_state ep)
         else ep) eps
  else eps ++ [mkEndpoint node service action CLOSED].

(** Modelled from the spec: EndpointList.getEndpointByNodeID, "returns a
    specific endpoint". *)
Definition getEndpointByNodeID (nodeID : string) (eps : EndpointList)
    : option Endpoint :=
  find (fun ep => String.eqb (ep_node ep) nodeID) eps.

(** Modelled from the spec: EndpointList.removeByNodeID and removeByService,
    "endpoint lifecycle follows its owning service". *)
Definition removeByNodeID (nodeID : string) (eps : EndpointList) : EndpointList :=
  filter (fun ep => negb (String.eqb (ep_node ep) nodeID)) eps.

Definition EndpointList_removeByService (service : nat) (eps : EndpointList)
    : EndpointList :=
  filter (fun ep => negb (Nat.eqb (ep_service ep) service)) eps.

(** Modelled from the spec: EndpointList.count, hasLocal and hasAvailable;
    "an endpoint is available iff its node is available AND its circuit
    state is not OPEN". *)
Definition count (eps : EndpointList) : nat := List.length eps.

Definition hasLocal (r : Registry) (eps : EndpointList) : bool :=
  existsb (fun ep => String.eqb (ep_node ep) (broker_nodeID r)) eps.

(** Modelled from the spec: NodeCatalog.get, the map nodeId -> Node. *)
Definition nodes_get (nodeID : string) (ns : list Node) : option Node :=
  find (fun n => String.eqb (node_id n) nodeID) ns.

Definition ep_available (r : Registry) (ep : Endpoint) : bool :=
  match nodes_get (ep_node ep) (nodes r) with
  | Some n => node_available n
  | None => false
  end &&
  match ep_state ep with OPEN => false | _ => true end.

Definition hasAvailable (r : Registry) (eps : EndpointList) : bool :=
  existsb (ep_available r) eps.

(** Modelled from the spec: ActionCatalog.get, add, remove, removeByService
    over the [Map] action name -> endpoint list.  An entry stays in the map
    when its last endpoint goes ([getActionList] tests [count > 0]). *)
Definition actions_get (name : string) (acts : JsObj EndpointList)
    : option EndpointList := obj_get name acts.

Definition actions_add (node : string) (service : nat) (action : Action)
    (acts : JsObj EndpointList) : JsObj EndpointList :=
  match actions_get (action_name action) acts with
  | Some eps =>
      obj_set (action_name action) (EndpointList_add node service action eps) acts
  | None =>
      obj_set (action_name action) (EndpointList_add node service action []) acts
  end.

Definition actions_remove (name nodeID : string) (acts : JsObj EndpointList)
    : JsObj EndpointList :=
  match actions_get name acts with
  | Some eps => obj_set name (removeByNodeID nodeID eps) acts
  | None => acts
  end.

Definition actions_removeByService (service : nat) (acts : JsObj EndpointList)
    : JsObj EndpointList :=
  map (fun e => (fst e, EndpointList_removeByService service (snd e))) acts.

(** Modelled from the spec: ServiceItem.equals, "two services are equal iff
    name and version match", and ServiceItem.update / addAction. *)
Definition equals (s : ServiceItem) (name : string) (version : JsVal) : bool :=
  String.eqb (service_name s) name && jsval_eqb (service_version s) version.

Definition update (svc : ServiceSchema) (s : ServiceItem) : ServiceItem :=
  mkService (sid s) (service_node s) (service_name s) (service_version s)
            (svc_settings svc) (service_actions s).

Definition addAction (action : Action) (s : ServiceItem) : ServiceItem :=
  mkService (sid s) (service_node s) (service_name s) (service_version s)
            (service_settings s)
            (obj_set (action_name action) action (service_actions s)).

(** A method call on a shared service item: every holder of the reference
    sees the change. *)
Definition on_service (service : nat) (f : ServiceItem -> ServiceItem)
    (ss : list ServiceItem) : list ServiceItem :=
  map (fun s => if Nat.eqb (sid s) service then f s else s) ss.

(** Modelled from the spec: EventCatalog.removeByService (event-catalog.js
    is not among the sources), "cascading unregistration of its
    services/actions/events".  The registry has no method that registers an
    event. *)
Definition events_removeByService (service : nat)
    (evs : JsObj (list EventEndpoint)) : JsObj (list EventEndpoint) :=
  map (fun e => (fst e,
                 filter (fun ep => negb (Nat.eqb (ev_service ep) service))
                        (snd e))) evs.

(** Modelled from the spec: ServiceCatalog.get, add, remove and
    removeAllByNodeID (service-catalog.js is not among the sources),
    "services are indexed by (name, version, nodeId)".  [add] creates an
    item and appends it; the lookup "find existing, create if missing" is
    the caller's.  [remove] looks the item up, unregisters its action and
    event endpoints ("endpoint lifecycle follows its owning service") and
    takes it out of [this.services], the one array of the catalog: the
    items behind it move down by one place. *)
Definition services_get (name : string) (version : JsVal) (nodeID : string)
    (ss : list ServiceItem) : option ServiceItem :=
  find (fun s => equals s name version && String.eqb (service_node s) nodeID) ss.

Definition services_add (node name : string) (version settings : JsVal)
    (r : Registry) : nat * Registry :=
  let item := mkService (next_sid r) node name version settings [] in
  (next_sid r,
   mkRegistry (broker_nodeID r) (nodes r) (services r ++ [item])
              (S (next_sid r)) (actions r) (broker_calls r) (events r)).

Definition services_remove (name : string) (version : JsVal) (nodeID : string)
    (r : Registry) : Registry :=
  match services_get name version nodeID (services r) with
  | Some s =>
      set_services
        (filter (fun s' => negb (Nat.eqb (sid s') (sid s))) (services r))
        (set_actions (actions_removeByService (sid s) (actions r))
           (set_events (events_removeByService (sid s) (events r)) r))
  | None => r
  end.

Definition services_removeAllByNodeID (nodeID : string) (r : Registry)
    : Registry :=
  let gone := filter (fun s => String.eqb (service_node s) nodeID) (services r) in
  set_services
    (filter (fun s => negb (String.eqb (service_node s) nodeID)) (services r))
    (set_actions
       (fold_left (fun acts s => actions_removeByService (sid s) acts) gone
                  (actions r))
       (set_events
          (fold_left (fun evs s => events_removeByService (sid s) evs) gone
                     (events r)) r)).

(** Modelled from the spec: Node.disconnected, "mark available=false". *)
Definition disconnected (nodeID : string) (ns : list Node) : list Node :=
  map (fun n => if String.eqb (node_id n) nodeID
                then mkNode (node_id n) false else n) ns.

(** ** Registry (registry.js) *)

(** [nodeID || this.broker.nodeID]: an omitted or empty id is falsy. *)
Definition or_broker_nodeID (nodeID : option string) (r : Registry) : string :=
  match nodeID with
  | Some id => if String.eqb id "" then broker_nodeID r else id
  | None => broker_nodeID r
  end.

Definition unregisterService (name : string) (version : JsVal)
    (nodeID : option string) (r : Registry) : Registry :=
  services_remove name version (or_broker_nodeID nodeID r) r.

Definition unregisterServicesByNode (nodeID : string) (r : Registry) : Registry :=
  services_removeAllByNodeID nodeID r.

Definition unregisterAction (node name : string) (r : Registry) : Registry :=
  set_actions (actions_remove name node (actions r)) r.

(** [_.forIn(actions, action => { this.actions.add(node, service, action);
    service.addAction(action); })] *)
Definition registerAction (node : string) (service : nat) (r : Registry)
    (kv : string * Action) : Registry :=
  set_services (on_service service (addAction (snd kv)) (services r))
    (set_actions (actions_add node service (snd kv) (actions r)) r).

Definition registerActions (node : string) (service : nat)
    (acts : JsObj Action) (r : Registry) : Registry :=
  fold_left (registerAction node service) acts r.

Definition registerLocalService (svc : ServiceSchema) (r : Registry) : Registry :=
  let (service, r1) :=
    services_add (broker_nodeID r) (svc_name svc) (svc_version svc)
                 (svc_settings svc) r in
  registerActions (broker_nodeID r) service (svc_actions svc) r1.

(** The property names that every plain object inherits from
    [Object.prototype]; their values are functions, or the prototype itself
    for [__proto__], all truthy. *)
Definition Object_prototype : list string :=
  ["constructor"; "__defineGetter__"; "__defineSetter__"; "hasOwnProperty";
   "__lookupGetter__"; "__lookupSetter__"; "isPrototypeOf";
   "propertyIsEnumerable"; "toString"; "valueOf"; "__proto__";
   "toLocaleString"].

(** [!o[name]] for a plain object whose own values are objects: the lookup
    goes through the own keys and then through [Object.prototype]. *)
Definition js_falsy_at {A} (name : string) (o : JsObj A) : bool :=
  match obj_get name o with
  | Some _ => false
  | None => negb (existsb (String.eqb name) Object_prototype)
  end.

(** "remove old actions which is not exist": the callback of
    [_.forIn(prevActions, ...)], [if (!svc.actions[name])
    this.unregisterAction(node, name)]. *)
Definition removeOldAction (node : string) (svc : ServiceSchema) (r : Registry)
    (kv : string * Action) : Registry :=
  if js_falsy_at (fst kv) (svc_actions svc)
  then unregisterAction node (fst kv) r
  else r.

(** The callback of the first [serviceList.forEach] of [registerServices]. *)
Definition registerService (node : string) (r : Registry) (svc : ServiceSchema)
    : Registry :=
  match services_get (svc_name svc) (svc_version svc) node (services r) with
  | None =>
      let (service, r1) :=
        services_add node (svc_name svc) (svc_version svc) (svc_settings svc) r in
      registerActions node service (svc_actions svc) r1
  | Some s =>
      let prevActions := service_actions s in
      let r1 := set_services (on_service (sid s) (update svc) (services r)) r in
      let r2 := registerActions node (sid s) (svc_actions svc) r1 in
      fold_left (removeOldAction node svc) prevActions r2
  end.

(** "remove old services which is not exist in new serviceList": the callback
    of [this.services.services.forEach]. *)
Definition removeOldService (node : string) (serviceList : list ServiceSchema)
    (r : Registry) (service : ServiceItem) : Registry :=
  if negb (String.eqb (service_node service) node) then r
  else
    let exist :=
      existsb (fun svc => equals service (svc_name svc) (svc_version svc))
              serviceList in
    if exist then r
    else unregisterService (service_name service) (service_version service)
                           (Some node) r.

(** [this.services.services.forEach(...)] walks the catalog's own array
    while the callback removes from it: [forEach] fixes the number of
    indices when it starts, and at each index visits the item that is there
    now, if there is one. *)
Definition removeOldServiceAt (node : string) (serviceList : list ServiceSchema)
    (r : Registry) (i : nat) : Registry :=
  match nth_error (services r) i with
  | Some service => removeOldService node serviceList r service
  | None => r
  end.

(** [node] is the id of the node object: the node catalog holds one object
    per id, so [service.node != node] compares ids. *)
Definition registerServices (node : string) (serviceList : list ServiceSchema)
    (r : Registry) : Registry :=
  let r1 := fold_left (registerService node) serviceList r in
  fold_left (removeOldServiceAt node serviceList)
            (seq 0 (List.length (services r1))) r1.

Definition getActionEndpoints (actionName : string) (r : Registry)
    : option EndpointList :=
  actions_get actionName (actions r).

Definition getActionEndpointByNodeId (actionName nodeID : string) (r : Registry)
    : option Endpoint :=
  match actions_get actionName (actions r) with
  | Some list => getEndpointByNodeID nodeID list
  | None => None
  end.

(** [isUnexpected] stands for the truth value [!!isUnexpected]; the logger is
    left out. *)
Definition nodeDisconnected (nodeID : string) (isUnexpected : bool)
    (r : Registry) : Registry :=
  match nodes_get nodeID (nodes r) with
  | Some node =>
      if node_available node then
        let r1 := set_nodes (disconnected (node_id node) (nodes r)) r in
        let r2 := unregisterServicesByNode (node_id node) r1 in
        let r3 := broker_call
                    (EmitLocal "$node.disconnected"
                       (PNodeUnexpected (node_id node) isUnexpected)) r2 in
        broker_call (ServicesChanged false) r3
      else r
  | None => r
  end.



(** An INFO payload: the sender and its full service list. *)
Record InfoPayload : Type := mkInfo {
  sender : string;
  info_services : list ServiceSchema
}.

(** Modelled from the spec: NodeCatalog.processNodeInfo, "upsert a node; on
    transition unavailable->available, emit $node.connected; replace the
    node's service list via the Service Catalog; return whether the node is
    new". *)
Definition nodes_processNodeInfo (payload : InfoPayload) (r : Registry)
    : bool * Registry :=
  let nodeID := sender payload in
  let isNew := match nodes_get nodeID (nodes r) with
               | Some _ => false | None => true end in
  let wasAvailable := match nodes_get nodeID (nodes r) with
                      | Some n => node_available n | None => false end in
  let ns := if isNew then nodes r ++ [mkNode nodeID true]
            else map (fun n => if String.eqb (node_id n) nodeID
                               then mkNode (node_id n) true else n) (nodes r) in
  let r1 := set_nodes ns r in
  let r2 := if wasAvailable then r1
            else broker_call (EmitLocal "$node.connected" (PNode nodeID)) r1 in
  (isNew, registerServices nodeID (info_services payload) r2).

(** [processNodeInfo(payload) { this.nodes.processNodeInfo(payload); }]: the
    method has no [return], its value is [undefined]. *)
Definition processNodeInfo (payload : InfoPayload) (r : Registry)
    : JsVal * Registry :=
  let (_, r') := nodes_processNodeInfo payload r in
  (JUndefined, r').

(** ** getActionList *)

Record ListOpts : Type := mkOpts {
  onlyLocal : bool;
  skipInternal : bool;
  withEndpoints : bool
}.

Record ActionItem : Type := mkItem {
  item_name : string;
  item_count : nat;
  item_hasLocal : bool;
  item_available : bool;
  item_action : option Action;
  item_endpoints : option (list (string * CircuitState))
}.

(** [/^\$node/.test(key)] *)
Definition isInternal (key : string) : bool := String.prefix "$node" key.

(** [_.omit(ep.action, ["handler", "service"])] *)
Definition omitAction (a : Action) : Action :=
  mkAction (action_name a) (omit (action_props a) ["handler"; "service"]).

(** [item.action.protected === true] *)
Definition isProtected (a : Action) : bool :=
  match obj_get "protected" (action_props a) with
  | Some (JBool true) => true
  | _ => false
  end.

(** The callback of [this.actions.actions.forEach]; [None] is an early
    [return], [Some item] is [res.push(item)]. *)
Definition listEntry (opts : ListOpts) (r : Registry)
    (kv : string * EndpointList) : option ActionItem :=
  let (key, entry) := kv in
  if skipInternal opts && isInternal key then None
  else if onlyLocal opts && negb (hasLocal r entry) then None
  else
    let action :=
      if Nat.ltb 0 (count entry) then
        match entry with
        | ep :: _ => Some (omitAction (ep_action ep))
        | [] => None
        end
      else None in
    match action with
    | None => None
    | Some a =>
        if isProtected a then None
        else
          let endpoints :=
            if withEndpoints opts && Nat.ltb 0 (count entry)
            then Some (map (fun ep => (ep_node ep, ep_state ep)) entry)
            else None in
          Some (mkItem key (count entry) (hasLocal r entry)
                       (hasAvailable r entry) (Some a) endpoints)
    end.

Fixpoint filter_map {A B} (f : A -> option B) (l : list A) : list B :=
  match l with
  | [] => []
  | x :: l' =>
      match f x with
      | Some y => y :: filter_map f l'
      | None => filter_map f l'
      end
  end.

Definition getActionList (opts : ListOpts) (r : Registry) : list ActionItem :=
  filter_map (listEntry opts r) (actions r).

(** Whether the node an INFO payload names is unknown to the node catalog. *)
Definition isNewNode (payload : InfoPayload) (r : Registry) : bool :=
  match nodes_get (sender payload) (nodes r) with
  | Some _ => false
  | None => true
  end.

(** ** Sample registries *)

Definition sample_local_action : Action :=
  mkAction "math.add" [("cache", JBool false); ("handler", JFun 1);
                       ("service", JRef 0)].

Definition sample_local_schema : ServiceSchema :=
  mkSchema "math" JUndefined JNull [("math.add", sample_local_action)].

Definition sample_local_registry : Registry :=
  registerLocalService sample_local_schema (Registry_new "node-local").

Definition sample_item : ActionItem :=
  mkItem "math.add" 1 true true
         (Some (mkAction "math.add" [("cache", JBool false)])) None.

(** ** Well-formed registries *)

(** Whether [nodeID] is a node of the catalog that is marked available. *)
Definition isAvailableNode (nodeID : string) (r : Registry) : bool :=
  match nodes_get nodeID (nodes r) with
  | Some node => node_available node
  | None => false
  end.

(** The service item an endpoint refers to is in the service catalog, on the
    node of the endpoint. *)
Definition service_on (service : nat) (node : string) (ss : list ServiceItem)
    : bool :=
  existsb (fun s => Nat.eqb (sid s) service && String.eqb (service_node s) node)
          ss.

Definition endpoints_owned (r : Registry) : bool :=
  forallb (fun e =>
             forallb (fun ep => service_on (ep_service ep) (ep_node ep)
                                           (services r)) (snd e))
          (actions r).

Definition sample_remote_schema : ServiceSchema :=
  mkSchema "posts" (JNum 2) JNull
    [("posts.find", mkAction "posts.find" [("cache", JBool true)]);
     ("posts.get", mkAction "posts.get" [])].

Definition sample_cluster : Registry :=
  snd (processNodeInfo (mkInfo "node-1" [sample_remote_schema])
                       sample_local_registry).

Fixpoint nodupb {A} (eqb : A -> A -> bool) (l : list A) : bool :=
  match l with
  | [] => true
  | x :: l' => negb (existsb (eqb x) l') && nodupb eqb l'
  end.

(** An endpoint of the entry [name] belongs to a catalogued service of its
    node that lists an action of that name. *)
Definition owner_of (name : string) (ep : Endpoint) (t : ServiceItem) : bool :=
  Nat.eqb (sid t) (ep_service ep) &&
  String.eqb (service_node t) (ep_node ep) &&
  existsb (String.eqb name) (obj_keys (service_actions t)).

(** Well-formed registry, as a check: the catalog finds every service item
    under its own (name, version, node); item identities are distinct and
    below the allocation counter; the action map has distinct keys; every
    endpoint has an owner. *)
Definition registry_wfb (r : Registry) : bool :=
  forallb (fun t =>
             match services_get (service_name t) (service_version t)
                                (service_node t) (services r) with
             | Some t' => Nat.eqb (sid t') (sid t)
             | None => false
             end) (services r) &&
  nodupb Nat.eqb (map sid (services r)) &&
  forallb (fun t => Nat.ltb (sid t) (next_sid r)) (services r) &&
  nodupb String.eqb (obj_keys (actions r)) &&
  forallb (fun e => forallb (fun ep => existsb (owner_of (fst e) ep)
                                               (services r)) (snd e))
          (actions r).

(** The same, as the propositions the proofs use. *)
Record registry_wf (r : Registry) : Prop := mkWf {
  wf_get : forall t, In t (services r) ->
             services_get (service_name t) (service_version t)
                          (service_node t) (services r) = Some t;
  wf_sids : NoDup (map sid (services r));
  wf_fresh : forall t, In t (services r) -> sid t < next_sid r;
  wf_keys : NoDup (obj_keys (actions r));
  wf_owner : forall name eps ep,
      actions_get name (actions r) = Some eps -> In ep eps ->
      exists t, In t (services r) /\ sid t = ep_service ep /\
                service_node t = ep_node ep /\
                In name (obj_keys (service_actions t))
}.

(** ** Service lists *)

(** The keys of a descriptor's [actions] are the action names, each once. *)
Definition schema_wf (svc : ServiceSchema) : bool :=
  forallb (fun kv => String.eqb (fst kv) (action_name (snd kv)))
          (svc_actions svc) &&
  nodupb String.eqb (obj_keys (svc_actions svc)).

Definition same_service (s svc : ServiceSchema) : bool :=
  String.eqb (svc_name s) (svc_name svc) &&
  jsval_eqb (svc_version s) (svc_version svc).

(** [L \ {s}] *)
Definition without (s : ServiceSchema) (L : list ServiceSchema)
    : list ServiceSchema :=
  filter (fun svc => negb (same_service s svc)) L.

Definition distinct_services (L : list ServiceSchema) : bool :=
  nodupb same_service L.

(** A change of a service item that keeps its identity, its key and the
    action names it already lists. *)
Definition grows (g : ServiceItem -> ServiceItem) : Prop :=
  forall s, sid (g s) = sid s /\
            service_name (g s) = service_name s /\
            service_version (g s) = service_version s /\
            service_node (g s) = service_node s /\
            incl (obj_keys (service_actions s)) (obj_keys (service_actions (g s))).

(** The services that the second loop of [registerServices] leaves in place:
    those of other nodes, and those the new list names. *)
Definition keptService (node : string) (serviceList : list ServiceSchema)
    (t : ServiceItem) : bool :=
  negb (String.eqb (service_node t) node) ||
  existsb (fun svc => equals t (svc_name svc) (svc_version svc)) serviceList.

Definition removeServices (gone : list ServiceItem) (acts : JsObj EndpointList)
    : JsObj EndpointList :=
  fold_left (fun acts s => actions_removeByService (sid s) acts) gone acts.

(** ** The two catalogs, taken apart

    [registerActions] changes the service catalog and the action catalog
    side by side; these are its two projections. *)
Definition addActions (service : nat) (acts : JsObj Action)
    (ss : list ServiceItem) : list ServiceItem :=
  fold_left (fun ss kv => on_service service (addAction (snd kv)) ss) acts ss.

Definition addEndpoints (node : string) (service : nat) (acts : JsObj Action)
    (A : JsObj EndpointList) : JsObj EndpointList :=
  fold_left (fun A kv => actions_add node service (snd kv) A) acts A.

(** The names of [prevActions] that [svc.actions] does not answer to, in
    order. *)
Definition oldActions (svc : ServiceSchema) (prev : JsObj Action) : list string :=
  map fst (filter (fun kv => js_falsy_at (fst kv) (svc_actions svc)) prev).

Definition removeEndpoints (node : string) (names : list string)
    (A : JsObj EndpointList) : JsObj EndpointList :=
  fold_left (fun A name => actions_remove name node A) names A.

(** What one descriptor does to its service item: [update], then
    [addAction] for each of its actions. *)
Definition addActionsTo (acts : JsObj Action) (s : ServiceItem) : ServiceItem :=
  fold_left (fun s kv => addAction (snd kv) s) acts s.

Definition applySchema (svc : ServiceSchema) (s : ServiceItem) : ServiceItem :=
  addActionsTo (svc_actions svc) (update svc s).

Definition newService (node : string) (svc : ServiceSchema) (service : nat)
    : ServiceItem :=
  mkService service node (svc_name svc) (svc_version svc) (svc_settings svc) [].

Definition posts_v1 : ServiceSchema :=
  mkSchema "posts" (JNum 1) JNull
    [("posts.find", mkAction "posts.find" []);
     ("posts.count", mkAction "posts.count" [])].

Definition users_schema : ServiceSchema :=
  mkSchema "users" JUndefined (JNum 5)
    [("users.get", mkAction "users.get" [("cache", JBool true)])].

(** The descriptor has an action named [a]. *)
Definition declares (svc : ServiceSchema) (a : string) : bool :=
  existsb (fun kv => String.eqb (action_name (snd kv)) a) (svc_actions svc).

(** The action entry [a] holds no endpoint of [node]. *)
Definition no_endpoint (a node : string) (r : Registry) : Prop :=
  forall eps ep, actions_get a (actions r) = Some eps -> In ep eps ->
                 ep_node ep <> node.

Definition posts_v2_without_get : ServiceSchema :=
  mkSchema "posts" (JNum 2) JNull
    [("posts.find", mkAction "posts.find" [("cache", JBool true)])].

Definition search_schema : ServiceSchema :=
  mkSchema "search" JUndefined JNull
    [("posts.get", mkAction "posts.get" [])].

(** ** One call of [registerServices] as a plan

    What the first loop does to the action catalog for one descriptor: the
    service item it registers under, the actions it adds, the names it
    removes. *)
Record Step : Type := mkStep {
  st_sid : nat;
  st_acts : JsObj Action;
  st_old : list string
}.

Definition step_of (node : string) (r : Registry) (svc : ServiceSchema) : Step :=
  match services_get (svc_name svc) (svc_version svc) node (services r) with
  | Some s => mkStep (sid s) (svc_actions svc)
                     (oldActions svc (service_actions s))
  | None => mkStep (next_sid r) (svc_actions svc) []
  end.

Fixpoint plan_of (node : string) (L : list ServiceSchema) (r : Registry)
    : list Step :=
  match L with
  | [] => []
  | svc :: L' => step_of node r svc :: plan_of node L' (registerService node r svc)
  end.

Definition run_step (node : string) (A : JsObj EndpointList) (st : Step)
    : JsObj EndpointList :=
  removeEndpoints node (st_old st)
    (addEndpoints node (st_sid st) (st_acts st) A).

Definition run_plan (node : string) (plan : list Step) (A : JsObj EndpointList)
    : JsObj EndpointList :=
  fold_left (run_step node) plan A.

(** The descriptor has nothing left to change in its service item. *)
Definition settled (node : string) (svc : ServiceSchema) (r : Registry) : Prop :=
  exists t, services_get (svc_name svc) (svc_version svc) node (services r)
              = Some t /\
            applySchema svc t = t.

(** [service.addAction] for every action of a descriptor, on the [actions]
    object of the item. *)
Definition setAll (acts : JsObj Action) (o : JsObj Action) : JsObj Action :=
  fold_left (fun o kv => obj_set (action_name (snd kv)) (snd kv) o) acts o.

(** ** What a plan does to one action entry

    The endpoint of the node in the entry of one action name, after a run of
    adds and removes: untouched, removed, or placed (in place, or moved to
    the end once a remove came before).  A placed endpoint keeps the service
    of the first add that placed it; later adds change its descriptor. *)
Inductive Touch : Type :=
| Untouched
| Removed (created : bool)
| Placed (service : nat) (action : Action) (moved : bool).

Definition entry_or_empty (E : option EndpointList) : EndpointList :=
  match E with Some eps => eps | None => [] end.

Definition apply_touch (node : string) (t : Touch) (E : option EndpointList)
    : option EndpointList :=
  match t with
  | Untouched => E
  | Removed true => Some (removeByNodeID node (entry_or_empty E))
  | Removed false => option_map (removeByNodeID node) E
  | Placed k act false => Some (EndpointList_add node k act (entry_or_empty E))
  | Placed k act true =>
      Some (removeByNodeID node (entry_or_empty E)
            ++ [mkEndpoint node k act CLOSED])
  end.

Definition touch_add (k : nat) (act : Action) (t : Touch) : Touch :=
  match t with
  | Untouched => Placed k act false
  | Removed _ => Placed k act true
  | Placed k0 _ m => Placed k0 act m
  end.

Definition touch_rem (t : Touch) : Touch :=
  match t with
  | Untouched => Removed false
  | Removed c => Removed c
  | Placed _ _ _ => Removed true
  end.

Definition touch_adds (a : string) (k : nat) (acts : JsObj Action) (t : Touch)
    : Touch :=
  fold_left (fun t kv => if String.eqb a (action_name (snd kv))
                         then touch_add k (snd kv) t else t) acts t.

Definition touch_step (a : string) (t : Touch) (st : Step) : Touch :=
  let t1 := touch_adds a (st_sid st) (st_acts st) t in
  if existsb (String.eqb a) (st_old st) then touch_rem t1 else t1.

Definition touch_plan (a : string) (plan : list Step) (t : Touch) : Touch :=
  fold_left (touch_step a) plan t.

(** ** Helpers for the further properties *)

(** The endpoints that survive the removal of the services [gone]. *)
Definition survives (gone : list ServiceItem) (ep : Endpoint) : bool :=
  negb (existsb (fun s => Nat.eqb (ep_service ep) (sid s)) gone).

(** [getEndpointByNodeID] on an entry that may be missing. *)
Definition entry_lookup (nodeID : string) (E : option EndpointList)
    : option Endpoint :=
  match E with
  | Some list => getEndpointByNodeID nodeID list
  | None => None
  end.

(** The actions of a descriptor have distinct names. *)
Definition distinct_names (acts : JsObj Action) : bool :=
  nodupb String.eqb (map (fun kv => action_name (snd kv)) acts).

(** Every entry of the action map holds at most one endpoint per node. *)
Definition endpoints_unique (A : JsObj EndpointList) : Prop :=
  forall a eps, actions_get a A = Some eps -> NoDup (map ep_node eps).

Definition endpoints_uniqueb (A : JsObj EndpointList) : bool :=
  forallb (fun e => nodupb String.eqb (map ep_node (snd e))) A.

(** The calls of the registry that change its catalogs, apart from
    [registerLocalService]. *)
Inductive RegistryCall : Type :=
| CallRegisterServices (node : string) (serviceList : list ServiceSchema)
| CallProcessNodeInfo (payload : InfoPayload)
| CallNodeDisconnected (nodeID : string) (isUnexpected : bool)
| CallUnregisterService (name : string) (version : JsVal)
                        (nodeID : option string)
| CallUnregisterServicesByNode (nodeID : string)
| CallUnregisterAction (node name : string).

Definition call (r : Registry) (c : RegistryCall) : Registry :=
  match c with
  | CallRegisterServices node serviceList => registerServices node serviceList r
  | CallProcessNodeInfo payload => snd (processNodeInfo payload r)
  | CallNodeDisconnected nodeID isUnexpected =>
      nodeDisconnected nodeID isUnexpected r
  | CallUnregisterService name version nodeID =>
      unregisterService name version nodeID r
  | CallUnregisterServicesByNode nodeID => unregisterServicesByNode nodeID r
  | CallUnregisterAction node name => unregisterAction node name r
  end.

(** ** Reachable registries *)


(** Every endpoint that [F] selects refers to a service item of the catalog,
    on the node of the endpoint, that satisfies [Q]. *)
Definition owned_in (Q : ServiceItem -> bool) (F : string -> Endpoint -> bool)
    (r : Registry) : Prop :=
  forall a eps ep,
    actions_get a (actions r) = Some eps -> In ep eps -> F a ep = true ->
    exists t, In t (services r) /\ sid t = ep_service ep /\
              service_node t = ep_node ep /\ Q t = true.


(** The service item is named by a descriptor of the list. *)
Definition named (L : list ServiceSchema) (t : ServiceItem) : bool :=
  existsb (fun svc => equals t (svc_name svc) (svc_version svc)) L.

(** An endpoint of [node] under an action name that the list declares. *)
Definition listed_endpoint (node : string) (L : list ServiceSchema)
    (a : string) (ep : Endpoint) : bool :=
  String.eqb (ep_node ep) node && existsb (fun svc => declares svc a) L.

(** Every endpoint that [node] has for an action of the list belongs to a
    service that the list names. *)
Definition owners_listed (node : string) (L : list ServiceSchema)
    (r : Registry) : bool :=
  forallb (fun e =>
             forallb (fun ep =>
                        negb (listed_endpoint node L (fst e) ep) ||
                        existsb (fun t => Nat.eqb (sid t) (ep_service ep) &&
                                          named L t) (services r))
                     (snd e))
          (actions r).


(** ** Sample calls *)

(** A broker that has heard of node-1 with two services. *)
Definition two_services_registry : Registry :=
  registerServices "node-1" [posts_v1; users_schema] (Registry_new "node-local").

(** A descriptor whose action is stored under a key that is not its name. *)
Definition keyed_schema : ServiceSchema :=
  mkSchema "files" JUndefined JNull [("k", mkAction "new.x" [])].

(** Two descriptors of one service, and a service that shares an action
    name with the second. *)
Definition mail_schema : ServiceSchema :=
  mkSchema "mail" JUndefined JNull [("mail.send", mkAction "mail.send" [])].

Definition chat_join : ServiceSchema :=
  mkSchema "chat" JUndefined JNull [("chat.join", mkAction "chat.join" [])].

Definition chat_send : ServiceSchema :=
  mkSchema "chat" JUndefined JNull [("mail.send", mkAction "mail.send" [])].

Definition mail_registry : Registry :=
  registerServices "node-1" [mail_schema] (Registry_new "node-local").

(* Theorems *)

(** * Properties *)

(** ** Objects and lists *)

Lemma obj_get_In : forall A k (o : JsObj A) v,
  obj_get k o = Some v -> In (k, v) o.
Proof.
  induction o as [|[k' v'] o IH]; simpl; intros v H; [discriminate|].
  destruct (String.eqb_spec k k') as [->|Hne].
  - injection H as ->. now left.
  - right. now apply IH.
Qed.

Lemma obj_get_None : forall A k (o : JsObj A),
  obj_get k o = None <-> ~ In k (obj_keys o).
Proof.
  induction o as [|[k' v'] o IH]; simpl.
  - tauto.
  - destruct (String.eqb_spec k k') as [->|Hne].
    + split; [discriminate | intros H; exfalso; apply H; now left].
    + rewrite IH. split; intros H; [intros [E|E]; [congruence|tauto] | tauto].
Qed.

Lemma omit_get_None : forall A (o : JsObj A) ks k,
  In k ks -> obj_get k (omit o ks) = None.
Proof.
  intros A o ks k Hin. apply obj_get_None. unfold obj_keys, omit.
  intros H. apply in_map_iff in H as [[k' v] [E H]]. simpl in E. subst k'.
  apply filter_In in H as [_ H]. simpl in H.
  apply negb_true_iff in H.
  assert (existsb (String.eqb k) ks = true) as E.
  { apply existsb_exists. exists k. split; [assumption | apply String.eqb_refl]. }
  congruence.
Qed.

Lemma filter_map_In : forall A B (f : A -> option B) l y,
  In y (filter_map f l) <-> exists x, In x l /\ f x = Some y.
Proof.
  induction l as [|x l IH]; simpl; intros y.
  - split; [tauto | intros [? [[] _]]].
  - destruct (f x) as [z|] eqn:E; simpl; rewrite IH; split.
    + intros [->|[x' [H1 H2]]]; [exists x; auto | exists x'; auto].
    + intros [x' [[->|H1] H2]]; [left; congruence | right; exists x'; auto].
    + intros [x' [H1 H2]]; exists x'; auto.
    + intros [x' [[->|H1] H2]]; [congruence | exists x'; auto].
Qed.

Lemma prefix_app : forall a b k,
  String.prefix (a ++ b)%string k = true -> String.prefix a k = true.
Proof.
  induction a as [|c a IH]; simpl; intros b k H.
  - now destruct k.
  - destruct k as [|c' k]; simpl in *; [discriminate|].
    destruct (Ascii.ascii_dec c c'); [eauto | discriminate].
Qed.

(** ** The action list *)

Lemma listEntry_Some : forall opts r key entry item,
  listEntry opts r (key, entry) = Some item ->
  skipInternal opts && isInternal key = false /\
  onlyLocal opts && negb (hasLocal r entry) = false /\
  exists ep rest,
    entry = ep :: rest /\
    isProtected (omitAction (ep_action ep)) = false /\
    item_name item = key /\
    item_count item = count entry /\
    item_action item = Some (omitAction (ep_action ep)).
Proof.
  intros opts r key entry item H. unfold listEntry in H.
  destruct (skipInternal opts && isInternal key); [discriminate|].
  destruct (onlyLocal opts && negb (hasLocal r entry)); [discriminate|].
  destruct entry as [|ep rest]; simpl in H; [discriminate|].
  destruct (isProtected (omitAction (ep_action ep))) eqn:P; [discriminate|].
  injection H as <-. repeat split; try reflexivity.
  exists ep, rest. simpl. auto.
Qed.

Lemma isProtected_false : forall a,
  isProtected a = false -> obj_get "protected" (action_props a) <> Some (JBool true).
Proof.
  unfold isProtected. intros a H E. rewrite E in H. discriminate.
Qed.

(** C5: whatever the registry holds, with [skipInternal] the list has no item
    named with the reserved [$node.] prefix, with [onlyLocal] every item is
    an action with an endpoint on the local node, and under every filter no
    item carries a descriptor whose [protected] is [true]. *)
Theorem getActionList_filters : forall opts r item,
  In item (getActionList opts r) ->
  (skipInternal opts = true ->
     String.prefix "$node." (item_name item) = false) /\
  (onlyLocal opts = true ->
     exists entry ep,
       In (item_name item, entry) (actions r) /\ hasLocal r entry = true /\
       In ep entry /\ ep_node ep = broker_nodeID r) /\
  (forall a, item_action item = Some a ->
     obj_get "protected" (action_props a) <> Some (JBool true)).
Proof.
  intros opts r item H. unfold getActionList in H.
  apply filter_map_In in H as [[key entry] [Hin H]].
  apply listEntry_Some in H
    as (Hskip & Hlocal & ep & rest & -> & Hprot & Hname & _ & Hact).
  rewrite Hname. repeat split.
  - intros Hs. rewrite Hs in Hskip. simpl in Hskip.
    destruct (String.prefix "$node." key) eqn:P; [|reflexivity].
    apply (prefix_app "$node" ".") in P. unfold isInternal in Hskip. congruence.
  - intros Hl. rewrite Hl in Hlocal. simpl in Hlocal.
    apply negb_false_iff in Hlocal.
    destruct (proj1 (existsb_exists _ (ep :: rest)) Hlocal) as [ep' [Hep E]].
    apply String.eqb_eq in E. exists (ep :: rest), ep'. auto.
  - intros a Ha. rewrite Hact in Ha. injection Ha as <-.
    now apply isProtected_false.
Qed.

Lemma getActionList_filters_witness :
  In sample_item (getActionList (mkOpts true true false) sample_local_registry) /\
  String.prefix "$node." (item_name sample_item) = false.
Proof.
  assert (In sample_item
            (getActionList (mkOpts true true false) sample_local_registry)) as H
    by (vm_compute; left; reflexivity).
  split; [exact H|].
  exact (proj1 (getActionList_filters _ _ _ H) eq_refl).
Defined.

(** C10: every listed item comes from an action entry whose endpoint list
    is not empty; its [action] is the descriptor of the first endpoint
    without [handler] and [service]. *)
Theorem getActionList_projection : forall opts r item,
  In item (getActionList opts r) ->
  exists entry ep rest,
    In (item_name item, entry) (actions r) /\
    entry = ep :: rest /\
    0 < item_count item /\
    item_action item = Some (omitAction (ep_action ep)) /\
    (forall a, item_action item = Some a ->
       action_name a = action_name (ep_action ep) /\
       obj_get "handler" (action_props a) = None /\
       obj_get "service" (action_props a) = None).
Proof.
  intros opts r item H. unfold getActionList in H.
  apply filter_map_In in H as [[key entry] [Hin H]].
  apply listEntry_Some in H
    as (_ & _ & ep & rest & -> & _ & Hname & Hcount & Hact).
  exists (ep :: rest), ep, rest. rewrite Hname, Hcount.
  repeat split; auto.
  - simpl. lia.
  - rewrite Hact in H. now injection H as <-.
  - rewrite Hact in H. injection H as <-. simpl.
    apply omit_get_None. simpl. auto.
  - rewrite Hact in H. injection H as <-. simpl.
    apply omit_get_None. simpl. auto.
Qed.

Lemma getActionList_projection_witness :
  In sample_item (getActionList (mkOpts false false false) sample_local_registry) /\
  exists entry ep rest,
    In (item_name sample_item, entry) (actions sample_local_registry) /\
    entry = ep :: rest /\
    0 < item_count sample_item /\
    item_action sample_item = Some (omitAction (ep_action ep)) /\
    (forall a, item_action sample_item = Some a ->
       action_name a = action_name (ep_action ep) /\
       obj_get "handler" (action_props a) = None /\
       obj_get "service" (action_props a) = None).
Proof.
  assert (In sample_item
            (getActionList (mkOpts false false false) sample_local_registry)) as H
    by (vm_compute; left; reflexivity).
  split; [exact H|].
  exact (getActionList_projection _ _ _ H).
Defined.

(** ** Node information *)

(** C4 (as the code has it): the registry's [processNodeInfo] hands the
    payload to the node catalog and returns nothing, for every payload and
    every registry. *)
Theorem processNodeInfo_returns_undefined : forall payload r,
  fst (processNodeInfo payload r) = JUndefined /\
  snd (processNodeInfo payload r) = snd (nodes_processNodeInfo payload r).
Proof.
  intros payload r. unfold processNodeInfo.
  destruct (nodes_processNodeInfo payload r). auto.
Qed.

(** C4 (as stated) fails: no reading of the returned value tells a new node
    from a known one. *)
Lemma processNodeInfo_result_not_isNew :
  ~ exists decode : JsVal -> bool,
      forall payload r,
        decode (fst (processNodeInfo payload r)) = isNewNode payload r.
Proof.
  intros [decode H].
  pose proof (H (mkInfo "node-1" []) (Registry_new "node-local")) as H1.
  pose proof (H (mkInfo "node-local" []) (Registry_new "node-local")) as H2.
  vm_compute in H1, H2. congruence.
Qed.

(** ** Lookup of an endpoint *)

(** C9: [getActionEndpointByNodeId] is total; without an entry for the action
    it returns nothing, and it returns an endpoint exactly when the entry
    exists and holds an endpoint of that node. *)
Theorem getActionEndpointByNodeId_spec : forall actionName nodeID r,
  (getActionEndpoints actionName r = None ->
     getActionEndpointByNodeId actionName nodeID r = None) /\
  ((exists ep, getActionEndpointByNodeId actionName nodeID r = Some ep) <->
   (exists list ep, getActionEndpoints actionName r = Some list /\
                    In ep list /\ ep_node ep = nodeID)).
Proof.
  intros a n r. unfold getActionEndpointByNodeId, getActionEndpoints.
  destruct (actions_get a (actions r)) as [list|]; split.
  - discriminate.
  - unfold getEndpointByNodeID. split.
    + intros [ep H]. apply find_some in H as [H1 H2].
      apply String.eqb_eq in H2. exists list, ep. auto.
    + intros (list' & ep & E & Hin & Hn). injection E as <-.
      destruct (find (fun ep0 => String.eqb (ep_node ep0) n) list) as [ep'|] eqn:F.
      * now exists ep'.
      * exfalso. apply (find_none _ _ F) in Hin.
        rewrite Hn, String.eqb_refl in Hin. discriminate.
  - reflexivity.
  - split; [intros [ep H]; discriminate | intros (l & ep & H & _); discriminate].
Qed.

Lemma getActionEndpointByNodeId_spec_witness :
  getActionEndpoints "users.list" sample_cluster = None /\
  getActionEndpointByNodeId "users.list" "node-1" sample_cluster = None.
Proof.
  split; [reflexivity|].
  apply (proj1 (getActionEndpointByNodeId_spec "users.list" "node-1"
                  sample_cluster)).
  reflexivity.
Defined.

(** ** Disconnection of a node *)

Lemma find_map_stable : forall A (f : A -> bool) (g : A -> A) l,
  (forall x, f (g x) = f x) ->
  find f (map g l) = option_map g (find f l).
Proof.
  intros A f g l Hfg. induction l as [|x l IH]; simpl; [reflexivity|].
  rewrite Hfg. destruct (f x); [reflexivity | exact IH].
Qed.

Lemma nodes_get_disconnected : forall nodeID ns node,
  nodes_get nodeID ns = Some node ->
  nodes_get nodeID (disconnected (node_id node) ns) = Some (mkNode nodeID false).
Proof.
  intros n ns node H. unfold nodes_get, disconnected in *.
  rewrite find_map_stable.
  - rewrite H. simpl. apply find_some in H as [_ E].
    apply String.eqb_eq in E. rewrite String.eqb_refl. now rewrite E.
  - intros x. now destruct (String.eqb (node_id x) (node_id node)).
Qed.

Lemma nodes_nodeDisconnected : forall nodeID u r node,
  nodes_get nodeID (nodes r) = Some node ->
  node_available node = true ->
  nodes (nodeDisconnected nodeID u r) = disconnected (node_id node) (nodes r).
Proof.
  intros n u r node H Hav. unfold nodeDisconnected. now rewrite H, Hav.
Qed.

(** C8: for a node id that the catalog does not know, or that is already
    marked unavailable, [nodeDisconnected] returns the registry as it was,
    broker calls included; hence a second [nodeDisconnected] for the same
    node does nothing. *)
Theorem nodeDisconnected_noop : forall nodeID u r,
  (isAvailableNode nodeID r = false -> nodeDisconnected nodeID u r = r) /\
  (forall u', nodeDisconnected nodeID u' (nodeDisconnected nodeID u r)
              = nodeDisconnected nodeID u r).
Proof.
  assert (forall nodeID u r,
            isAvailableNode nodeID r = false -> nodeDisconnected nodeID u r = r)
    as Hnoop.
  { intros n u r H. unfold isAvailableNode in H. unfold nodeDisconnected.
    destruct (nodes_get n (nodes r)) as [node|]; [|reflexivity].
    now rewrite H. }
  intros n u r. split; [apply Hnoop|].
  intros u'. apply Hnoop. unfold isAvailableNode.
  destruct (nodes_get n (nodes r)) as [node|] eqn:G.
  - destruct (node_available node) eqn:Hav.
    + rewrite (nodes_nodeDisconnected _ u _ G Hav).
      now rewrite (nodes_get_disconnected _ _ G).
    + assert (nodeDisconnected n u r = r) as ->; [|now rewrite G].
      apply Hnoop. unfold isAvailableNode. now rewrite G.
  - assert (nodeDisconnected n u r = r) as ->; [|now rewrite G].
    apply Hnoop. unfold isAvailableNode. now rewrite G.
Qed.

Lemma nodeDisconnected_noop_witness :
  isAvailableNode "node-9" sample_cluster = false /\
  nodeDisconnected "node-9" true sample_cluster = sample_cluster.
Proof.
  split; [reflexivity|].
  apply (proj1 (nodeDisconnected_noop "node-9" true sample_cluster)).
  reflexivity.
Defined.

Lemma In_removeByService_fold : forall gone acts e ep,
  In e (fold_left (fun acts s => actions_removeByService (sid s) acts) gone acts) ->
  In ep (snd e) ->
  (exists e0, In e0 acts /\ fst e0 = fst e /\ In ep (snd e0)) /\
  (forall s, In s gone -> ep_service ep <> sid s).
Proof.
  induction gone as [|s gone IH]; simpl; intros acts e ep He Hep.
  - split; [exists e; auto | tauto].
  - destruct (IH _ _ _ He Hep) as [(e1 & H1 & Hk & H2) Hg].
    unfold actions_removeByService in H1.
    apply in_map_iff in H1 as (e0 & <- & H0). simpl in *.
    unfold EndpointList_removeByService in H2.
    apply filter_In in H2 as [H2 Hs]. apply negb_true_iff in Hs.
    apply Nat.eqb_neq in Hs. split.
    + exists e0. auto.
    + intros s' [<-|Hin]; [assumption | now apply Hg].
Qed.

Lemma endpoints_owned_In : forall r e ep,
  endpoints_owned r = true -> In e (actions r) -> In ep (snd e) ->
  exists s, In s (services r) /\ sid s = ep_service ep /\
            service_node s = ep_node ep.
Proof.
  intros r e ep H He Hep. unfold endpoints_owned in H.
  rewrite forallb_forall in H. specialize (H _ He).
  rewrite forallb_forall in H. specialize (H _ Hep).
  unfold service_on in H. apply existsb_exists in H as (s & Hs & E).
  apply andb_true_iff in E as [E1 E2].
  apply Nat.eqb_eq in E1. apply String.eqb_eq in E2. eauto.
Qed.

(** ** Lookup after an update *)

Lemma obj_get_set_same : forall A k (v : A) o,
  obj_get k (obj_set k v o) = Some v.
Proof.
  induction o as [|[k' v'] o IH]; simpl.
  - now rewrite String.eqb_refl.
  - destruct (String.eqb_spec k k') as [->|Hne]; simpl.
    + now rewrite String.eqb_refl.
    + destruct (String.eqb_spec k k'); [contradiction | exact IH].
Qed.

Lemma obj_get_set_other : forall A k k' (v : A) o,
  k <> k' -> obj_get k (obj_set k' v o) = obj_get k o.
Proof.
  induction o as [|[k0 v0] o IH]; simpl; intros Hne.
  - destruct (String.eqb_spec k k'); [contradiction | reflexivity].
  - destruct (String.eqb_spec k' k0) as [->|Hne0]; simpl.
    + destruct (String.eqb_spec k k0); [contradiction | reflexivity].
    + destruct (String.eqb_spec k k0); [reflexivity | now apply IH].
Qed.

Lemma obj_keys_set_incl : forall A k (v : A) o k0,
  In k0 (obj_keys o) -> In k0 (obj_keys (obj_set k v o)).
Proof.
  induction o as [|[k' v'] o IH]; simpl; intros k0 H; [tauto|].
  destruct (String.eqb k k'); simpl; [exact H|].
  destruct H as [H|H]; [now left | right; now apply IH].
Qed.

Lemma obj_keys_set_same : forall A k (v : A) o,
  In k (obj_keys (obj_set k v o)).
Proof.
  intros A k v o. destruct (obj_get k (obj_set k v o)) eqn:E.
  - apply obj_get_In in E. unfold obj_keys.
    apply in_map_iff. exists (k, a). auto.
  - rewrite obj_get_set_same in E. discriminate.
Qed.

Lemma obj_get_map_values : forall A B (g : A -> B) k (o : JsObj A),
  obj_get k (map (fun e => (fst e, g (snd e))) o) = option_map g (obj_get k o).
Proof.
  induction o as [|[k' v'] o IH]; simpl; [reflexivity|].
  destruct (String.eqb k k'); [reflexivity | exact IH].
Qed.

Lemma actions_get_add : forall a node service action acts,
  actions_get a (actions_add node service action acts) =
  if String.eqb a (action_name action)
  then Some (EndpointList_add node service action
               (match actions_get (action_name action) acts with
                | Some eps => eps | None => [] end))
  else actions_get a acts.
Proof.
  intros a node service action acts. unfold actions_add, actions_get.
  destruct (String.eqb_spec a (action_name action)) as [->|Hne].
  - destruct (obj_get (action_name action) acts); apply obj_get_set_same.
  - destruct (obj_get (action_name action) acts);
      now apply obj_get_set_other.
Qed.

Lemma actions_get_remove : forall a name nodeID acts,
  actions_get a (actions_remove name nodeID acts) =
  if String.eqb a name
  then option_map (removeByNodeID nodeID) (actions_get name acts)
  else actions_get a acts.
Proof.
  intros a name nodeID acts. unfold actions_remove, actions_get.
  destruct (String.eqb_spec a name) as [->|Hne].
  - destruct (obj_get name acts) eqn:E; simpl.
    + apply obj_get_set_same.
    + exact E.
  - destruct (obj_get name acts); [now apply obj_get_set_other | reflexivity].
Qed.

Lemma actions_get_removeByService : forall a service acts,
  actions_get a (actions_removeByService service acts) =
  option_map (EndpointList_removeByService service) (actions_get a acts).
Proof.
  intros. unfold actions_get, actions_removeByService.
  apply obj_get_map_values.
Qed.

(** [add] on a list that holds an endpoint of the node changes the
    descriptor of that endpoint only; otherwise the new endpoint is the one
    of the given service. *)
Lemma In_EndpointList_add : forall node service action eps ep,
  In ep (EndpointList_add node service action eps) ->
  (In ep eps /\ ep_node ep <> node) \/
  (ep_node ep = node /\ ep_action ep = action /\
   ((exists ep0, In ep0 eps /\ ep_node ep0 = node /\
                 ep_service ep0 = ep_service ep /\
                 ep_state ep0 = ep_state ep) \/
    (ep_service ep = service /\ ep_state ep = CLOSED /\
     forall ep0, In ep0 eps -> ep_node ep0 <> node))).
Proof.
  intros node service action eps ep H. unfold EndpointList_add in H.
  destruct (existsb (fun ep0 => String.eqb (ep_node ep0) node) eps) eqn:E.
  - apply in_map_iff in H as (ep0 & H & Hin).
    destruct (String.eqb_spec (ep_node ep0) node) as [Hn|Hn].
    + right. subst ep. simpl. repeat split; auto.
      left. exists ep0. auto.
    + left. subst ep. auto.
  - assert (Hno : forall ep0, In ep0 eps -> ep_node ep0 <> node).
    { intros ep0 Hin Hn.
      assert (existsb (fun ep1 => String.eqb (ep_node ep1) node) eps = true).
      { apply existsb_exists. exists ep0. split; [assumption|].
        now apply String.eqb_eq. }
      congruence. }
    apply in_app_or in H as [H|[<-|[]]].
    + left. split; [assumption|]. now apply Hno.
    + right. simpl. repeat split; auto.
Qed.

(** ** Well-formedness: the check is sound *)

Lemma jsval_eqb_eq : forall a b, jsval_eqb a b = true -> a = b.
Proof.
  intros [| |x|x|x|x|x] [| |y|y|y|y|y]; simpl; intros H;
    try discriminate; try reflexivity; f_equal.
  - now apply Bool.eqb_prop.
  - now apply Z.eqb_eq.
  - now apply String.eqb_eq.
  - now apply Nat.eqb_eq.
  - now apply Nat.eqb_eq.
Qed.

Lemma jsval_eqb_refl : forall a, jsval_eqb a a = true.
Proof.
  intros [| |x|x|x|x|x]; simpl; auto.
  - apply Bool.eqb_reflx.
  - apply Z.eqb_refl.
  - apply String.eqb_refl.
  - apply Nat.eqb_refl.
  - apply Nat.eqb_refl.
Qed.

Lemma nodupb_NoDup : forall A (eqb : A -> A -> bool) l,
  (forall x, eqb x x = true) -> nodupb eqb l = true -> NoDup l.
Proof.
  intros A eqb l Hrefl. induction l as [|x l IH]; simpl; intros H.
  - constructor.
  - apply andb_true_iff in H as [H1 H2]. constructor; [|now apply IH].
    intros Hin. apply negb_true_iff in H1.
    assert (existsb (eqb x) l = true) as E
      by (apply existsb_exists; exists x; auto).
    congruence.
Qed.

Lemma NoDup_map_inj : forall A B (f : A -> B) l x y,
  NoDup (map f l) -> In x l -> In y l -> f x = f y -> x = y.
Proof.
  induction l as [|z l IH]; simpl; intros x y Hnd Hx Hy E; [tauto|].
  inversion Hnd as [|? ? Hz Hnd']; subst.
  destruct Hx as [->|Hx], Hy as [->|Hy]; auto.
  - exfalso. apply Hz. rewrite E. now apply in_map.
  - exfalso. apply Hz. rewrite <- E. now apply in_map.
Qed.

Lemma registry_wfb_sound : forall r, registry_wfb r = true -> registry_wf r.
Proof.
  intros r H. unfold registry_wfb in H.
  repeat (apply andb_true_iff in H as [H ?]).
  rename H into Hget, H3 into Hsid, H2 into Hfresh, H1 into Hkeys, H0 into Hown.
  assert (NoDup (map sid (services r))) as Hnd
    by (apply (nodupb_NoDup Nat.eqb); [apply Nat.eqb_refl | assumption]).
  constructor.
  - intros t Ht. rewrite forallb_forall in Hget. specialize (Hget t Ht).
    destruct (services_get _ _ _ _) as [t'|] eqn:G; [|discriminate].
    apply Nat.eqb_eq in Hget. f_equal.
    apply find_some in G as [G _].
    now apply (NoDup_map_inj sid (services r)).
  - exact Hnd.
  - intros t Ht. rewrite forallb_forall in Hfresh.
    now apply Nat.ltb_lt, Hfresh.
  - apply (nodupb_NoDup String.eqb); [apply String.eqb_refl | assumption].
  - intros name eps ep Hg Hep. apply obj_get_In in Hg.
    rewrite forallb_forall in Hown. specialize (Hown _ Hg). simpl in Hown.
    rewrite forallb_forall in Hown. specialize (Hown _ Hep).
    apply existsb_exists in Hown as (t & Ht & E). unfold owner_of in E.
    apply andb_true_iff in E as [E E3]. apply andb_true_iff in E as [E1 E2].
    apply Nat.eqb_eq in E1. apply String.eqb_eq in E2.
    apply existsb_exists in E3 as (k & Hk & E3). apply String.eqb_eq in E3.
    subst k. exists t. auto.
Qed.

(** ** Well-formedness is kept by the catalog operations *)

Lemma grows_on_service : forall k f, grows f ->
  grows (fun s => if Nat.eqb (sid s) k then f s else s).
Proof.
  intros k f Hf s. destruct (Nat.eqb (sid s) k); [apply Hf|].
  repeat split; auto. apply incl_refl.
Qed.

Lemma grows_update : forall svc, grows (update svc).
Proof. intros svc s. simpl. repeat split; auto. apply incl_refl. Qed.

Lemma grows_addAction : forall action, grows (addAction action).
Proof.
  intros action s. simpl. repeat split; auto.
  intros k Hk. now apply obj_keys_set_incl.
Qed.

Lemma services_get_map : forall g name version nodeID ss,
  grows g ->
  services_get name version nodeID (map g ss) =
  option_map g (services_get name version nodeID ss).
Proof.
  intros g name version nodeID ss Hg. unfold services_get.
  apply find_map_stable. intros x. unfold equals.
  destruct (Hg x) as (_ & -> & -> & -> & _). reflexivity.
Qed.

Lemma NoDup_keys_set : forall A k (v : A) o,
  NoDup (obj_keys o) -> NoDup (obj_keys (obj_set k v o)).
Proof.
  induction o as [|[k' v'] o IH]; simpl; intros H.
  - constructor; [tauto | constructor].
  - inversion H as [|? ? Hn Hnd]; subst.
    destruct (String.eqb_spec k k') as [->|Hne]; simpl.
    + now constructor.
    + constructor; [|now apply IH].
      intros Hin. apply Hn. clear - Hin Hne.
      induction o as [|[k0 v0] o IH]; simpl in *.
      * destruct Hin as [E|[]]. congruence.
      * destruct (String.eqb_spec k k0) as [->|Hne0]; simpl in Hin.
        -- exact Hin.
        -- destruct Hin as [E|Hin]; [now left | right; now apply IH].
Qed.

(** Items change by [g], the action map becomes [acts']: the registry stays
    well formed when every endpoint of [acts'] was there before or has an
    owner among the changed items. *)
Lemma wf_update : forall r g acts',
  registry_wf r -> grows g ->
  NoDup (obj_keys acts') ->
  (forall name eps ep,
     actions_get name acts' = Some eps -> In ep eps ->
     (exists eps0, actions_get name (actions r) = Some eps0 /\ In ep eps0) \/
     (exists t, In t (services r) /\ sid t = ep_service ep /\
                service_node t = ep_node ep /\
                In name (obj_keys (service_actions (g t))))) ->
  registry_wf (mkRegistry (broker_nodeID r) (nodes r) (map g (services r))
                          (next_sid r) acts' (broker_calls r) (events r)).
Proof.
  intros r g acts' [Hget Hsids Hfresh Hkeys Hown] Hg Hnd Hacts.
  constructor; simpl.
  - intros t' Ht'. apply in_map_iff in Ht' as (t & <- & Ht).
    destruct (Hg t) as (_ & -> & -> & -> & _).
    rewrite services_get_map by assumption. now rewrite (Hget t Ht).
  - rewrite map_map. erewrite map_ext; [exact Hsids|].
    intros s. apply Hg.
  - intros t' Ht'. apply in_map_iff in Ht' as (t & <- & Ht).
    destruct (Hg t) as (-> & _). now apply Hfresh.
  - exact Hnd.
  - intros name eps ep Hgt Hep.
    destruct (Hacts name eps ep Hgt Hep) as [(eps0 & H0 & Hep0)|(t & Ht & E1 & E2 & Hk)].
    + destruct (Hown name eps0 ep H0 Hep0) as (t & Ht & E1 & E2 & Hk).
      exists (g t). destruct (Hg t) as (-> & _ & _ & -> & Hincl).
      repeat split; auto. now apply in_map.
    + exists (g t). destruct (Hg t) as (-> & _ & _ & -> & _).
      repeat split; auto. now apply in_map.
Qed.

Lemma wf_registerAction : forall node service r kv,
  registry_wf r ->
  (exists t, In t (services r) /\ sid t = service /\ service_node t = node) ->
  registry_wf (registerAction node service r kv).
Proof.
  intros node service r [k action] Hwf (t0 & Ht0 & Hs0 & Hn0).
  unfold registerAction, set_services, set_actions, on_service. simpl.
  apply (wf_update (r := r)); auto.
  - apply grows_on_service, grows_addAction.
  - unfold actions_add.
    destruct (actions_get (action_name action) (actions r));
      apply NoDup_keys_set, Hwf.
  - intros name eps ep Hg Hep. rewrite actions_get_add in Hg.
    destruct (String.eqb_spec name (action_name action)) as [->|Hne].
    + injection Hg as <-.
      apply In_EndpointList_add in Hep
        as [[Hep Hn]|(Hn & _ & [(ep0 & Hep0 & Hn0' & Hs & _)|(Hs & _)])].
      * left. destruct (actions_get (action_name action) (actions r)) as [eps0|];
          [eauto | destruct Hep].
      * right.
        destruct (actions_get (action_name action) (actions r)) as [eps0|] eqn:G;
          [|destruct Hep0].
        pose proof (wf_owner Hwf) as Hown.
        destruct (Hown _ _ _ G Hep0) as (t & Ht & E1 & E2 & Hk).
        exists t. repeat split; try congruence.
        destruct (Nat.eqb (sid t) service); [|assumption].
        simpl. now apply obj_keys_set_incl.
      * right. exists t0. rewrite Hs0, Nat.eqb_refl. simpl.
        repeat split; auto; try congruence. apply obj_keys_set_same.
    + left. eauto.
Qed.

Lemma find_app : forall A (p : A -> bool) l1 l2,
  find p (l1 ++ l2) =
  match find p l1 with Some x => Some x | None => find p l2 end.
Proof.
  induction l1 as [|x l1 IH]; simpl; intros l2; [reflexivity|].
  destruct (p x); [reflexivity | apply IH].
Qed.

Lemma find_filter_Some : forall A (p q : A -> bool) l t,
  find p l = Some t -> q t = true -> find p (filter q l) = Some t.
Proof.
  induction l as [|x l IH]; simpl; intros t H Hq; [discriminate|].
  destruct (p x) eqn:P.
  - injection H as ->. rewrite Hq. simpl. now rewrite P.
  - destruct (q x); simpl; [rewrite P|]; now apply IH.
Qed.

Lemma NoDup_map_filter : forall A B (f : A -> B) (q : A -> bool) l,
  NoDup (map f l) -> NoDup (map f (filter q l)).
Proof.
  induction l as [|x l IH]; simpl; intros H; [constructor|].
  inversion H as [|? ? Hn Hnd]; subst.
  destruct (q x); simpl; [|now apply IH].
  constructor; [|now apply IH].
  intros Hin. apply Hn. apply in_map_iff in Hin as (y & E & Hy).
  apply filter_In in Hy as [Hy _]. rewrite <- E. now apply in_map.
Qed.

Lemma NoDup_snoc : forall A (l : list A) x,
  NoDup l -> ~ In x l -> NoDup (l ++ [x]).
Proof.
  induction l as [|y l IH]; simpl; intros x H Hx.
  - constructor; [tauto | constructor].
  - inversion H as [|? ? Hn Hnd]; subst. constructor.
    + intros Hin. apply in_app_or in Hin as [Hin|[E|[]]]; [tauto|].
      apply Hx. now left.
    + apply IH; [assumption | tauto].
Qed.

Lemma wf_set_actions : forall r acts',
  registry_wf r -> NoDup (obj_keys acts') ->
  (forall name eps ep,
     actions_get name acts' = Some eps -> In ep eps ->
     exists eps0, actions_get name (actions r) = Some eps0 /\ In ep eps0) ->
  registry_wf (set_actions acts' r).
Proof.
  intros r acts' [Hget Hsids Hfresh Hkeys Hown] Hnd Hacts.
  constructor; simpl; auto.
  intros name eps ep Hg Hep.
  destruct (Hacts name eps ep Hg Hep) as (eps0 & H0 & Hep0). eauto.
Qed.

Lemma wf_unregisterAction : forall node name r,
  registry_wf r -> registry_wf (unregisterAction node name r).
Proof.
  intros node name r Hwf. unfold unregisterAction.
  apply wf_set_actions; [assumption | |].
  - unfold actions_remove.
    destruct (actions_get name (actions r));
      [apply NoDup_keys_set|]; apply Hwf.
  - intros a eps ep Hg Hep. rewrite actions_get_remove in Hg.
    destruct (String.eqb a name) eqn:E; [|eauto].
    apply String.eqb_eq in E. subst a.
    destruct (actions_get name (actions r)) as [eps0|]; [|discriminate].
    injection Hg as <-. apply filter_In in Hep as [Hep _]. eauto.
Qed.

Lemma wf_services_add : forall node name version settings r,
  registry_wf r ->
  services_get name version node (services r) = None ->
  registry_wf (snd (services_add node name version settings r)).
Proof.
  intros node name version settings r [Hget Hsids Hfresh Hkeys Hown] Hnone.
  constructor; simpl.
  - intros t Ht. unfold services_get in *. rewrite find_app.
    apply in_app_or in Ht as [Ht|[<-|[]]].
    + now rewrite (Hget t Ht).
    + simpl. rewrite Hnone. unfold equals. simpl.
      now rewrite !String.eqb_refl, jsval_eqb_refl.
  - rewrite map_app. simpl. apply NoDup_snoc; [assumption|].
    intros Hin. apply in_map_iff in Hin as (t & E & Ht).
    apply Hfresh in Ht. lia.
  - intros t Ht. apply in_app_or in Ht as [Ht|[<-|[]]].
    + apply Hfresh in Ht. lia.
    + simpl. lia.
  - exact Hkeys.
  - intros a eps ep Hg Hep.
    destruct (Hown a eps ep Hg Hep) as (t & Ht & H).
    exists t. split; [apply in_or_app; now left | exact H].
Qed.

Lemma wf_services_remove : forall name version nodeID r,
  registry_wf r -> registry_wf (services_remove name version nodeID r).
Proof.
  intros name version nodeID r Hwf. unfold services_remove.
  destruct (services_get name version nodeID (services r)) as [s|];
    [|assumption].
  destruct Hwf as [Hget Hsids Hfresh Hkeys Hown]. constructor; simpl.
  - intros t Ht. apply filter_In in Ht as [Ht Hq].
    unfold services_get. apply find_filter_Some; [|assumption].
    now apply Hget.
  - now apply NoDup_map_filter.
  - intros t Ht. apply filter_In in Ht as [Ht _]. now apply Hfresh.
  - unfold actions_removeByService, obj_keys. rewrite map_map. exact Hkeys.
  - intros a eps ep Hg Hep. rewrite actions_get_removeByService in Hg.
    destruct (actions_get a (actions r)) as [eps0|] eqn:G; [|discriminate].
    injection Hg as <-. apply filter_In in Hep as [Hep Hs].
    destruct (Hown a eps0 ep G Hep) as (t & Ht & E1 & E2 & Hk).
    exists t. repeat split; auto. apply filter_In. split; [assumption|].
    now rewrite E1.
Qed.

Lemma has_item_registerAction : forall node service r kv k n,
  (exists t, In t (services r) /\ sid t = k /\ service_node t = n) ->
  exists t, In t (services (registerAction node service r kv)) /\
            sid t = k /\ service_node t = n.
Proof.
  intros node service r kv k n (t & Ht & Hs & Hn).
  pose proof (grows_on_service service (grows_addAction (snd kv))) as Hg.
  eexists. split; [simpl; unfold on_service; apply in_map, Ht|].
  destruct (Hg t) as (-> & _ & _ & -> & _). auto.
Qed.

Lemma wf_registerActions : forall node service acts r,
  registry_wf r ->
  (exists t, In t (services r) /\ sid t = service /\ service_node t = node) ->
  registry_wf (registerActions node service acts r).
Proof.
  unfold registerActions. induction acts as [|kv acts IH]; simpl; intros r Hwf Hit.
  - assumption.
  - apply IH.
    + now apply wf_registerAction.
    + now apply has_item_registerAction.
Qed.

Lemma wf_fold_removeOldAction : forall node svc prev r,
  registry_wf r -> registry_wf (fold_left (removeOldAction node svc) prev r).
Proof.
  induction prev as [|kv prev IH]; simpl; intros r Hwf; [assumption|].
  apply IH. unfold removeOldAction.
  destruct (js_falsy_at (fst kv) (svc_actions svc)); [|assumption].
  now apply wf_unregisterAction.
Qed.

Lemma services_get_some : forall name version nodeID ss t,
  services_get name version nodeID ss = Some t ->
  In t ss /\ service_name t = name /\ service_version t = version /\
  service_node t = nodeID.
Proof.
  intros name version nodeID ss t H. apply find_some in H as [Hin H].
  apply andb_true_iff in H as [H Hn]. apply andb_true_iff in H as [H1 H2].
  apply String.eqb_eq in H1, Hn. apply jsval_eqb_eq in H2. auto.
Qed.

Lemma wf_registerService : forall node svc r,
  registry_wf r -> registry_wf (registerService node r svc).
Proof.
  intros node svc r Hwf. unfold registerService.
  destruct (services_get (svc_name svc) (svc_version svc) node (services r))
    as [s|] eqn:G.
  - apply wf_fold_removeOldAction.
    apply services_get_some in G as (Hin & _ & _ & Hn).
    pose proof (grows_on_service (sid s) (grows_update svc)) as Hg.
    apply wf_registerActions.
    + unfold set_services, on_service.
      apply (wf_update (r := r)); auto; [apply Hwf | eauto].
    + eexists. split; [simpl; unfold on_service; apply in_map, Hin|].
      destruct (Hg s) as (-> & _ & _ & -> & _). auto.
  - pose proof (wf_services_add node (svc_name svc) (svc_version svc)
                  (svc_settings svc) Hwf G) as Hwf1.
    unfold services_add in *. simpl in *.
    apply wf_registerActions; [exact Hwf1|].
    eexists. split; [simpl; apply in_or_app; right; left; reflexivity|].
    simpl. auto.
Qed.

Lemma wf_fold_registerService : forall node L r,
  registry_wf r -> registry_wf (fold_left (registerService node) L r).
Proof.
  induction L as [|svc L IH]; simpl; intros r Hwf; [assumption|].
  now apply IH, wf_registerService.
Qed.

(** ** The second loop of [registerServices]

    The walk visits whatever item is at the index when it gets there, so a
    property of the registry that every callback keeps is kept by the
    loop. *)
Lemma live_loop_ind : forall (P : Registry -> Prop) node L,
  (forall r t, P r -> In t (services r) -> P (removeOldService node L r t)) ->
  forall idx r, P r -> P (fold_left (removeOldServiceAt node L) idx r).
Proof.
  intros P node L Hstep. induction idx as [|i idx IH]; simpl; intros r HP;
    [assumption|].
  apply IH. unfold removeOldServiceAt.
  destruct (nth_error (services r) i) as [t|] eqn:E; [|assumption].
  apply Hstep; [assumption|]. eapply nth_error_In, E.
Qed.

Lemma wf_removeOldService : forall node L r t,
  registry_wf r -> registry_wf (removeOldService node L r t).
Proof.
  intros node L r t Hwf. unfold removeOldService.
  destruct (negb (String.eqb (service_node t) node)); [assumption|].
  destruct (existsb _ L); [assumption|].
  apply wf_services_remove, Hwf.
Qed.

(** When the callback keeps every item, the loop changes nothing. *)
Lemma fold_removeOldService_kept : forall node L idx r,
  (forall t, In t (services r) -> keptService node L t = true) ->
  fold_left (removeOldServiceAt node L) idx r = r.
Proof.
  intros node L. induction idx as [|i idx IH]; simpl; intros r Hkept;
    [reflexivity|].
  assert (E : removeOldServiceAt node L r i = r).
  { unfold removeOldServiceAt.
    destruct (nth_error (services r) i) as [t|] eqn:N; [|reflexivity].
    apply nth_error_In in N. specialize (Hkept t N).
    unfold keptService in Hkept. unfold removeOldService.
    destruct (negb (String.eqb (service_node t) node)); [reflexivity|].
    simpl in Hkept. now rewrite Hkept. }
  rewrite E. now apply IH.
Qed.

Lemma wf_registerServices : forall node L r,
  registry_wf r -> registry_wf (registerServices node L r).
Proof.
  intros node L r Hwf. unfold registerServices.
  apply (@live_loop_ind registry_wf node L).
  - intros x t Hx _. now apply wf_removeOldService.
  - now apply wf_fold_registerService.
Qed.

(** ** The first loop of [registerServices], catalog by catalog *)

Lemma registerActions_eq : forall node service acts r,
  registerActions node service acts r =
  mkRegistry (broker_nodeID r) (nodes r) (addActions service acts (services r))
             (next_sid r) (addEndpoints node service acts (actions r))
             (broker_calls r) (events r).
Proof.
  unfold registerActions, addActions, addEndpoints.
  induction acts as [|kv acts IH]; simpl; intros r.
  - now destruct r.
  - rewrite IH. reflexivity.
Qed.

Lemma fold_removeOldAction_eq : forall node svc prev r,
  fold_left (removeOldAction node svc) prev r =
  set_actions (removeEndpoints node (oldActions svc prev) (actions r)) r.
Proof.
  unfold oldActions, removeEndpoints.
  induction prev as [|kv prev IH]; simpl; intros r.
  - now destruct r.
  - rewrite IH. unfold removeOldAction.
    destruct (js_falsy_at (fst kv) (svc_actions svc)); reflexivity.
Qed.

Lemma registerService_eq : forall node r svc,
  registerService node r svc =
  match services_get (svc_name svc) (svc_version svc) node (services r) with
  | None =>
      mkRegistry (broker_nodeID r) (nodes r)
        (addActions (next_sid r) (svc_actions svc)
           (services r ++ [mkService (next_sid r) node (svc_name svc)
                             (svc_version svc) (svc_settings svc) []]))
        (S (next_sid r))
        (addEndpoints node (next_sid r) (svc_actions svc) (actions r))
        (broker_calls r) (events r)
  | Some s =>
      mkRegistry (broker_nodeID r) (nodes r)
        (addActions (sid s) (svc_actions svc)
           (on_service (sid s) (update svc) (services r)))
        (next_sid r)
        (removeEndpoints node (oldActions svc (service_actions s))
           (addEndpoints node (sid s) (svc_actions svc) (actions r)))
        (broker_calls r) (events r)
  end.
Proof.
  intros node r svc. unfold registerService.
  destruct (services_get _ _ _ _) as [s|].
  - rewrite fold_removeOldAction_eq, registerActions_eq. reflexivity.
  - unfold services_add. rewrite registerActions_eq. reflexivity.
Qed.

Lemma addEndpoints_In : forall node service acts A a eps ep,
  actions_get a (addEndpoints node service acts A) = Some eps -> In ep eps ->
  (exists kv, In kv acts /\ action_name (snd kv) = a /\ ep_node ep = node) \/
  (exists eps0, actions_get a A = Some eps0 /\ In ep eps0).
Proof.
  unfold addEndpoints. induction acts as [|kv acts IH]; simpl; intros A a eps ep Hg Hep.
  - right. eauto.
  - destruct (IH _ _ _ _ Hg Hep) as [(kv' & Hin & H)|(eps0 & H0 & Hep0)].
    + left. exists kv'. auto.
    + rewrite actions_get_add in H0.
      destruct (String.eqb_spec a (action_name (snd kv))) as [->|Hne].
      * injection H0 as <-.
        apply In_EndpointList_add in Hep0 as [[Hep0 Hn]|(Hn & _ & _)].
        -- right. destruct (actions_get (action_name (snd kv)) A) as [e|];
             [eauto | destruct Hep0].
        -- left. exists kv. auto.
      * right. eauto.
Qed.

Lemma removeByNodeID_idem : forall nodeID eps,
  removeByNodeID nodeID (removeByNodeID nodeID eps) = removeByNodeID nodeID eps.
Proof.
  intros nodeID eps. unfold removeByNodeID.
  induction eps as [|ep eps IH]; simpl; [reflexivity|].
  destruct (negb (String.eqb (ep_node ep) nodeID)) eqn:E; simpl.
  - rewrite E. now f_equal.
  - exact IH.
Qed.

Lemma removeEndpoints_get : forall node names A a,
  actions_get a (removeEndpoints node names A) =
  if existsb (String.eqb a) names
  then option_map (removeByNodeID node) (actions_get a A)
  else actions_get a A.
Proof.
  unfold removeEndpoints. induction names as [|k names IH]; simpl; intros A a.
  - reflexivity.
  - rewrite IH, actions_get_remove.
    destruct (String.eqb_spec a k) as [->|Hne]; simpl.
    + destruct (existsb (String.eqb k) names); [|reflexivity].
      destruct (actions_get k A); simpl; [|reflexivity].
      now rewrite removeByNodeID_idem.
    + reflexivity.
Qed.

Lemma grows_compose : forall g1 g2, grows g1 -> grows g2 ->
  grows (fun s => g2 (g1 s)).
Proof.
  intros g1 g2 H1 H2 s.
  destruct (H1 s) as (E1 & E2 & E3 & E4 & I1).
  destruct (H2 (g1 s)) as (F1 & F2 & F3 & F4 & I2).
  repeat split; try congruence.
  intros k Hk. apply I2, I1, Hk.
Qed.

Lemma grows_addActionsTo : forall acts, grows (addActionsTo acts).
Proof.
  unfold addActionsTo. induction acts as [|kv acts IH]; simpl.
  - intros s. repeat split; auto. apply incl_refl.
  - apply (grows_compose (grows_addAction (snd kv)) IH).
Qed.

Lemma grows_applySchema : forall svc, grows (applySchema svc).
Proof.
  intros svc. unfold applySchema.
  apply (grows_compose (grows_update svc) (grows_addActionsTo _)).
Qed.

Lemma on_service_compose : forall k f1 f2 ss,
  (forall s, sid (f1 s) = sid s) ->
  on_service k f2 (on_service k f1 ss) = on_service k (fun s => f2 (f1 s)) ss.
Proof.
  intros k f1 f2 ss H1. unfold on_service. rewrite map_map.
  apply map_ext. intros s.
  destruct (Nat.eqb (sid s) k) eqn:E; [|now rewrite E].
  now rewrite H1, E.
Qed.

Lemma on_service_id : forall k ss, on_service k (fun s => s) ss = ss.
Proof.
  intros k ss. unfold on_service. rewrite <- (map_id ss) at 2.
  apply map_ext. intros s. now destruct (Nat.eqb (sid s) k).
Qed.

Lemma addActions_eq : forall k acts ss,
  addActions k acts ss = on_service k (addActionsTo acts) ss.
Proof.
  unfold addActions, addActionsTo.
  induction acts as [|kv acts IH]; simpl; intros ss.
  - now rewrite on_service_id.
  - rewrite IH, on_service_compose; [reflexivity|].
    intros s. reflexivity.
Qed.

Lemma on_service_fresh : forall k f ss,
  (forall s, In s ss -> sid s <> k) -> on_service k f ss = ss.
Proof.
  intros k f ss H. unfold on_service. rewrite <- (map_id ss) at 2.
  apply map_ext_in. intros s Hs.
  destruct (Nat.eqb_spec (sid s) k) as [E|E]; [|reflexivity].
  exfalso. exact (H s Hs E).
Qed.

Lemma services_registerService : forall node r svc,
  registry_wf r ->
  services (registerService node r svc) =
  match services_get (svc_name svc) (svc_version svc) node (services r) with
  | Some s => on_service (sid s) (applySchema svc) (services r)
  | None => services r ++ [applySchema svc (newService node svc (next_sid r))]
  end.
Proof.
  intros node r svc Hwf. rewrite registerService_eq.
  destruct (services_get _ _ _ _) as [s|]; simpl.
  - rewrite addActions_eq, on_service_compose; [reflexivity|].
    intros x. reflexivity.
  - rewrite addActions_eq. unfold on_service. rewrite map_app. simpl.
    rewrite Nat.eqb_refl. f_equal.
    apply on_service_fresh.
    intros s Hs E. apply (wf_fresh Hwf) in Hs. lia.
Qed.

Lemma oldActions_In : forall svc prev a,
  In a (obj_keys prev) -> js_falsy_at a (svc_actions svc) = true ->
  existsb (String.eqb a) (oldActions svc prev) = true.
Proof.
  intros svc prev a Hin Hnone. apply existsb_exists. exists a.
  split; [|apply String.eqb_refl].
  unfold oldActions. apply in_map_iff in Hin as (kv & E & Hkv).
  apply in_map_iff. exists kv. split; [assumption|].
  apply filter_In. split; [assumption|]. now rewrite E, Hnone.
Qed.

Lemma registerService_In : forall node r svc a eps ep,
  actions_get a (actions (registerService node r svc)) = Some eps ->
  In ep eps ->
  (exists kv, In kv (svc_actions svc) /\ action_name (snd kv) = a /\
              ep_node ep = node) \/
  (exists eps0, actions_get a (actions r) = Some eps0 /\ In ep eps0).
Proof.
  intros node r svc a eps ep Hg Hep. rewrite registerService_eq in Hg.
  destruct (services_get _ _ _ _) as [s|]; simpl in Hg.
  - rewrite removeEndpoints_get in Hg.
    destruct (existsb (String.eqb a) (oldActions svc (service_actions s))).
    + destruct (actions_get a (addEndpoints _ _ _ _)) as [e|] eqn:G;
        [|discriminate].
      injection Hg as <-. apply filter_In in Hep as [Hep _].
      destruct (addEndpoints_In _ _ _ _ _ _ G Hep) as [(kv & H1 & H2 & H3)|H];
        [left; eauto | right; exact H].
    + destruct (addEndpoints_In _ _ _ _ _ _ Hg Hep) as [(kv & H1 & H2 & H3)|H];
        [left; eauto | right; exact H].
  - destruct (addEndpoints_In _ _ _ _ _ _ Hg Hep) as [(kv & H1 & H2 & H3)|H];
      [left; eauto | right; exact H].
Qed.

Lemma registerService_removes : forall node r svc s a eps ep,
  services_get (svc_name svc) (svc_version svc) node (services r) = Some s ->
  In a (obj_keys (service_actions s)) ->
  js_falsy_at a (svc_actions svc) = true ->
  actions_get a (actions (registerService node r svc)) = Some eps ->
  In ep eps -> ep_node ep <> node.
Proof.
  intros node r svc s a eps ep G Hk Hnone Hg Hep.
  rewrite registerService_eq, G in Hg. simpl in Hg.
  rewrite removeEndpoints_get, oldActions_In in Hg by assumption.
  destruct (actions_get a (addEndpoints _ _ _ _)) as [e|]; [|discriminate].
  injection Hg as <-. apply filter_In in Hep as [_ Hep].
  apply negb_true_iff in Hep. now apply String.eqb_neq in Hep.
Qed.

Lemma removeServices_get : forall gone A a eps ep,
  actions_get a (removeServices gone A) = Some eps -> In ep eps ->
  exists eps0, actions_get a A = Some eps0 /\ In ep eps0 /\
               forall s, In s gone -> ep_service ep <> sid s.
Proof.
  unfold removeServices.
  induction gone as [|s gone IH]; simpl; intros A a eps ep Hg Hep.
  - exists eps. auto.
  - destruct (IH _ _ _ _ Hg Hep) as (eps1 & H1 & Hep1 & Hgone).
    rewrite actions_get_removeByService in H1.
    destruct (actions_get a A) as [eps0|]; [|discriminate].
    injection H1 as <-. apply filter_In in Hep1 as [Hep0 Hs].
    apply negb_true_iff, Nat.eqb_neq in Hs.
    exists eps0. repeat split; auto.
    intros s' [<-|Hin]; [assumption | now apply Hgone].
Qed.

(** ** Reconcile removal *)

(** C1.  Reconcile removal fails when the walk over the service array skips
    an item: node-1 has the services posts and users; it announces
    [L1 = [search]], then [L2 = L1 \ {search} = []].  The first call removes
    posts and steps over users, the second removes users and steps over
    search: the service search is still in the catalog for node-1, and the
    action posts.get, which only search provided, still has its endpoint on
    node-1. *)
Theorem registerServices_reconcile_removal_skips :
  let L1 := [search_schema] in
  let L2 := without search_schema L1 in
  let r1 := registerServices "node-1" L1 two_services_registry in
  let r2 := registerServices "node-1" L2 r1 in
  L2 = [] /\
  map service_name (services two_services_registry) = ["posts"; "users"] /\
  map service_name (services r1) = ["users"; "search"] /\
  map service_name (services r2) = ["search"] /\
  (exists t, services_get (svc_name search_schema) (svc_version search_schema)
                          "node-1" (services r2) = Some t) /\
  (exists ep, getActionEndpointByNodeId "posts.get" "node-1" r2 = Some ep /\
              ep_node ep = "node-1").
Proof.
  cbv zeta. repeat split; try (vm_compute; reflexivity).
  - eexists. vm_compute. reflexivity.
  - eexists. split; vm_compute; reflexivity.
Qed.

(** ** Actions that an updated descriptor omits *)

Lemma no_endpoint_iff : forall a node r,
  no_endpoint a node r <-> getActionEndpointByNodeId a node r = None.
Proof.
  intros a node r. unfold no_endpoint, getActionEndpointByNodeId. split.
  - intros H. destruct (actions_get a (actions r)) as [eps|]; [|reflexivity].
    unfold getEndpointByNodeID.
    destruct (find _ eps) as [ep|] eqn:F; [|reflexivity].
    apply find_some in F as [Hep Hn]. apply String.eqb_eq in Hn.
    exfalso. exact (H eps ep eq_refl Hep Hn).
  - intros H eps ep Hg Hep Hn. rewrite Hg in H.
    apply (find_none _ _ H) in Hep. rewrite Hn, String.eqb_refl in Hep.
    discriminate.
Qed.

Lemma stored_step : forall node r svc' name version a,
  (exists s, services_get name version node (services r) = Some s /\
             In a (obj_keys (service_actions s))) ->
  exists s, services_get name version node
              (services (registerService node r svc')) = Some s /\
            In a (obj_keys (service_actions s)).
Proof.
  intros node r svc' name version a (s & G & Hk).
  rewrite registerService_eq.
  destruct (services_get (svc_name svc') _ _ _) as [s'|]; simpl;
    rewrite addActions_eq; unfold on_service.
  - pose proof (grows_on_service (sid s') (grows_addActionsTo (svc_actions svc')))
      as Hg2.
    pose proof (grows_on_service (sid s') (grows_update svc')) as Hg1.
    rewrite services_get_map by exact Hg2.
    rewrite services_get_map by exact Hg1.
    rewrite G. simpl. eexists. split; [reflexivity|].
    now apply (Hg2 _), (Hg1 s).
  - pose proof (grows_on_service (next_sid r)
                  (grows_addActionsTo (svc_actions svc'))) as Hg.
    rewrite services_get_map by exact Hg.
    unfold services_get in *. rewrite find_app, G. simpl.
    eexists. split; [reflexivity|]. now apply (Hg s).
Qed.

Lemma stored_fold : forall node pre r name version a,
  (exists s, services_get name version node (services r) = Some s /\
             In a (obj_keys (service_actions s))) ->
  exists s, services_get name version node
              (services (fold_left (registerService node) pre r)) = Some s /\
            In a (obj_keys (service_actions s)).
Proof.
  induction pre as [|svc' pre IH]; simpl; intros r name version a H.
  - exact H.
  - apply IH. now apply stored_step.
Qed.

Lemma no_endpoint_registerService : forall node r svc' a,
  declares svc' a = false -> no_endpoint a node r ->
  no_endpoint a node (registerService node r svc').
Proof.
  intros node r svc' a Hd Hno eps ep Hg Hep.
  destruct (@registerService_In node r svc' a eps ep Hg Hep)
    as [(kv & Hkv & Ha & _)|(eps0 & H0 & Hep0)].
  - exfalso. assert (declares svc' a = true) as D; [|congruence].
    apply existsb_exists. exists kv. split; [assumption|].
    now apply String.eqb_eq.
  - exact (Hno eps0 ep H0 Hep0).
Qed.

Lemma no_endpoint_fold_registerService : forall node post r a,
  forallb (fun svc' => negb (declares svc' a)) post = true ->
  no_endpoint a node r ->
  no_endpoint a node (fold_left (registerService node) post r).
Proof.
  induction post as [|svc' post IH]; simpl; intros r a H Hno; [assumption|].
  apply andb_true_iff in H as [H1 H2]. apply negb_true_iff in H1.
  apply IH; [assumption | now apply no_endpoint_registerService].
Qed.

Lemma no_endpoint_removeOldService : forall node L r t a,
  no_endpoint a node r -> no_endpoint a node (removeOldService node L r t).
Proof.
  intros node L r t a Hno. unfold removeOldService.
  destruct (negb (String.eqb (service_node t) node)); [assumption|].
  destruct (existsb _ L); [assumption|].
  unfold unregisterService, services_remove.
  destruct (services_get _ _ _ _) as [s|]; [|assumption].
  intros eps ep Hg Hep. simpl in Hg.
  rewrite actions_get_removeByService in Hg.
  destruct (actions_get a (actions r)) as [eps0|] eqn:G; [|discriminate].
  injection Hg as <-. apply filter_In in Hep as [Hep _].
  exact (Hno eps0 ep G Hep).
Qed.

Lemma js_falsy_at_true : forall A a (o : JsObj A),
  obj_get a o = None -> ~ In a Object_prototype -> js_falsy_at a o = true.
Proof.
  intros A a o Hnone Hp. unfold js_falsy_at. rewrite Hnone.
  apply negb_true_iff.
  destruct (existsb (String.eqb a) Object_prototype) eqn:E; [|reflexivity].
  apply existsb_exists in E as (x & Hx & E). apply String.eqb_eq in E.
  subst x. contradiction.
Qed.

(** C6 (as amended): when the list holds a descriptor for a service stored
    for the node, an action name that the stored service has and the
    descriptor omits has no endpoint on the node after [registerServices],
    provided the name is not one that every object inherits from
    [Object.prototype] and no descriptor later in the list declares an
    action of that name. *)
Theorem registerServices_drops_omitted : forall node pre svc post r s a,
  services_get (svc_name svc) (svc_version svc) node (services r) = Some s ->
  In a (obj_keys (service_actions s)) ->
  obj_get a (svc_actions svc) = None ->
  ~ In a Object_prototype ->
  forallb (fun svc' => negb (declares svc' a)) post = true ->
  getActionEndpointByNodeId a node
    (registerServices node (pre ++ svc :: post) r) = None.
Proof.
  intros node pre svc post r s a G Hk Hnone Hproto Hpost.
  apply no_endpoint_iff.
  unfold registerServices.
  apply (@live_loop_ind (no_endpoint a node) node (pre ++ svc :: post)).
  { intros x t Hx _. now apply no_endpoint_removeOldService. }
  rewrite fold_left_app. simpl.
  apply no_endpoint_fold_registerService; [assumption|].
  destruct (@stored_fold node pre r (svc_name svc) (svc_version svc) a)
    as (s1 & G1 & Hk1); [eauto|].
  intros eps ep Hg Hep.
  pose proof (@js_falsy_at_true _ a (svc_actions svc) Hnone Hproto) as Hf.
  exact (@registerService_removes node _ svc s1 a eps ep G1 Hk1 Hf Hg Hep).
Qed.

Lemma registerServices_drops_omitted_witness :
  (exists s, services_get "posts" (JNum 2) "node-1" (services sample_cluster)
               = Some s /\
             In "posts.get" (obj_keys (service_actions s))) /\
  getActionEndpointByNodeId "posts.get" "node-1" sample_cluster <> None /\
  getActionEndpointByNodeId "posts.get" "node-1"
    (registerServices "node-1" ([users_schema] ++ posts_v2_without_get :: [])
                      sample_cluster) = None.
Proof.
  split; [eexists; split; [reflexivity | simpl; auto]|].
  split; [vm_compute; discriminate|].
  eapply (@registerServices_drops_omitted "node-1" [users_schema]
            posts_v2_without_get [] sample_cluster).
  - reflexivity.
  - simpl. right. left. reflexivity.
  - reflexivity.
  - simpl. intros H.
    repeat (destruct H as [H|H]; [discriminate H|]). exact H.
  - reflexivity.
Defined.

(** C6 (as stated) fails when another descriptor of the same list provides
    the omitted name: the endpoint is unregistered and registered again. *)
Lemma registerServices_omitted_registered_again :
  (exists s, services_get "posts" (JNum 2) "node-1" (services sample_cluster)
               = Some s /\
             In "posts.get" (obj_keys (service_actions s))) /\
  obj_get "posts.get" (svc_actions posts_v2_without_get) = None /\
  getActionEndpointByNodeId "posts.get" "node-1"
    (registerServices "node-1" [posts_v2_without_get; search_schema]
                      sample_cluster) <> None.
Proof.
  split; [eexists; split; [reflexivity | simpl; auto]|].
  split; [reflexivity|]. vm_compute. discriminate.
Qed.

(** ** Uniqueness of catalog entries *)

(** C7 (the defect): [registerLocalService] adds a service item without
    looking for an existing one, so registering the same local service
    twice leaves two entries with the same (name, version, nodeId). *)
Theorem registerLocalService_twice_duplicates :
  let r := registerLocalService sample_local_schema
             (registerLocalService sample_local_schema
                (Registry_new "node-local")) in
  List.length
    (filter (fun t => equals t "math" JUndefined &&
                      String.eqb (service_node t) "node-local")
            (services r)) = 2 /\
  registry_wfb (Registry_new "node-local") = true /\
  registry_wfb r = false.
Proof. vm_compute. auto. Qed.

(** ** Reconciling twice: the service catalog *)

Lemma registerService_fields : forall node r svc,
  broker_nodeID (registerService node r svc) = broker_nodeID r /\
  nodes (registerService node r svc) = nodes r /\
  broker_calls (registerService node r svc) = broker_calls r.
Proof.
  intros node r svc. rewrite registerService_eq.
  destruct (services_get _ _ _ _); simpl; auto.
Qed.

Lemma next_sid_registerService : forall node r svc,
  next_sid (registerService node r svc) =
  match services_get (svc_name svc) (svc_version svc) node (services r) with
  | Some _ => next_sid r
  | None => S (next_sid r)
  end.
Proof.
  intros node r svc. rewrite registerService_eq.
  destruct (services_get _ _ _ _); reflexivity.
Qed.

Lemma actions_registerService : forall node r svc,
  actions (registerService node r svc) =
  run_step node (actions r) (step_of node r svc).
Proof.
  intros node r svc. rewrite registerService_eq. unfold step_of, run_step.
  destruct (services_get _ _ _ _); reflexivity.
Qed.

Lemma actions_fold_registerService : forall node L r,
  actions (fold_left (registerService node) L r) =
  run_plan node (plan_of node L r) (actions r).
Proof.
  unfold run_plan. induction L as [|svc L IH]; simpl; intros r; [reflexivity|].
  now rewrite IH, actions_registerService.
Qed.

Lemma step_of_ext : forall node r r' svc,
  services r = services r' -> next_sid r = next_sid r' ->
  step_of node r svc = step_of node r' svc.
Proof.
  intros node r r' svc Hs Hn. unfold step_of. now rewrite Hs, Hn.
Qed.

Lemma step_of_get : forall node r r' svc t,
  services_get (svc_name svc) (svc_version svc) node (services r) = Some t ->
  services_get (svc_name svc) (svc_version svc) node (services r') = Some t ->
  step_of node r svc = step_of node r' svc.
Proof.
  intros node r r' svc t H H'. unfold step_of. now rewrite H, H'.
Qed.

Lemma on_service_fixed : forall ss t f,
  NoDup (map sid ss) -> In t ss -> f t = t ->
  on_service (sid t) f ss = ss.
Proof.
  intros ss t f Hnd Ht Hf. unfold on_service.
  rewrite <- (map_id ss) at 2. apply map_ext_in. intros x Hx.
  destruct (Nat.eqb_spec (sid x) (sid t)) as [E|E]; [|reflexivity].
  assert (x = t) as -> by (now apply (NoDup_map_inj sid ss)).
  exact Hf.
Qed.

Lemma settled_step : forall node r svc,
  registry_wf r -> settled node svc r ->
  services (registerService node r svc) = services r /\
  next_sid (registerService node r svc) = next_sid r.
Proof.
  intros node r svc Hwf (t & G & Hfix).
  rewrite services_registerService, next_sid_registerService by assumption.
  rewrite G. split; [|reflexivity].
  apply on_service_fixed; [apply Hwf | | assumption].
  now apply services_get_some in G.
Qed.

Lemma addActionsTo_eq : forall acts s,
  addActionsTo acts s =
  mkService (sid s) (service_node s) (service_name s) (service_version s)
            (service_settings s) (setAll acts (service_actions s)).
Proof.
  unfold addActionsTo, setAll. induction acts as [|kv acts IH]; simpl; intros s.
  - now destruct s.
  - rewrite IH. reflexivity.
Qed.

Lemma applySchema_eq : forall svc s,
  applySchema svc s =
  mkService (sid s) (service_node s) (service_name s) (service_version s)
            (svc_settings svc) (setAll (svc_actions svc) (service_actions s)).
Proof. intros svc s. unfold applySchema. now rewrite addActionsTo_eq. Qed.

Lemma obj_set_same : forall A k (v : A) o,
  obj_get k o = Some v -> obj_set k v o = o.
Proof.
  induction o as [|[k' v'] o IH]; simpl; intros H; [discriminate|].
  destruct (String.eqb k k'); [now injection H as -> | now rewrite IH].
Qed.

Lemma setAll_get_other : forall acts o k,
  ~ In k (map (fun kv => action_name (snd kv)) acts) ->
  obj_get k (setAll acts o) = obj_get k o.
Proof.
  unfold setAll. induction acts as [|kv acts IH]; simpl; intros o k H.
  - reflexivity.
  - rewrite IH by tauto. apply obj_get_set_other. intros E. apply H. now left.
Qed.

Lemma setAll_get : forall acts o kv,
  NoDup (map (fun kv => action_name (snd kv)) acts) -> In kv acts ->
  obj_get (action_name (snd kv)) (setAll acts o) = Some (snd kv).
Proof.
  induction acts as [|kv0 acts IH]; intros o kv Hnd Hin; [destruct Hin|].
  inversion Hnd as [|? ? Hn Hnd']; subst.
  destruct Hin as [->|Hin].
  - change (setAll (kv :: acts) o)
      with (setAll acts (obj_set (action_name (snd kv)) (snd kv) o)).
    rewrite setAll_get_other by assumption. apply obj_get_set_same.
  - change (setAll (kv0 :: acts) o)
      with (setAll acts (obj_set (action_name (snd kv0)) (snd kv0) o)).
    now apply IH.
Qed.

Lemma setAll_fixed : forall acts o,
  (forall kv, In kv acts -> obj_get (action_name (snd kv)) o = Some (snd kv)) ->
  setAll acts o = o.
Proof.
  unfold setAll. induction acts as [|kv acts IH]; simpl; intros o H.
  - reflexivity.
  - rewrite obj_set_same by (apply H; now left).
    apply IH. intros kv' Hin. apply H. now right.
Qed.

Lemma setAll_idem : forall acts o,
  NoDup (map (fun kv => action_name (snd kv)) acts) ->
  setAll acts (setAll acts o) = setAll acts o.
Proof.
  intros acts o Hnd. apply setAll_fixed. intros kv Hin.
  now apply setAll_get.
Qed.

Lemma schema_wf_names : forall svc,
  schema_wf svc = true ->
  (forall kv, In kv (svc_actions svc) -> fst kv = action_name (snd kv)) /\
  NoDup (map (fun kv => action_name (snd kv)) (svc_actions svc)).
Proof.
  intros svc H. unfold schema_wf in H. apply andb_true_iff in H as [H1 H2].
  rewrite forallb_forall in H1.
  assert (forall kv, In kv (svc_actions svc) -> fst kv = action_name (snd kv))
    as Hk by (intros kv Hin; now apply String.eqb_eq, H1).
  split; [exact Hk|].
  apply (nodupb_NoDup String.eqb) in H2; [|apply String.eqb_refl].
  unfold obj_keys in H2. erewrite map_ext_in; [exact H2|].
  intros kv Hin. symmetry. now apply Hk.
Qed.

Lemma applySchema_idem : forall svc s,
  schema_wf svc = true ->
  applySchema svc (applySchema svc s) = applySchema svc s.
Proof.
  intros svc s Hwf. rewrite !applySchema_eq. simpl. f_equal.
  apply setAll_idem. now apply schema_wf_names.
Qed.

Lemma oldActions_set : forall svc k v o x,
  obj_get k (svc_actions svc) = Some x ->
  oldActions svc (obj_set k v o) = oldActions svc o.
Proof.
  intros svc k v o x Hk. unfold oldActions.
  assert (Hf : js_falsy_at k (svc_actions svc) = false)
    by (unfold js_falsy_at; now rewrite Hk).
  induction o as [|[k' v'] o IH]; simpl.
  - now rewrite Hf.
  - destruct (String.eqb_spec k k') as [->|Hne]; simpl.
    + now rewrite Hf.
    + destruct (js_falsy_at k' (svc_actions svc)); simpl; now rewrite IH.
Qed.

Lemma oldActions_setAll : forall svc o,
  schema_wf svc = true ->
  oldActions svc (setAll (svc_actions svc) o) = oldActions svc o.
Proof.
  intros svc o Hwf. destruct (schema_wf_names svc Hwf) as [Hk _].
  assert (forall acts o,
            (forall kv, In kv acts -> In kv (svc_actions svc)) ->
            oldActions svc (setAll acts o) = oldActions svc o) as H.
  { unfold setAll. induction acts as [|kv acts IH]; simpl; intros o' Hsub.
    - reflexivity.
    - rewrite IH by (intros kv' Hin; apply Hsub; now right).
      destruct (obj_get (action_name (snd kv)) (svc_actions svc)) as [x|] eqn:G.
      + now apply (@oldActions_set svc _ _ _ x).
      + exfalso. apply obj_get_None in G. apply G.
        rewrite <- (Hk kv) by (apply Hsub; now left).
        apply in_map. apply Hsub. now left. }
  apply H. auto.
Qed.

Lemma registerService_settles : forall node r svc,
  registry_wf r -> schema_wf svc = true ->
  settled node svc (registerService node r svc) /\
  step_of node (registerService node r svc) svc = step_of node r svc.
Proof.
  intros node r svc Hwf Hsch. unfold settled, step_of.
  rewrite services_registerService, next_sid_registerService by assumption.
  destruct (services_get (svc_name svc) (svc_version svc) node (services r))
    as [t|] eqn:G.
  - pose proof (grows_on_service (sid t) (grows_applySchema svc)) as Hg.
    unfold on_service. rewrite services_get_map by assumption.
    rewrite G. simpl. rewrite Nat.eqb_refl. split.
    + eexists. split; [reflexivity | now apply applySchema_idem].
    + rewrite applySchema_eq. simpl. now rewrite oldActions_setAll.
  - assert (services_get (svc_name svc) (svc_version svc) node
              (services r ++ [applySchema svc (newService node svc (next_sid r))])
            = Some (applySchema svc (newService node svc (next_sid r)))) as G'.
    { unfold services_get in *. rewrite find_app, G. simpl.
      rewrite applySchema_eq. unfold equals. simpl.
      now rewrite !String.eqb_refl, jsval_eqb_refl. }
    rewrite G'. split.
    + eexists. split; [reflexivity | now apply applySchema_idem].
    + rewrite applySchema_eq. simpl. now rewrite oldActions_setAll.
Qed.

(** A descriptor of another service leaves the item of [svc] alone. *)
Lemma services_get_frame : forall node r svc svc',
  registry_wf r -> same_service svc svc' = false ->
  services_get (svc_name svc) (svc_version svc) node
    (services (registerService node r svc')) =
  services_get (svc_name svc) (svc_version svc) node (services r).
Proof.
  intros node r svc svc' Hwf Hdiff.
  rewrite services_registerService by assumption.
  destruct (services_get (svc_name svc') (svc_version svc') node (services r))
    as [s'|] eqn:G'.
  - pose proof (grows_on_service (sid s') (grows_applySchema svc')) as Hg.
    unfold on_service. rewrite services_get_map by assumption.
    destruct (services_get (svc_name svc) _ _ _) as [t|] eqn:G; [|reflexivity].
    simpl. destruct (Nat.eqb_spec (sid t) (sid s')) as [E|E]; [|reflexivity].
    exfalso. apply services_get_some in G as (Ht & N & V & _).
    apply services_get_some in G' as (Hs' & N' & V' & _).
    assert (t = s') as -> by (apply (NoDup_map_inj sid (services r));
                              auto; apply Hwf).
    assert (same_service svc svc' = true) as Habs; [|congruence].
    unfold same_service.
    now rewrite <- N, <- V, N', V', String.eqb_refl, jsval_eqb_refl.
  - unfold services_get. rewrite find_app.
    destruct (find _ (services r)) as [t|]; [reflexivity|]. simpl.
    rewrite applySchema_eq. unfold equals. simpl.
    destruct (String.eqb_spec (svc_name svc') (svc_name svc)) as [N|N];
      [|reflexivity].
    destruct (jsval_eqb (svc_version svc') (svc_version svc)) eqn:V;
      [|reflexivity].
    exfalso. apply jsval_eqb_eq in V. unfold same_service in Hdiff.
    now rewrite N, V, String.eqb_refl, jsval_eqb_refl in Hdiff.
Qed.

Lemma services_get_frame_fold : forall node L r svc,
  registry_wf r ->
  (forall svc', In svc' L -> same_service svc svc' = false) ->
  services_get (svc_name svc) (svc_version svc) node
    (services (fold_left (registerService node) L r)) =
  services_get (svc_name svc) (svc_version svc) node (services r).
Proof.
  induction L as [|svc' L IH]; simpl; intros r svc Hwf Hdiff; [reflexivity|].
  rewrite IH.
  - apply services_get_frame; [assumption | apply Hdiff; now left].
  - now apply wf_registerService.
  - intros svc'' Hin. apply Hdiff. now right.
Qed.

Lemma distinct_services_cons : forall svc L,
  distinct_services (svc :: L) = true ->
  (forall svc', In svc' L -> same_service svc svc' = false) /\
  distinct_services L = true.
Proof.
  intros svc L H. unfold distinct_services in *. simpl in H.
  apply andb_true_iff in H as [H1 H2]. split; [|assumption].
  intros svc' Hin. apply negb_true_iff in H1.
  destruct (same_service svc svc') eqn:E; [|reflexivity].
  assert (existsb (same_service svc) L = true)
    by (apply existsb_exists; eauto).
  congruence.
Qed.

(** After the first loop every descriptor is settled, and the plan it
    followed is the one the final state yields. *)
Lemma plan_of_final : forall node L r,
  registry_wf r -> distinct_services L = true ->
  forallb schema_wf L = true ->
  let rf := fold_left (registerService node) L r in
  plan_of node L r = map (step_of node rf) L /\
  (forall svc, In svc L -> settled node svc rf).
Proof.
  induction L as [|svc L IH]; simpl; intros r Hwf Hd Hsch;
    [split; [reflexivity | intros svc []]|].
  apply andb_true_iff in Hsch as [Hsch Hsch'].
  destruct (distinct_services_cons _ _ Hd) as [Hdiff Hd'].
  pose proof (wf_registerService node svc Hwf) as Hwf1.
  destruct (IH _ Hwf1 Hd' Hsch') as [Hplan Hset].
  destruct (registerService_settles node svc Hwf Hsch) as [(t & G & Hfix) Hstep].
  assert (services_get (svc_name svc) (svc_version svc) node
            (services (fold_left (registerService node) L
                         (registerService node r svc))) = Some t) as Gf
    by (rewrite services_get_frame_fold; assumption).
  split.
  - rewrite Hplan. f_equal. rewrite <- Hstep. now apply (@step_of_get _ _ _ _ t).
  - intros svc' [<-|Hin]; [exists t; auto | now apply Hset].
Qed.

Lemma settled_ext : forall node svc r r',
  services r = services r' -> settled node svc r -> settled node svc r'.
Proof. intros node svc r r' E. unfold settled. now rewrite E. Qed.

Lemma settled_fold : forall node L r,
  registry_wf r -> (forall svc, In svc L -> settled node svc r) ->
  let rf := fold_left (registerService node) L r in
  services rf = services r /\ next_sid rf = next_sid r /\
  plan_of node L r = map (step_of node r) L.
Proof.
  induction L as [|svc L IH]; simpl; intros r Hwf Hset; [auto|].
  destruct (@settled_step node r svc Hwf (Hset svc (or_introl eq_refl)))
    as [Es En].
  destruct (IH (registerService node r svc)) as (Es' & En' & Hplan).
  - now apply wf_registerService.
  - intros svc' Hin. apply (@settled_ext node svc' r); [now symmetry|].
    apply Hset. now right.
  - repeat split; try congruence.
    rewrite Hplan. f_equal. apply map_ext. intros svc'.
    now apply step_of_ext.
Qed.

Lemma fold_registerService_fields : forall node L r,
  let rf := fold_left (registerService node) L r in
  broker_nodeID rf = broker_nodeID r /\ nodes rf = nodes r /\
  broker_calls rf = broker_calls r.
Proof.
  induction L as [|svc L IH]; simpl; intros r; [auto|].
  destruct (IH (registerService node r svc)) as (E1 & E2 & E3).
  destruct (registerService_fields node r svc) as (F1 & F2 & F3).
  repeat split; congruence.
Qed.

Lemma registry_ext : forall r r',
  broker_nodeID r = broker_nodeID r' -> nodes r = nodes r' ->
  services r = services r' -> next_sid r = next_sid r' ->
  actions r = actions r' -> broker_calls r = broker_calls r' ->
  events r = events r' -> r = r'.
Proof.
  intros [a b c d e f g] [a' b' c' d' e' f' g']. simpl. intros. now subst.
Qed.

Lemma events_registerService : forall node r svc,
  events (registerService node r svc) = events r.
Proof.
  intros node r svc. rewrite registerService_eq.
  destruct (services_get _ _ _ _); reflexivity.
Qed.

Lemma events_fold_registerService : forall node L r,
  events (fold_left (registerService node) L r) = events r.
Proof.
  induction L as [|svc L IH]; simpl; intros r; [reflexivity|].
  now rewrite IH, events_registerService.
Qed.

(** ** Reconciling twice: one endpoint list *)

Section EndpointLists.

Variable node : string.

Local Abbreviation rem := (removeByNodeID node).

Local Abbreviation add := (EndpointList_add node).

Local Abbreviation new_ep k act := (mkEndpoint node k act CLOSED).

Lemma rem_none : forall eps,
  existsb (fun ep => String.eqb (ep_node ep) node) (rem eps) = false.
Proof.
  intros eps. destruct (existsb _ (rem eps)) eqn:E; [|reflexivity].
  apply existsb_exists in E as (ep & Hin & Hn).
  apply filter_In in Hin as [_ Hin]. now rewrite Hn in Hin.
Qed.

Lemma add_absent : forall k act eps,
  existsb (fun ep => String.eqb (ep_node ep) node) eps = false ->
  add k act eps = eps ++ [new_ep k act].
Proof. intros k act eps H. unfold EndpointList_add. now rewrite H. Qed.

Lemma add_rem : forall k act eps,
  add k act (rem eps) = rem eps ++ [new_ep k act].
Proof. intros. apply add_absent, rem_none. Qed.

Lemma rem_add : forall k act eps, rem (add k act eps) = rem eps.
Proof.
  intros k act eps. unfold EndpointList_add.
  destruct (existsb _ eps) eqn:E.
  - clear E. unfold removeByNodeID.
    induction eps as [|ep eps IH]; simpl; [reflexivity|].
    destruct (String.eqb (ep_node ep) node) eqn:N; simpl; rewrite N; simpl;
      [exact IH | now f_equal].
  - unfold removeByNodeID. rewrite filter_app. simpl.
    rewrite String.eqb_refl. simpl. apply app_nil_r.
Qed.

Lemma rem_snoc : forall k act eps,
  rem (rem eps ++ [new_ep k act]) = rem eps.
Proof.
  intros k act eps. rewrite <- add_rem, rem_add.
  apply removeByNodeID_idem.
Qed.

(** A second [add] changes the descriptor; the endpoint stays with the
    service of the first. *)
Lemma add_add : forall k act k' act' eps,
  add k act (add k' act' eps) = add k' act eps.
Proof.
  intros k act k' act' eps.
  destruct (existsb (fun ep => String.eqb (ep_node ep) node) eps) eqn:E.
  - unfold EndpointList_add. rewrite E.
    assert (existsb (fun ep => String.eqb (ep_node ep) node)
              (map (fun ep => if String.eqb (ep_node ep) node
                              then mkEndpoint (ep_node ep) (ep_service ep) act'
                                              (ep_state ep)
                              else ep) eps) = true) as ->.
    { apply existsb_exists in E as (ep & Hin & Hn).
      apply existsb_exists. eexists. split; [apply in_map, Hin|].
      rewrite Hn. simpl. exact Hn. }
    rewrite map_map. apply map_ext. intros ep.
    destruct (String.eqb (ep_node ep) node) eqn:N; simpl; now rewrite N.
  - rewrite (add_absent k' act' eps E), (add_absent k' act eps E).
    unfold EndpointList_add.
    rewrite existsb_app. simpl. rewrite String.eqb_refl, orb_true_r.
    rewrite map_app. simpl. rewrite String.eqb_refl. f_equal.
    rewrite <- (map_id eps) at 2. apply map_ext_in. intros ep Hin.
    destruct (String.eqb (ep_node ep) node) eqn:N; [|reflexivity].
    assert (existsb (fun ep => String.eqb (ep_node ep) node) eps = true)
      by (apply existsb_exists; eauto).
    congruence.
Qed.

Lemma add_snoc : forall k act k' act' eps,
  add k act (rem eps ++ [new_ep k' act']) = rem eps ++ [new_ep k' act].
Proof.
  intros k act k' act' eps.
  rewrite <- (add_rem k' act' eps), add_add. apply add_rem.
Qed.

End EndpointLists.

Section Touches.

Variable node : string.

Lemma entry_removed : forall c E,
  entry_or_empty (apply_touch node (Removed c) E) =
  removeByNodeID node (entry_or_empty E).
Proof. intros [|] [eps|]; reflexivity. Qed.

Lemma apply_touch_add : forall t E k act,
  Some (EndpointList_add node k act (entry_or_empty (apply_touch node t E))) =
  apply_touch node (touch_add k act t) E.
Proof.
  intros [|c|k' act' [|]] E k act.
  - reflexivity.
  - rewrite entry_removed. simpl. now rewrite add_rem.
  - simpl. now rewrite add_snoc.
  - simpl. now rewrite add_add.
Qed.

Lemma apply_touch_rem : forall t E,
  option_map (removeByNodeID node) (apply_touch node t E) =
  apply_touch node (touch_rem t) E.
Proof.
  intros [|[|]|k act [|]] E; simpl.
  - reflexivity.
  - now rewrite removeByNodeID_idem.
  - destruct E; simpl; [now rewrite removeByNodeID_idem | reflexivity].
  - now rewrite rem_snoc.
  - now rewrite rem_add.
Qed.

Lemma addEndpoints_touch : forall a k acts A t E,
  actions_get a A = apply_touch node t E ->
  actions_get a (addEndpoints node k acts A) =
  apply_touch node (touch_adds a k acts t) E.
Proof.
  unfold addEndpoints, touch_adds.
  induction acts as [|kv acts IH]; simpl; intros A t E H; [exact H|].
  apply IH. rewrite actions_get_add.
  destruct (String.eqb_spec a (action_name (snd kv))) as [Ea|Ea]; [|exact H].
  rewrite <- Ea. fold (entry_or_empty (actions_get a A)). rewrite H.
  apply apply_touch_add.
Qed.

Lemma run_step_touch : forall a st A t E,
  actions_get a A = apply_touch node t E ->
  actions_get a (run_step node A st) = apply_touch node (touch_step a t st) E.
Proof.
  intros a st A t E H. unfold run_step, touch_step.
  rewrite removeEndpoints_get.
  rewrite (@addEndpoints_touch a (st_sid st) (st_acts st) A t E H).
  destruct (existsb (String.eqb a) (st_old st)); [|reflexivity].
  apply apply_touch_rem.
Qed.

Lemma run_plan_touch : forall a plan A t E,
  actions_get a A = apply_touch node t E ->
  actions_get a (run_plan node plan A) =
  apply_touch node (touch_plan a plan t) E.
Proof.
  unfold run_plan, touch_plan.
  induction plan as [|st plan IH]; simpl; intros A t E H; [exact H|].
  apply IH. now apply run_step_touch.
Qed.

End Touches.

(** ** Reconciling twice: the keys of the action map *)

Lemma obj_keys_set_present : forall A k (v : A) o,
  In k (obj_keys o) -> obj_keys (obj_set k v o) = obj_keys o.
Proof.
  induction o as [|[k' v'] o IH]; simpl; intros H; [destruct H|].
  destruct (String.eqb_spec k k') as [->|Hne]; simpl; [reflexivity|].
  f_equal. apply IH. destruct H as [H|H]; [congruence | exact H].
Qed.

Lemma obj_get_keys : forall A k (o : JsObj A) v,
  obj_get k o = Some v -> In k (obj_keys o).
Proof.
  intros A k o v H. apply obj_get_In in H.
  unfold obj_keys. apply in_map_iff. exists (k, v). auto.
Qed.

Lemma actions_remove_keys : forall name nodeID A,
  obj_keys (actions_remove name nodeID A) = obj_keys A.
Proof.
  intros name nodeID A. unfold actions_remove, actions_get.
  destruct (obj_get name A) as [eps|] eqn:G; [|reflexivity].
  apply obj_keys_set_present. now apply obj_get_keys in G.
Qed.

Lemma removeEndpoints_keys : forall node names A,
  obj_keys (removeEndpoints node names A) = obj_keys A.
Proof.
  unfold removeEndpoints. induction names as [|k names IH]; simpl; intros A.
  - reflexivity.
  - now rewrite IH, actions_remove_keys.
Qed.

Lemma actions_add_keys : forall node k act A,
  In (action_name act) (obj_keys (actions_add node k act A)) /\
  (forall a, In a (obj_keys A) -> In a (obj_keys (actions_add node k act A))) /\
  (In (action_name act) (obj_keys A) ->
   obj_keys (actions_add node k act A) = obj_keys A).
Proof.
  intros node k act A. unfold actions_add.
  destruct (actions_get (action_name act) A); repeat split;
    try apply obj_keys_set_same;
    try (intros a Ha; now apply obj_keys_set_incl);
    try (intros Ha; now apply obj_keys_set_present).
Qed.

Lemma addEndpoints_keys : forall node k acts A,
  (forall kv, In kv acts ->
     In (action_name (snd kv)) (obj_keys (addEndpoints node k acts A))) /\
  (forall a, In a (obj_keys A) -> In a (obj_keys (addEndpoints node k acts A))) /\
  ((forall kv, In kv acts -> In (action_name (snd kv)) (obj_keys A)) ->
   obj_keys (addEndpoints node k acts A) = obj_keys A).
Proof.
  unfold addEndpoints. induction acts as [|kv acts IH]; simpl; intros A.
  - repeat split; auto. intros kv [].
  - destruct (IH (actions_add node k (snd kv) A)) as (I1 & I2 & I3).
    destruct (actions_add_keys node k (snd kv) A) as (J1 & J2 & J3).
    repeat split.
    + intros kv' [<-|Hin]; [now apply I2 | now apply I1].
    + intros a Ha. now apply I2, J2.
    + intros H. rewrite I3.
      * apply J3, H. now left.
      * intros kv' Hin. apply J2, H. now right.
Qed.

Lemma run_plan_keys : forall node plan A,
  (forall st kv, In st plan -> In kv (st_acts st) ->
     In (action_name (snd kv)) (obj_keys (run_plan node plan A))) /\
  (forall a, In a (obj_keys A) -> In a (obj_keys (run_plan node plan A))) /\
  ((forall st kv, In st plan -> In kv (st_acts st) ->
      In (action_name (snd kv)) (obj_keys A)) ->
   obj_keys (run_plan node plan A) = obj_keys A).
Proof.
  unfold run_plan. induction plan as [|st plan IH]; simpl; intros A.
  - repeat split; auto. intros st kv [].
  - destruct (IH (run_step node A st)) as (I1 & I2 & I3).
    destruct (addEndpoints_keys node (st_sid st) (st_acts st) A) as (J1 & J2 & J3).
    assert (obj_keys (run_step node A st) =
            obj_keys (addEndpoints node (st_sid st) (st_acts st) A)) as Ek
      by (unfold run_step; apply removeEndpoints_keys).
    repeat split.
    + intros st' kv [<-|Hin] Hkv; [|now apply (I1 st')].
      apply I2. rewrite Ek. now apply J1.
    + intros a Ha. apply I2. rewrite Ek. now apply J2.
    + intros H. rewrite I3.
      * rewrite Ek. apply J3. intros kv Hkv. apply (H st); auto.
      * intros st' kv Hin Hkv. rewrite Ek. apply J2. apply (H st'); auto.
Qed.

Lemma obj_ext : forall A (o o' : JsObj A),
  NoDup (obj_keys o) -> obj_keys o = obj_keys o' ->
  (forall k, obj_get k o = obj_get k o') -> o = o'.
Proof.
  induction o as [|[k v] o IH]; intros [|[k' v'] o'] Hnd Hk Hg;
    simpl in *; try discriminate; [reflexivity|].
  injection Hk as <- Hk. inversion Hnd as [|? ? Hn Hnd']; subst.
  pose proof (Hg k) as Hv. rewrite String.eqb_refl in Hv. injection Hv as <-.
  f_equal. apply IH; auto.
  intros k0. specialize (Hg k0).
  destruct (String.eqb k0 k) eqn:E; [|exact Hg].
  apply String.eqb_eq in E. rewrite E.
  transitivity (@None A); [|symmetry]; apply obj_get_None; [|rewrite <- Hk];
    assumption.
Qed.

Lemma removeServices_get_eq : forall gone A a,
  actions_get a (removeServices gone A) =
  option_map (filter (survives gone)) (actions_get a A).
Proof.
  unfold removeServices.
  induction gone as [|s gone IH]; simpl; intros A a.
  - destruct (actions_get a A) as [eps|]; simpl; [|reflexivity].
    f_equal. symmetry. induction eps as [|ep eps IHe]; simpl; now f_equal.
  - rewrite IH, actions_get_removeByService.
    destruct (actions_get a A) as [eps|]; simpl; [|reflexivity].
    f_equal. unfold EndpointList_removeByService.
    induction eps as [|ep eps IHe]; simpl; [reflexivity|].
    unfold survives at 2. simpl.
    destruct (Nat.eqb (ep_service ep) (sid s)); simpl; [exact IHe|].
    fold (survives gone ep). destruct (survives gone ep); now rewrite IHe.
Qed.

Lemma removeServices_keys : forall gone A,
  obj_keys (removeServices gone A) = obj_keys A.
Proof.
  unfold removeServices. induction gone as [|s gone IH]; simpl; intros A.
  - reflexivity.
  - rewrite IH. unfold actions_removeByService, obj_keys.
    now rewrite map_map.
Qed.

(** ** Who owns an endpoint

    The owner of an endpoint is a service item of the catalog; the first
    loop of [registerServices] and [registerLocalService] keep that, for any
    selection [F] of endpoints by action name and node and any property [Q]
    of items that depends on their key only. *)

Section Ownership.

Variable Q : ServiceItem -> bool.
Variable F : string -> Endpoint -> bool.
Hypothesis Q_grows : forall g t, grows g -> Q (g t) = Q t.
Hypothesis F_node : forall a ep ep0,
  ep_node ep0 = ep_node ep -> F a ep0 = F a ep.

Lemma owned_in_step : forall r r' (g : ServiceItem -> ServiceItem),
  owned_in Q F r -> grows g ->
  (forall t, In t (services r) -> In (g t) (services r')) ->
  (forall a eps ep,
     actions_get a (actions r') = Some eps -> In ep eps -> F a ep = true ->
     (exists eps0 ep0,
        actions_get a (actions r) = Some eps0 /\ In ep0 eps0 /\
        ep_service ep0 = ep_service ep /\ ep_node ep0 = ep_node ep) \/
     (exists t, In t (services r) /\ sid t = ep_service ep /\
                service_node t = ep_node ep /\ Q t = true)) ->
  owned_in Q F r'.
Proof.
  intros r r' g Hown Hg Hin Hacts a eps ep Hget Hep HF.
  assert (exists t, In t (services r) /\ sid t = ep_service ep /\
                    service_node t = ep_node ep /\ Q t = true)
    as (t & Ht & E1 & E2 & E3).
  { destruct (Hacts a eps ep Hget Hep HF)
      as [(eps0 & ep0 & G0 & Hep0 & E1 & E2)|H]; [|exact H].
    assert (F a ep0 = true) as HF0 by (rewrite <- HF; now apply F_node).
    destruct (Hown a eps0 ep0 G0 Hep0 HF0) as (t & Ht & F1 & F2 & F3).
    exists t. repeat split; congruence. }
  exists (g t). rewrite Q_grows by assumption.
  destruct (Hg t) as (-> & _ & _ & -> & _). auto.
Qed.

Lemma owned_in_shrink : forall r r',
  owned_in Q F r ->
  (forall t, In t (services r) -> In t (services r')) ->
  (forall a eps ep,
     actions_get a (actions r') = Some eps -> In ep eps ->
     exists eps0, actions_get a (actions r) = Some eps0 /\ In ep eps0) ->
  owned_in Q F r'.
Proof.
  intros r r' Hown Hs Hacts.
  apply (@owned_in_step r r' (fun t => t)); auto.
  - intros t. repeat split; auto. apply incl_refl.
  - intros a eps ep Hg Hep _. left.
    destruct (Hacts a eps ep Hg Hep) as (eps0 & G0 & Hep0).
    exists eps0, ep. auto.
Qed.

Lemma owned_in_registerAction : forall node service r kv,
  owned_in Q F r ->
  (exists t, In t (services r) /\ sid t = service /\ service_node t = node /\
             Q t = true) ->
  owned_in Q F (registerAction node service r kv).
Proof.
  intros node service r [k action] Hown (t0 & Ht0 & Hs0 & Hn0 & Hq0).
  apply (@owned_in_step r _
           (fun s => if Nat.eqb (sid s) service then addAction action s else s));
    auto.
  - apply grows_on_service, grows_addAction.
  - intros t Ht. simpl. unfold on_service.
    exact (in_map (fun s => if Nat.eqb (sid s) service
                            then addAction action s else s) _ t Ht).
  - intros a eps ep Hg Hep _. simpl in Hg. rewrite actions_get_add in Hg.
    destruct (String.eqb_spec a (action_name action)) as [->|Hne].
    + injection Hg as <-.
      apply In_EndpointList_add in Hep
        as [[Hep Hn]|(Hn & _ & [(ep0 & Hep0 & Hn0' & Hs & _)|(Hs & _)])].
      * left.
        destruct (actions_get (action_name action) (actions r)) as [eps0|] eqn:G;
          [|destruct Hep].
        exists eps0, ep. auto.
      * left.
        destruct (actions_get (action_name action) (actions r)) as [eps0|] eqn:G;
          [|destruct Hep0].
        exists eps0, ep0. repeat split; congruence.
      * right. exists t0. repeat split; congruence.
    + left. exists eps, ep. auto.
Qed.

Lemma has_item_in_registerAction : forall node service r kv k n,
  (exists t, In t (services r) /\ sid t = k /\ service_node t = n /\
             Q t = true) ->
  exists t, In t (services (registerAction node service r kv)) /\
            sid t = k /\ service_node t = n /\ Q t = true.
Proof.
  intros node service r kv k n (t & Ht & Hs & Hn & Hq).
  pose proof (grows_on_service service (grows_addAction (snd kv))) as Hg.
  eexists. split; [simpl; unfold on_service; apply in_map, Ht|].
  pose proof (@Q_grows _ t Hg) as HQ. cbv beta in HQ. rewrite HQ.
  destruct (Hg t) as (-> & _ & _ & -> & _). auto.
Qed.

Lemma owned_in_registerActions : forall node service acts r,
  owned_in Q F r ->
  (exists t, In t (services r) /\ sid t = service /\ service_node t = node /\
             Q t = true) ->
  owned_in Q F (registerActions node service acts r).
Proof.
  unfold registerActions. induction acts as [|kv acts IH]; simpl;
    intros r Hown Hit; [assumption|].
  apply IH; [now apply owned_in_registerAction
            | now apply has_item_in_registerAction].
Qed.

Lemma owned_in_unregisterAction : forall node name r,
  owned_in Q F r -> owned_in Q F (unregisterAction node name r).
Proof.
  intros node name r Hown. apply (@owned_in_shrink r _ Hown); [auto|].
  intros a eps ep Hg Hep. simpl in Hg. rewrite actions_get_remove in Hg.
  destruct (String.eqb a name) eqn:E; [|eauto].
  apply String.eqb_eq in E. subst a.
  destruct (actions_get name (actions r)) as [eps0|]; [|discriminate].
  injection Hg as <-. apply filter_In in Hep as [Hep _]. eauto.
Qed.

Lemma owned_in_fold_removeOldAction : forall node svc prev r,
  owned_in Q F r -> owned_in Q F (fold_left (removeOldAction node svc) prev r).
Proof.
  induction prev as [|kv prev IH]; simpl; intros r Hown; [assumption|].
  apply IH. unfold removeOldAction.
  destruct (js_falsy_at (fst kv) (svc_actions svc)); [|assumption].
  now apply owned_in_unregisterAction.
Qed.

Lemma owned_in_services_add : forall node name version settings r,
  owned_in Q F r ->
  owned_in Q F (snd (services_add node name version settings r)).
Proof.
  intros node name version settings r Hown.
  apply (@owned_in_shrink r _ Hown).
  - intros t Ht. simpl. apply in_or_app. now left.
  - intros a eps ep Hg Hep. simpl in Hg. eauto.
Qed.

(** A new item, with its actions. *)
Lemma owned_in_add_register : forall node svc r,
  owned_in Q F r ->
  (forall t, equals t (svc_name svc) (svc_version svc) = true -> Q t = true) ->
  owned_in Q F
    (registerActions node (next_sid r) (svc_actions svc)
       (snd (services_add node (svc_name svc) (svc_version svc)
                          (svc_settings svc) r))).
Proof.
  intros node svc r Hown HQ.
  pose proof (@owned_in_services_add node (svc_name svc) (svc_version svc)
                (svc_settings svc) r Hown) as Hown1.
  apply owned_in_registerActions; [exact Hown1|].
  eexists. split; [simpl; apply in_or_app; right; left; reflexivity|].
  simpl. repeat split. apply HQ. unfold equals. simpl.
  now rewrite String.eqb_refl, jsval_eqb_refl.
Qed.

Lemma owned_in_registerService : forall node svc r,
  owned_in Q F r ->
  (forall t, equals t (svc_name svc) (svc_version svc) = true -> Q t = true) ->
  owned_in Q F (registerService node r svc).
Proof.
  intros node svc r Hown HQ. unfold registerService.
  destruct (services_get (svc_name svc) (svc_version svc) node (services r))
    as [s|] eqn:G.
  - apply owned_in_fold_removeOldAction.
    pose proof G as G'. apply find_some in G' as [_ M].
    apply andb_true_iff in M as [M _].
    apply services_get_some in G as (Hin & _ & _ & Hn).
    pose proof (grows_on_service (sid s) (grows_update svc)) as Hg.
    apply owned_in_registerActions.
    + apply (@owned_in_step r _
               (fun x => if Nat.eqb (sid x) (sid s) then update svc x else x));
        auto.
      * intros t Ht. simpl. unfold on_service.
        exact (in_map (fun x => if Nat.eqb (sid x) (sid s)
                                then update svc x else x) _ t Ht).
      * intros a eps ep Hget Hep _. left. exists eps, ep. auto.
    + eexists. split; [simpl; unfold on_service; apply in_map, Hin|].
      pose proof (@Q_grows _ s Hg) as HQs. cbv beta in HQs. rewrite HQs.
      destruct (Hg s) as (-> & _ & _ & -> & _). auto.
  - unfold services_add. now apply owned_in_add_register.
Qed.

Lemma owned_in_fold_registerService : forall node L r,
  owned_in Q F r ->
  (forall svc t, In svc L ->
     equals t (svc_name svc) (svc_version svc) = true -> Q t = true) ->
  owned_in Q F (fold_left (registerService node) L r).
Proof.
  induction L as [|svc L IH]; simpl; intros r Hown HQ; [assumption|].
  apply IH.
  - apply owned_in_registerService; [assumption|].
    intros t. apply HQ. now left.
  - intros svc' t Hin. apply HQ. now right.
Qed.

End Ownership.

(** ** Reachable registries own their endpoints *)















(** ** Reconciling twice: what the second loop removes *)

Section Survivors.

Variable node : string.
Variable keep : nat -> bool.

Local Abbreviation D := (filter (fun ep : Endpoint => keep (ep_service ep))).

Lemma rem_D_rem : forall eps,
  removeByNodeID node (D (removeByNodeID node eps)) = D (removeByNodeID node eps).
Proof.
  intros eps. unfold removeByNodeID.
  induction eps as [|ep eps IH]; simpl; [reflexivity|].
  destruct (negb (String.eqb (ep_node ep) node)) eqn:N; simpl; [|exact IH].
  destruct (keep (ep_service ep)); simpl; [|exact IH].
  rewrite N. now f_equal.
Qed.

(** An [add] whose endpoint survives: a second [add] of the same descriptor
    after the removal changes nothing. *)
Lemma add_D_fixed : forall k act eps,
  (forall ep, In ep (EndpointList_add node k act eps) -> ep_node ep = node ->
              keep (ep_service ep) = true) ->
  EndpointList_add node k act (D (EndpointList_add node k act eps)) =
  D (EndpointList_add node k act eps).
Proof.
  intros k act eps Hkeep.
  set (x := EndpointList_add node k act eps) in *.
  assert (forall ep, In ep x -> ep_node ep = node -> ep_action ep = act) as Hx.
  { intros ep Hin Hn. apply In_EndpointList_add in Hin as [[_ H]|(_ & H & _)];
      [contradiction | exact H]. }
  assert (exists ep, In ep x /\ ep_node ep = node) as (ep0 & Hin0 & Hn0).
  { unfold x, EndpointList_add.
    destruct (existsb _ eps) eqn:E.
    - apply existsb_exists in E as (ep & Hin & Hn).
      eexists. split; [apply in_map, Hin|]. rewrite Hn. simpl.
      now apply String.eqb_eq.
    - eexists. split; [apply in_or_app; right; left; reflexivity|].
      reflexivity. }
  unfold EndpointList_add at 1.
  assert (existsb (fun ep => String.eqb (ep_node ep) node) (D x) = true) as ->.
  { apply existsb_exists. exists ep0. split; [|now apply String.eqb_eq].
    apply filter_In. split; [assumption|]. now apply Hkeep. }
  rewrite <- (map_id (D x)) at 2. apply map_ext_in. intros ep Hin.
  apply filter_In in Hin as [Hin _].
  destruct (String.eqb_spec (ep_node ep) node) as [Hn|Hn]; [|reflexivity].
  rewrite <- (Hx ep Hin Hn). now destruct ep.
Qed.

(** Running the same touch again, after a removal of services that takes
    no placed endpoint with it, changes nothing. *)
Lemma apply_touch_twice_D : forall t E,
  (forall k act m, t = Placed k act m ->
     forall ep, In ep (entry_or_empty (apply_touch node t E)) ->
                ep_node ep = node -> keep (ep_service ep) = true) ->
  apply_touch node t (option_map D (apply_touch node t E)) =
  option_map D (apply_touch node t E).
Proof.
  intros [|[|]|k act [|]] E Hk; simpl.
  - reflexivity.
  - now rewrite rem_D_rem.
  - destruct E as [eps|]; simpl; [now rewrite rem_D_rem | reflexivity].
  - assert (keep k = true) as Hkeep.
    { apply (Hk k act true eq_refl (mkEndpoint node k act CLOSED));
        [|reflexivity].
      simpl. apply in_or_app. right. now left. }
    rewrite !filter_app. simpl. rewrite Hkeep.
    rewrite <- (rem_D_rem (entry_or_empty E)).
    now rewrite rem_snoc.
  - rewrite add_D_fixed; [reflexivity|].
    exact (Hk k act false eq_refl).
Qed.

End Survivors.

Lemma touch_adds_placed_by : forall a k acts t k' act m,
  touch_adds a k acts t = Placed k' act m ->
  (exists k0 act0 m0, t = Placed k0 act0 m0) \/
  (exists kv, In kv acts /\ action_name (snd kv) = a).
Proof.
  unfold touch_adds. induction acts as [|kv acts IH]; simpl;
    intros t k' act m H.
  - left. eauto.
  - destruct (IH _ _ _ _ H) as [(k0 & act0 & m0 & E)|(kv' & Hin & Ha)].
    + destruct (String.eqb_spec a (action_name (snd kv))) as [Ea|Ea].
      * right. exists kv. auto.
      * left. eauto.
    + right. exists kv'. auto.
Qed.

(** An endpoint is placed only by a step that adds an action of that name. *)
Lemma touch_plan_placed_by : forall a plan t k act m,
  touch_plan a plan t = Placed k act m ->
  (exists k0 act0 m0, t = Placed k0 act0 m0) \/
  (exists st kv, In st plan /\ In kv (st_acts st) /\
                 action_name (snd kv) = a).
Proof.
  unfold touch_plan. induction plan as [|st plan IH]; simpl;
    intros t k act m H.
  - left. eauto.
  - destruct (IH _ _ _ _ H)
      as [(k0 & act0 & m0 & E)|(st' & kv & Hin & Hkv & Ha)].
    + unfold touch_step in E.
      destruct (existsb (String.eqb a) (st_old st)).
      * destruct (touch_adds a (st_sid st) (st_acts st) t) as [|c|k1 a1 m1];
          discriminate.
      * destruct (touch_adds_placed_by _ _ _ _ E) as [P|(kv & Hkv & Ha)];
          [now left|]. right. exists st, kv. auto.
    + right. exists st', kv. auto.
Qed.

Lemma existsb_fun_ext : forall A (f g : A -> bool) l,
  (forall x, f x = g x) -> existsb f l = existsb g l.
Proof.
  intros A f g l H. induction l as [|x l IH]; simpl; [reflexivity|].
  now rewrite H, IH.
Qed.

Lemma filter_filter_and : forall A (p q : A -> bool) l,
  filter p (filter q l) = filter (fun x => q x && p x) l.
Proof.
  intros A p q. induction l as [|x l IH]; simpl; [reflexivity|].
  destruct (q x); simpl; [|exact IH].
  destruct (p x); now rewrite IH.
Qed.

Lemma equals_same_key : forall s t name version,
  service_name s = service_name t -> service_version s = service_version t ->
  equals s name version = equals t name version.
Proof. intros s t name version E1 E2. unfold equals. now rewrite E1, E2. Qed.

(** What the second loop has done when it ends: it has removed some items
    of the catalog, none of them named by the list, with their endpoints. *)
Lemma live_loop_gone : forall node L rf idx,
  registry_wf rf ->
  let x := fold_left (removeOldServiceAt node L) idx rf in
  exists gone,
    registry_wf x /\
    services x =
      filter (fun t => negb (existsb (fun g => Nat.eqb (sid t) (sid g)) gone))
             (services rf) /\
    actions x = removeServices gone (actions rf) /\
    next_sid x = next_sid rf /\ broker_nodeID x = broker_nodeID rf /\
    nodes x = nodes rf /\ broker_calls x = broker_calls rf /\
    (forall g, In g gone -> In g (services rf) /\ named L g = false).
Proof.
  intros node L rf idx Hwf.
  apply (@live_loop_ind
           (fun x => exists gone,
              registry_wf x /\
              services x =
                filter (fun t => negb (existsb (fun g => Nat.eqb (sid t) (sid g))
                                               gone))
                       (services rf) /\
              actions x = removeServices gone (actions rf) /\
              next_sid x = next_sid rf /\ broker_nodeID x = broker_nodeID rf /\
              nodes x = nodes rf /\ broker_calls x = broker_calls rf /\
              (forall g, In g gone -> In g (services rf) /\ named L g = false))
           node L).
  - intros x t (gone & Hwx & Es & Ea & E1 & E2 & E3 & E4 & Hgone) Ht.
    unfold removeOldService.
    destruct (negb (String.eqb (service_node t) node));
      [exists gone; split; [exact Hwx|]; repeat split; auto; apply Hgone; assumption|].
    destruct (existsb (fun svc => equals t (svc_name svc) (svc_version svc)) L)
      eqn:Ex; [exists gone; split; [exact Hwx|]; repeat split; auto; apply Hgone; assumption|].
    unfold unregisterService.
    pose proof (@wf_services_remove (service_name t) (service_version t)
                  (or_broker_nodeID (Some node) x) x Hwx) as Hwx'.
    unfold services_remove in Hwx' |- *. revert Hwx'.
    destruct (services_get (service_name t) (service_version t)
                (or_broker_nodeID (Some node) x) (services x)) as [s0|] eqn:G;
      intros Hwx';
      [|exists gone; split; [exact Hwx|]; repeat split; auto; apply Hgone; assumption].
    apply services_get_some in G as (Hs0 & N0 & V0 & _).
    exists (gone ++ [s0]).
    split; [exact Hwx'|]. simpl.
    split.
    { rewrite Es, filter_filter_and. apply filter_ext. intros y.
      rewrite existsb_app. simpl. rewrite orb_false_r.
      now rewrite negb_orb. }
    split.
    { rewrite Ea. unfold removeServices. rewrite fold_left_app. reflexivity. }
    split; [exact E1|]. split; [exact E2|]. split; [exact E3|].
    split; [exact E4|].
    intros g Hg. apply in_app_or in Hg as [Hg|[<-|[]]]; [now apply Hgone|].
    split.
    + rewrite Es in Hs0. now apply filter_In in Hs0.
    + unfold named. rewrite <- Ex. apply existsb_fun_ext. intros svc.
      now apply equals_same_key.
  - exists []. split; [exact Hwf|]. simpl. repeat split; auto; try contradiction.
    clear. induction (services rf) as [|t ss IH]; simpl; now f_equal.
Qed.

(** An item that the list names is not among the removed ones. *)
Lemma named_survives : forall L rf gone t,
  registry_wf rf -> In t (services rf) -> named L t = true ->
  (forall g, In g gone -> In g (services rf) /\ named L g = false) ->
  existsb (fun g => Nat.eqb (sid t) (sid g)) gone = false.
Proof.
  intros L rf gone t Hwf Ht Hn Hgone.
  destruct (existsb _ gone) eqn:E; [|reflexivity]. exfalso.
  apply existsb_exists in E as (g & Hg & Es). apply Nat.eqb_eq in Es.
  destruct (Hgone g Hg) as [Hgs Hgn].
  assert (t = g) as -> by (apply (NoDup_map_inj sid (services rf));
                           auto; apply Hwf).
  congruence.
Qed.

Lemma named_grows : forall L g t, grows g -> named L (g t) = named L t.
Proof.
  intros L g t Hg. unfold named. apply existsb_fun_ext. intros svc.
  destruct (Hg t) as (_ & E1 & E2 & _). now apply equals_same_key.
Qed.

Lemma owners_listed_sound : forall node L r,
  registry_wf r -> owners_listed node L r = true ->
  owned_in (named L) (listed_endpoint node L) r.
Proof.
  intros node L r Hwf H a eps ep Hg Hep HF.
  unfold owners_listed in H. rewrite forallb_forall in H.
  pose proof (obj_get_In _ _ Hg) as Hin. specialize (H (a, eps) Hin).
  simpl in H. rewrite forallb_forall in H. specialize (H ep Hep).
  rewrite HF in H. simpl in H.
  apply existsb_exists in H as (t & Ht & E). apply andb_true_iff in E as [E Hn].
  apply Nat.eqb_eq in E.
  exists t. repeat split; auto.
  pose proof (wf_owner Hwf) as Hown.
  destruct (Hown a eps ep Hg Hep) as (t' & Ht' & E1 & E2 & _).
  assert (t = t') as -> by (apply (NoDup_map_inj sid (services r));
                            auto; [apply Hwf | congruence]).
  exact E2.
Qed.

(** ** Reconciling twice *)

(** C2 (as amended): in a well-formed registry, for a list of well-formed
    descriptors of distinct services, when every endpoint that the node has
    for an action of the list belongs to a service that the list names, and
    the first [registerServices] leaves no service of the node that the list
    does not name, a second [registerServices] with the same list returns
    the registry unchanged. *)
Theorem registerServices_idempotent : forall node L r,
  registry_wfb r = true ->
  distinct_services L = true -> forallb schema_wf L = true ->
  owners_listed node L r = true ->
  forallb (keptService node L) (services (registerServices node L r)) = true ->
  registerServices node L (registerServices node L r) =
  registerServices node L r.
Proof.
  intros node L r Hwfb Hd Hsch Hown Hkept.
  apply registry_wfb_sound in Hwfb.
  pose proof (wf_fold_registerService node L Hwfb) as Hwff.
  destruct (@plan_of_final node L r Hwfb Hd Hsch) as [Hplan Hset].
  assert (Hownf : owned_in (named L) (listed_endpoint node L)
                           (fold_left (registerService node) L r)).
  { apply owned_in_fold_registerService.
    - intros g t Hg. now apply named_grows.
    - intros a ep ep0 E. unfold listed_endpoint. now rewrite E.
    - now apply owners_listed_sound.
    - intros svc t Hin M. unfold named. apply existsb_exists. eauto. }
  set (rf := fold_left (registerService node) L r) in *.
  set (r1 := registerServices node L r) in *.
  assert (exists gone,
            registry_wf r1 /\
            services r1 =
              filter (fun t => negb (existsb (fun g => Nat.eqb (sid t) (sid g))
                                             gone))
                     (services rf) /\
            actions r1 = removeServices gone (actions rf) /\
            next_sid r1 = next_sid rf /\ broker_nodeID r1 = broker_nodeID rf /\
            nodes r1 = nodes rf /\ broker_calls r1 = broker_calls rf /\
            (forall g, In g gone -> In g (services rf) /\ named L g = false))
    as (gone & Hwf1 & Es1 & Ea1 & _ & _ & _ & _ & Hgone)
    by (apply (@live_loop_gone node L rf
                 (seq 0 (List.length (services rf))) Hwff)).
  assert (forall svc, In svc L -> settled node svc r1 /\
                                  step_of node r1 svc = step_of node rf svc)
    as Hset1.
  { intros svc Hin. destruct (Hset svc Hin) as (t & G & Hfix).
    assert (services_get (svc_name svc) (svc_version svc) node (services r1)
            = Some t) as G1.
    { rewrite Es1. unfold services_get. apply find_filter_Some; [exact G|].
      apply negb_true_iff.
      pose proof G as G'. apply find_some in G' as [Ht M].
      apply andb_true_iff in M as [M _].
      apply (@named_survives L rf gone t Hwff Ht); [|exact Hgone].
      unfold named. apply existsb_exists. eauto. }
    split; [exists t; auto | now apply (@step_of_get _ _ _ _ t)]. }
  destruct (@settled_fold node L r1 Hwf1 (fun svc H => proj1 (Hset1 svc H)))
    as (Es2 & En2 & Hplan2).
  set (r2 := fold_left (registerService node) L r1) in *.
  assert (plan_of node L r1 = plan_of node L r) as Eplan.
  { rewrite Hplan2, Hplan. apply map_ext_in. intros svc Hin.
    now apply Hset1. }
  assert (actions r2 = actions r1) as Ea2.
  { unfold r2. rewrite actions_fold_registerService, Eplan.
    symmetry. apply obj_ext.
    - apply Hwf1.
    - symmetry. apply run_plan_keys. intros st kv Hst Hkv.
      rewrite Ea1, removeServices_keys. unfold rf.
      rewrite actions_fold_registerService.
      now apply (proj1 (run_plan_keys node (plan_of node L r) (actions r)) st).
    - intros a. symmetry.
      change (actions_get a (run_plan node (plan_of node L r) (actions r1))
              = actions_get a (actions r1)).
      rewrite (@run_plan_touch node a (plan_of node L r) (actions r1)
                 Untouched (actions_get a (actions r1)) eq_refl).
      assert (Erf : actions_get a (actions rf) =
                    apply_touch node (touch_plan a (plan_of node L r) Untouched)
                                (actions_get a (actions r))).
      { unfold rf. rewrite actions_fold_registerService.
        apply (@run_plan_touch node a (plan_of node L r) (actions r)
                 Untouched (actions_get a (actions r)) eq_refl). }
      rewrite Ea1, removeServices_get_eq, Erf.
      apply (@apply_touch_twice_D node
               (fun k => negb (existsb (fun s => Nat.eqb k (sid s)) gone))).
      intros k act m Ht ep Hep Hn.
      rewrite <- Erf in Hep.
      destruct (actions_get a (actions rf)) as [eps|] eqn:G; [|destruct Hep].
      simpl in Hep.
      destruct (@touch_plan_placed_by a (plan_of node L r) Untouched k act m Ht)
        as [(k0 & act0 & m0 & Habs)|(st & kv & Hst & Hkv & Ha)];
        [discriminate|].
      rewrite Hplan in Hst. apply in_map_iff in Hst as (svc & <- & Hsvc).
      assert (st_acts (step_of node rf svc) = svc_actions svc) as Eacts
        by (unfold step_of; destruct (services_get _ _ _ _); reflexivity).
      rewrite Eacts in Hkv.
      assert (listed_endpoint node L a ep = true) as HF.
      { unfold listed_endpoint. rewrite Hn, String.eqb_refl. simpl.
        apply existsb_exists. exists svc. split; [assumption|].
        unfold declares. apply existsb_exists. exists kv.
        split; [assumption|]. now apply String.eqb_eq. }
      destruct (Hownf a eps ep G Hep HF) as (t & Ht0 & E1 & _ & Hq).
      apply negb_true_iff. rewrite <- E1.
      now apply (@named_survives L rf gone t Hwff Ht0 Hq). }
  assert (r2 = r1) as Er2.
  { destruct (fold_registerService_fields node L r1) as (F1 & F2 & F3).
    apply registry_ext; try assumption.
    apply events_fold_registerService. }
  unfold registerServices at 1. fold r1. fold r2. rewrite Er2.
  apply fold_removeOldService_kept.
  now apply forallb_forall.
Qed.

Lemma registerServices_idempotent_witness :
  registerServices "node-1" [users_schema]
    (registerServices "node-1" [users_schema] sample_cluster) =
  registerServices "node-1" [users_schema] sample_cluster /\
  map service_name (services sample_cluster) = ["math"; "posts"] /\
  map service_name
    (services (registerServices "node-1" [users_schema] sample_cluster)) =
  ["math"; "users"].
Proof.
  assert (H1 : registry_wfb sample_cluster = true) by (vm_compute; reflexivity).
  assert (H2 : distinct_services [users_schema] = true)
    by (vm_compute; reflexivity).
  assert (H3 : forallb schema_wf [users_schema] = true)
    by (vm_compute; reflexivity).
  assert (H4 : owners_listed "node-1" [users_schema] sample_cluster = true)
    by (vm_compute; reflexivity).
  assert (H5 : forallb (keptService "node-1" [users_schema])
                 (services (registerServices "node-1" [users_schema]
                              sample_cluster)) = true)
    by (vm_compute; reflexivity).
  pose proof (@registerServices_idempotent "node-1" [users_schema]
                sample_cluster H1 H2 H3 H4 H5) as H.
  split; [exact H|]. split; vm_compute; reflexivity.
Defined.

(** C2 (as stated) fails in four ways, each with the other conditions of the
    amended claim in place.  A descriptor that stores an action under a key
    that is not its name: the second call takes the key of the stored action
    for an old one and unregisters the endpoint.  An endpoint of a listed
    action that belongs to a service the list does not name: the first call
    removes that service with the endpoint, the second registers the
    endpoint again.  Two descriptors of one service: the second call
    removes, for the first descriptor, what the last one added, and the
    endpoint changes its owner.  A service that the first call steps over:
    the second call removes it. *)
Lemma registerServices_twice_differs :
  (let r := Registry_new "node-local" in
   let L := [keyed_schema] in
   let once := registerServices "node-1" L r in
   (registry_wfb r = true /\ distinct_services L = true /\
    owners_listed "node-1" L r = true /\
    forallb (keptService "node-1" L) (services once) = true) /\
   getActionEndpointByNodeId "new.x" "node-1" once <> None /\
   getActionEndpointByNodeId "new.x" "node-1"
     (registerServices "node-1" L once) = None) /\
  (let r := sample_cluster in
   let L := [search_schema] in
   let once := registerServices "node-1" L r in
   (registry_wfb r = true /\ distinct_services L = true /\
    forallb schema_wf L = true /\
    forallb (keptService "node-1" L) (services once) = true) /\
   getActionEndpointByNodeId "posts.get" "node-1" once = None /\
   getActionEndpointByNodeId "posts.get" "node-1"
     (registerServices "node-1" L once) <> None) /\
  (let r := mail_registry in
   let L := [mail_schema; chat_join; chat_send] in
   let once := registerServices "node-1" L r in
   (registry_wfb r = true /\ forallb schema_wf L = true /\
    owners_listed "node-1" L r = true /\
    forallb (keptService "node-1" L) (services once) = true) /\
   option_map ep_service
     (getActionEndpointByNodeId "mail.send" "node-1" once) = Some 0 /\
   option_map ep_service
     (getActionEndpointByNodeId "mail.send" "node-1"
        (registerServices "node-1" L once)) = Some 1) /\
  (let r := two_services_registry in
   let L := [search_schema] in
   let once := registerServices "node-1" L r in
   (registry_wfb r = true /\ distinct_services L = true /\
    forallb schema_wf L = true /\ owners_listed "node-1" L r = true) /\
   map service_name (services once) = ["users"; "search"] /\
   map service_name (services (registerServices "node-1" L once)) = ["search"]).
Proof.
  cbv zeta. repeat split; try (vm_compute; reflexivity);
    vm_compute; discriminate.
Qed.

(** ** Disconnecting a node *)




(** * Further properties of the registry *)

(** ** Unregistering one action *)

Lemma find_filter_In : forall A (p q : A -> bool) l,
  (forall x, In x l -> p x = true -> q x = true) ->
  find p (filter q l) = find p l.
Proof.
  intros A p q l. induction l as [|x l IH]; simpl; intros H; [reflexivity|].
  destruct (p x) eqn:P.
  - rewrite (H x (or_introl eq_refl) P). simpl. now rewrite P.
  - destruct (q x); simpl; [rewrite P|]; apply IH; intros y Hy; apply H;
      now right.
Qed.

Lemma getEndpointByNodeID_removeByNodeID : forall nodeID nodeID' eps,
  getEndpointByNodeID nodeID' (removeByNodeID nodeID eps) =
  if String.eqb nodeID' nodeID then None else getEndpointByNodeID nodeID' eps.
Proof.
  intros n n' eps. unfold getEndpointByNodeID, removeByNodeID.
  destruct (String.eqb_spec n' n) as [->|Hne].
  - destruct (find _ (filter _ eps)) as [ep|] eqn:F; [|reflexivity].
    apply find_some in F as [Hin Hn]. apply filter_In in Hin as [_ Hin].
    now rewrite Hn in Hin.
  - apply find_filter_In. intros ep _ Hn. apply String.eqb_eq in Hn.
    apply negb_true_iff. apply String.eqb_neq. congruence.
Qed.

(** X1: [unregisterAction(node, name)] leaves no endpoint of [node] under
    [name], and changes the lookup of no other (action, node) pair. *)
Theorem unregisterAction_lookup : forall node name r a nodeID,
  getActionEndpointByNodeId a nodeID (unregisterAction node name r) =
  if String.eqb a name && String.eqb nodeID node then None
  else getActionEndpointByNodeId a nodeID r.
Proof.
  intros node name r a n'. unfold getActionEndpointByNodeId, unregisterAction.
  simpl. rewrite actions_get_remove.
  destruct (String.eqb_spec a name) as [->|Hne]; simpl; [|reflexivity].
  destruct (actions_get name (actions r)) as [eps|]; simpl.
  - apply getEndpointByNodeID_removeByNodeID.
  - now destruct (String.eqb n' node).
Qed.

(** ** What an action entry lists *)

Lemma listEntry_spec : forall opts r key entry item,
  listEntry opts r (key, entry) = Some item <->
  exists ep rest,
    entry = ep :: rest /\
    skipInternal opts && isInternal key = false /\
    onlyLocal opts && negb (hasLocal r entry) = false /\
    isProtected (omitAction (ep_action ep)) = false /\
    item = mkItem key (List.length entry) (hasLocal r entry)
                  (hasAvailable r entry)
                  (Some (omitAction (ep_action ep)))
                  (if withEndpoints opts
                   then Some (map (fun e => (ep_node e, ep_state e)) entry)
                   else None).
Proof.
  intros opts r key entry item. unfold listEntry. split.
  - intros H.
    destruct (skipInternal opts && isInternal key); [discriminate|].
    destruct (onlyLocal opts && negb (hasLocal r entry)); [discriminate|].
    destruct entry as [|ep rest]; simpl in H; [discriminate|].
    destruct (isProtected (omitAction (ep_action ep))) eqn:P; [discriminate|].
    injection H as <-. exists ep, rest. repeat split; auto.
    unfold count. simpl. now rewrite andb_true_r.
  - intros (ep & rest & -> & -> & -> & P & ->). simpl. rewrite P.
    unfold count. simpl. now rewrite andb_true_r.
Qed.

(** X3: an action entry left without endpoints stays in the action map but
    is never listed: after [unregisterAction] of the only endpoint of an
    action, [getActionEndpoints] still returns the (empty) entry and
    [getActionList] has no item of that name. *)
Theorem unregisterAction_last_endpoint : forall node name r ep opts,
  NoDup (obj_keys (actions r)) ->
  getActionEndpoints name r = Some [ep] -> ep_node ep = node ->
  let r' := unregisterAction node name r in
  getActionEndpoints name r' = Some [] /\
  forall item, In item (getActionList opts r') -> item_name item <> name.
Proof.
  intros node name r ep opts Hnd Hg Hn r'.
  assert (getActionEndpoints name r' = Some []) as Hg'.
  { unfold r', getActionEndpoints, unregisterAction in *. simpl.
    rewrite actions_get_remove, String.eqb_refl, Hg. simpl.
    unfold removeByNodeID. simpl. now rewrite Hn, String.eqb_refl. }
  split; [exact Hg'|].
  intros item Hin E. unfold getActionList in Hin.
  apply filter_map_In in Hin as ([key entry] & Hin & H).
  apply listEntry_spec in H as (ep' & rest & -> & _ & _ & _ & ->).
  simpl in E. subst key.
  assert (NoDup (obj_keys (actions r'))) as Hnd'.
  { unfold r', unregisterAction. simpl. now rewrite actions_remove_keys. }
  assert (actions_get name (actions r') = Some (ep' :: rest)) as G.
  { clear - Hin Hnd'. unfold actions_get.
    induction (actions r') as [|[k v] o IH]; simpl in *; [destruct Hin|].
    inversion Hnd' as [|? ? Hk Hnd'']; subst.
    destruct Hin as [E|Hin].
    - injection E as -> ->. now rewrite String.eqb_refl.
    - destruct (String.eqb_spec name k) as [->|_]; [|now apply IH].
      exfalso. apply Hk. apply in_map_iff. exists (k, ep' :: rest). auto. }
  unfold getActionEndpoints in Hg'. congruence.
Qed.

Lemma unregisterAction_last_endpoint_witness :
  let r := unregisterAction "node-1" "posts.get" sample_cluster in
  getActionEndpoints "posts.get" r = Some [] /\
  forall item, In item (getActionList (mkOpts false false true) r) ->
               item_name item <> "posts.get".
Proof.
  eapply (@unregisterAction_last_endpoint "node-1" "posts.get" sample_cluster).
  - apply (nodupb_NoDup String.eqb); [apply String.eqb_refl | reflexivity].
  - reflexivity.
  - reflexivity.
Defined.

(** ** Lookup of one endpoint after adds and removes *)

Lemma find_map_fixed : forall A (p : A -> bool) (f : A -> A) l,
  (forall x, p (f x) = p x) -> (forall x, p x = true -> f x = x) ->
  find p (map f l) = find p l.
Proof.
  intros A p f l H1 H2. induction l as [|x l IH]; simpl; [reflexivity|].
  rewrite H1. destruct (p x) eqn:P; [now rewrite H2 | exact IH].
Qed.

Lemma lookup_add_other : forall node nodeID k act eps,
  nodeID <> node ->
  getEndpointByNodeID nodeID (EndpointList_add node k act eps) =
  getEndpointByNodeID nodeID eps.
Proof.
  intros node n' k act eps Hne. unfold getEndpointByNodeID, EndpointList_add.
  destruct (existsb _ eps).
  - apply find_map_fixed; intros ep.
    + now destruct (String.eqb (ep_node ep) node).
    + intros Hn. apply String.eqb_eq in Hn.
      destruct (String.eqb_spec (ep_node ep) node); [congruence | reflexivity].
  - rewrite find_app. destruct (find _ eps); [reflexivity|]. simpl.
    destruct (String.eqb_spec node n'); [congruence | reflexivity].
Qed.

(** What the node finds after an [add]: its endpoint with the new
    descriptor when it had one, a CLOSED endpoint of the given service
    otherwise. *)
Lemma lookup_add_exact : forall node k act eps,
  getEndpointByNodeID node (EndpointList_add node k act eps) =
  Some (match getEndpointByNodeID node eps with
        | Some ep0 => mkEndpoint (ep_node ep0) (ep_service ep0) act (ep_state ep0)
        | None => mkEndpoint node k act CLOSED
        end).
Proof.
  intros node k act eps. unfold getEndpointByNodeID, EndpointList_add.
  destruct (find (fun ep => String.eqb (ep_node ep) node) eps) as [ep0|] eqn:F.
  - assert (existsb (fun ep => String.eqb (ep_node ep) node) eps = true) as ->.
    { apply find_some in F as [Hin Hn]. apply existsb_exists. eauto. }
    rewrite find_map_stable.
    + rewrite F. simpl. apply find_some in F as [_ Hn]. now rewrite Hn.
    + intros x. now destruct (String.eqb (ep_node x) node) eqn:N.
  - assert (existsb (fun ep => String.eqb (ep_node ep) node) eps = false) as ->.
    { destruct (existsb _ eps) eqn:E; [|reflexivity].
      apply existsb_exists in E as (x & Hx & Hp).
      apply (find_none _ _ F) in Hx. congruence. }
    rewrite find_app, F. simpl. now rewrite String.eqb_refl.
Qed.

Lemma lookup_add_same : forall node k act eps,
  exists ep, getEndpointByNodeID node (EndpointList_add node k act eps) = Some ep /\
             ep_node ep = node /\ ep_action ep = act /\
             (getEndpointByNodeID node eps = None -> ep_service ep = k) /\
             (forall ep0, getEndpointByNodeID node eps = Some ep0 ->
                          ep_service ep = ep_service ep0).
Proof.
  intros node k act eps. rewrite lookup_add_exact.
  eexists. split; [reflexivity|].
  destruct (getEndpointByNodeID node eps) as [ep0|] eqn:F; simpl.
  - apply find_some in F as [_ Hn]. apply String.eqb_eq in Hn.
    repeat split; [assumption | discriminate|].
    intros ep1 E. now injection E as <-.
  - repeat split. intros ep1 E. discriminate E.
Qed.

Lemma lookup_snoc_same : forall node k act eps,
  getEndpointByNodeID node
    (removeByNodeID node eps ++ [mkEndpoint node k act CLOSED]) =
  Some (mkEndpoint node k act CLOSED).
Proof.
  intros node k act eps. rewrite <- add_rem.
  destruct (lookup_add_same node k act (removeByNodeID node eps))
    as (ep & F & _).
  rewrite add_rem in *. unfold getEndpointByNodeID in *. rewrite find_app in *.
  destruct (find _ (removeByNodeID node eps)) as [ep'|] eqn:F'.
  - apply find_some in F' as [Hin Hn]. apply filter_In in Hin as [_ Hin].
    now rewrite Hn in Hin.
  - simpl. now rewrite String.eqb_refl.
Qed.

(** A touch of the node's endpoint does not change what another node finds. *)
Lemma entry_lookup_touch_other : forall node nodeID t E,
  nodeID <> node ->
  entry_lookup nodeID (apply_touch node t E) = entry_lookup nodeID E.
Proof.
  intros node n' t E Hne.
  assert (forall eps, getEndpointByNodeID n' (removeByNodeID node eps) =
                      getEndpointByNodeID n' eps) as Hrem.
  { intros eps. rewrite getEndpointByNodeID_removeByNodeID.
    destruct (String.eqb_spec n' node); [contradiction | reflexivity]. }
  destruct t as [|[|]|k act [|]]; simpl.
  - reflexivity.
  - rewrite Hrem. now destruct E.
  - destruct E; simpl; [apply Hrem | reflexivity].
  - unfold getEndpointByNodeID at 1. rewrite find_app.
    fold (getEndpointByNodeID n' (removeByNodeID node (entry_or_empty E))).
    rewrite Hrem. destruct E as [eps|]; simpl.
    + destruct (getEndpointByNodeID n' eps); [reflexivity|].
      destruct (String.eqb_spec node n'); [congruence | reflexivity].
    + destruct (String.eqb_spec node n'); [congruence | reflexivity].
  - rewrite lookup_add_other by assumption. now destruct E.
Qed.

(** A placed endpoint is what the node itself finds. *)
Lemma entry_lookup_placed : forall node k act m E,
  exists ep, entry_lookup node (apply_touch node (Placed k act m) E) = Some ep /\
             ep_node ep = node /\ ep_action ep = act /\
             (entry_lookup node E = None -> ep_service ep = k) /\
             (m = false -> forall ep0, entry_lookup node E = Some ep0 ->
                                       ep_service ep = ep_service ep0).
Proof.
  intros node k act [|] E; simpl.
  - rewrite lookup_snoc_same. eexists. split; [reflexivity|]. simpl.
    repeat split. intros H. discriminate H.
  - destruct (lookup_add_same node k act (entry_or_empty E))
      as (ep & F & Hn & Ha & H1 & H2).
    exists ep. repeat split; auto.
    + intros HE. apply H1. now destruct E.
    + intros _ ep0 HE. apply H2. destruct E; [exact HE | discriminate HE].
Qed.

Lemma touch_adds_none : forall a k acts t,
  (forall kv, In kv acts -> action_name (snd kv) <> a) ->
  touch_adds a k acts t = t.
Proof.
  unfold touch_adds. induction acts as [|kv acts IH]; simpl; intros t H.
  - reflexivity.
  - destruct (String.eqb_spec a (action_name (snd kv))) as [E|_].
    + exfalso. apply (H kv); auto.
    + apply IH. intros kv' Hin. apply H. now right.
Qed.

Lemma touch_adds_placed : forall k acts kv t,
  NoDup (map (fun kv => action_name (snd kv)) acts) -> In kv acts ->
  touch_adds (action_name (snd kv)) k acts t = touch_add k (snd kv) t.
Proof.
  induction acts as [|kv0 acts IH]; intros kv t Hnd Hin; [destruct Hin|].
  inversion Hnd as [|? ? Hn Hnd']; subst.
  change (touch_adds (action_name (snd kv)) k (kv0 :: acts) t)
    with (touch_adds (action_name (snd kv)) k acts
            (if String.eqb (action_name (snd kv)) (action_name (snd kv0))
             then touch_add k (snd kv0) t else t)).
  destruct Hin as [->|Hin].
  - rewrite String.eqb_refl. apply touch_adds_none.
    intros kv' Hin' E. apply Hn. rewrite <- E.
    apply in_map_iff. exists kv'. auto.
  - destruct (String.eqb_spec (action_name (snd kv)) (action_name (snd kv0)))
      as [E|_]; [|now apply IH].
    exfalso. apply Hn. rewrite <- E. apply in_map_iff. exists kv. auto.
Qed.

Lemma addEndpoints_lookup_other : forall node k acts A a nodeID,
  nodeID <> node ->
  entry_lookup nodeID (actions_get a (addEndpoints node k acts A)) =
  entry_lookup nodeID (actions_get a A).
Proof.
  intros node k acts A a n' Hne.
  rewrite (@addEndpoints_touch node a k acts A Untouched (actions_get a A)
             eq_refl).
  now apply entry_lookup_touch_other.
Qed.

Lemma addEndpoints_lookup_same : forall node k acts A kv,
  NoDup (map (fun kv => action_name (snd kv)) acts) -> In kv acts ->
  exists ep,
    entry_lookup node (actions_get (action_name (snd kv))
                         (addEndpoints node k acts A)) = Some ep /\
    ep_node ep = node /\ ep_action ep = snd kv /\
    (entry_lookup node (actions_get (action_name (snd kv)) A) = None ->
     ep_service ep = k) /\
    (forall ep0,
       entry_lookup node (actions_get (action_name (snd kv)) A) = Some ep0 ->
       ep_service ep = ep_service ep0).
Proof.
  intros node k acts A kv Hnd Hin.
  rewrite (@addEndpoints_touch node (action_name (snd kv)) k acts A Untouched
             (actions_get (action_name (snd kv)) A) eq_refl).
  rewrite (@touch_adds_placed k acts kv Untouched Hnd Hin). simpl touch_add.
  destruct (entry_lookup_placed node k (snd kv) false
              (actions_get (action_name (snd kv)) A))
    as (ep & F & Hn & Ha & H1 & H2).
  exists ep. repeat split; auto.
Qed.

(** ** Registering a local service *)

(** X5: after [registerLocalService(svc)], for a descriptor whose actions
    have distinct names, every action of [svc] has an endpoint on the
    broker's own node that carries the descriptor; it belongs to the new
    service item when the broker's node had no endpoint for that action,
    and stays with its service otherwise.  The new item holds the name,
    version and settings of [svc] and the action under its name. *)
Theorem registerLocalService_lookup : forall svc r kv,
  distinct_names (svc_actions svc) = true -> In kv (svc_actions svc) ->
  let r' := registerLocalService svc r in
  let a := action_name (snd kv) in
  (exists ep,
     getActionEndpointByNodeId a (broker_nodeID r) r' = Some ep /\
     ep_node ep = broker_nodeID r /\ ep_action ep = snd kv /\
     (getActionEndpointByNodeId a (broker_nodeID r) r = None ->
      ep_service ep = next_sid r) /\
     (forall ep0, getActionEndpointByNodeId a (broker_nodeID r) r = Some ep0 ->
                  ep_service ep = ep_service ep0)) /\
  (exists t,
     In t (services r') /\ sid t = next_sid r /\
     service_node t = broker_nodeID r /\ service_name t = svc_name svc /\
     service_version t = svc_version svc /\
     service_settings t = svc_settings svc /\
     obj_get a (service_actions t) = Some (snd kv)).
Proof.
  intros svc r kv Hd Hin r' a.
  apply (nodupb_NoDup String.eqb) in Hd; [|apply String.eqb_refl].
  unfold r', a, registerLocalService, services_add.
  rewrite registerActions_eq. split.
  - unfold getActionEndpointByNodeId. simpl.
    apply (@addEndpoints_lookup_same (broker_nodeID r) (next_sid r)
             (svc_actions svc) (actions r) kv Hd Hin).
  - simpl. rewrite addActions_eq.
    exists (addActionsTo (svc_actions svc)
              (newService (broker_nodeID r) svc (next_sid r))).
    split.
    + unfold on_service. rewrite map_app. apply in_or_app. right. simpl.
      rewrite Nat.eqb_refl. now left.
    + rewrite addActionsTo_eq. simpl. repeat split.
      now apply setAll_get.
Qed.

Lemma registerLocalService_lookup_witness :
  (exists ep,
     getActionEndpointByNodeId "users.get" "node-local"
       (registerLocalService users_schema sample_cluster) = Some ep /\
     ep_node ep = "node-local" /\ ep_service ep = 2 /\
     ep_action ep = mkAction "users.get" [("cache", JBool true)]) /\
  (exists ep,
     getActionEndpointByNodeId "math.add" "node-local"
       (registerLocalService sample_local_schema sample_cluster) = Some ep /\
     ep_service ep = 0).
Proof.
  assert (H1 : distinct_names (svc_actions users_schema) = true)
    by (vm_compute; reflexivity).
  assert (H2 : distinct_names (svc_actions sample_local_schema) = true)
    by (vm_compute; reflexivity).
  pose proof (@registerLocalService_lookup users_schema sample_cluster
                ("users.get", mkAction "users.get" [("cache", JBool true)])
                H1 (or_introl eq_refl)) as Hu.
  pose proof (@registerLocalService_lookup sample_local_schema sample_cluster
                ("math.add", sample_local_action)
                H2 (or_introl eq_refl)) as Hm.
  cbv zeta in Hu, Hm.
  destruct Hu as [(ep & E & Hn & Ha & Hnew & _) _].
  destruct Hm as [(ep' & E' & _ & _ & _ & Hold) _].
  split.
  - exists ep. repeat split; try assumption.
    apply Hnew. vm_compute. reflexivity.
  - exists ep'. split; [exact E'|].
    rewrite (Hold (mkEndpoint "node-local" 0 sample_local_action CLOSED));
      [reflexivity|]. vm_compute. reflexivity.
Defined.

(** X6: in a well-formed registry, [registerLocalService(svc)] appends one
    service item and leaves the others as they were, changes no endpoint of
    another node, and neither the node catalog nor the broker calls. *)
Theorem registerLocalService_frame : forall svc r,
  registry_wfb r = true ->
  let r' := registerLocalService svc r in
  services r' =
    services r ++ [addActionsTo (svc_actions svc)
                     (newService (broker_nodeID r) svc (next_sid r))] /\
  next_sid r' = S (next_sid r) /\
  (forall a nodeID, nodeID <> broker_nodeID r ->
     getActionEndpointByNodeId a nodeID r' =
     getActionEndpointByNodeId a nodeID r) /\
  nodes r' = nodes r /\ broker_calls r' = broker_calls r /\
  broker_nodeID r' = broker_nodeID r.
Proof.
  intros svc r Hwfb r'. apply registry_wfb_sound in Hwfb.
  unfold r', registerLocalService, services_add.
  rewrite registerActions_eq. simpl. repeat split.
  - rewrite addActions_eq. unfold on_service. rewrite map_app. simpl.
    rewrite Nat.eqb_refl. f_equal.
    apply on_service_fresh. intros s Hs E.
    pose proof (wf_fresh Hwfb) as Hfresh. apply Hfresh in Hs. lia.
  - intros a n' Hne. unfold getActionEndpointByNodeId. simpl.
    now apply addEndpoints_lookup_other.
Qed.

Lemma registerLocalService_frame_witness :
  getActionEndpointByNodeId "posts.find" "node-1"
    (registerLocalService posts_v1 sample_cluster) =
  getActionEndpointByNodeId "posts.find" "node-1" sample_cluster /\
  getActionEndpointByNodeId "posts.find" "node-local"
    (registerLocalService posts_v1 sample_cluster) <> None.
Proof.
  split; [|vm_compute; discriminate].
  apply (@registerLocalService_frame posts_v1 sample_cluster);
    [reflexivity | discriminate].
Defined.

(** ** Unregistering a service *)

Lemma lookup_removeByService_other : forall r s a nodeID,
  registry_wf r -> In s (services r) -> nodeID <> service_node s ->
  entry_lookup nodeID
    (actions_get a (actions_removeByService (sid s) (actions r))) =
  entry_lookup nodeID (actions_get a (actions r)).
Proof.
  intros r s a n' Hwf Hs Hne. rewrite actions_get_removeByService.
  destruct (actions_get a (actions r)) as [eps|] eqn:G; [|reflexivity].
  simpl. unfold getEndpointByNodeID, EndpointList_removeByService.
  apply find_filter_In. intros ep Hep Hn. apply String.eqb_eq in Hn.
  apply negb_true_iff. apply Nat.eqb_neq. intros E.
  pose proof (wf_owner Hwf) as Hown.
  destruct (Hown a eps ep G Hep) as (t & Ht & E1 & E2 & _).
  assert (t = s) as -> by (apply (NoDup_map_inj sid (services r));
                           auto; [apply Hwf | congruence]).
  congruence.
Qed.



(** ** What a disconnection leaves alone *)

Lemma lookup_removeServices_other : forall r gone node a nodeID,
  registry_wf r ->
  (forall g, In g gone -> In g (services r) /\ service_node g = node) ->
  nodeID <> node ->
  entry_lookup nodeID (actions_get a (removeServices gone (actions r))) =
  entry_lookup nodeID (actions_get a (actions r)).
Proof.
  intros r gone node a n' Hwf Hgone Hne. rewrite removeServices_get_eq.
  destruct (actions_get a (actions r)) as [eps|] eqn:G; [|reflexivity].
  simpl. unfold getEndpointByNodeID. apply find_filter_In.
  intros ep Hep Hn. apply String.eqb_eq in Hn.
  unfold survives. apply negb_true_iff.
  destruct (existsb _ gone) eqn:E; [|reflexivity]. exfalso.
  apply existsb_exists in E as (g & Hg & Es). apply Nat.eqb_eq in Es.
  destruct (Hgone g Hg) as [Hgs Hgn].
  pose proof (wf_owner Hwf) as Hown.
  destruct (Hown a eps ep G Hep) as (t & Ht & E1 & E2 & _).
  assert (t = g) as -> by (apply (NoDup_map_inj sid (services r));
                           auto; [apply Hwf | congruence]).
  congruence.
Qed.

(** X8: in a well-formed registry, [nodeDisconnected(n, u)] changes nothing
    that belongs to another node: the other nodes keep their availability,
    their service items and their endpoints. *)
Theorem nodeDisconnected_frame : forall nodeID u r,
  registry_wfb r = true ->
  let r' := nodeDisconnected nodeID u r in
  (forall n', n' <> nodeID -> nodes_get n' (nodes r') = nodes_get n' (nodes r)) /\
  (forall t, In t (services r) -> service_node t <> nodeID ->
             In t (services r')) /\
  (forall t, In t (services r') -> In t (services r)) /\
  (forall a n', n' <> nodeID ->
     getActionEndpointByNodeId a n' r' = getActionEndpointByNodeId a n' r) /\
  broker_nodeID r' = broker_nodeID r.
Proof.
  intros n u r Hwfb r'. apply registry_wfb_sound in Hwfb.
  unfold r', nodeDisconnected.
  destruct (nodes_get n (nodes r)) as [node|] eqn:G;
    [|repeat split; auto].
  destruct (node_available node); [|repeat split; auto].
  assert (node_id node = n) as ->.
  { apply find_some in G as [_ E]. now apply String.eqb_eq in E. }
  simpl. split; [|split; [|split; [|split]]].
  - intros n' Hne. unfold nodes_get, disconnected.
    apply find_map_fixed; intros x.
    + now destruct (String.eqb (node_id x) n).
    + intros Hx. apply String.eqb_eq in Hx.
      destruct (String.eqb_spec (node_id x) n); [congruence | reflexivity].
  - intros t Ht Hn. apply filter_In. split; [assumption|].
    apply negb_true_iff. now apply String.eqb_neq.
  - intros t Ht. now apply filter_In in Ht.
  - intros a n' Hne. unfold getActionEndpointByNodeId. simpl.
    apply (@lookup_removeServices_other r
             (filter (fun s => String.eqb (service_node s) n) (services r))
             n a n' Hwfb); [|assumption].
    intros g Hg. apply filter_In in Hg as [Hg E].
    now apply String.eqb_eq in E.
  - reflexivity.
Qed.

Lemma nodeDisconnected_frame_witness :
  getActionEndpointByNodeId "posts.find" "node-1"
    (nodeDisconnected "node-local" true sample_cluster) =
  getActionEndpointByNodeId "posts.find" "node-1" sample_cluster /\
  getActionEndpointByNodeId "math.add" "node-local"
    (nodeDisconnected "node-local" true sample_cluster) = None /\
  getActionEndpointByNodeId "math.add" "node-local" sample_cluster <> None.
Proof.
  split; [|split; [reflexivity | vm_compute; discriminate]].
  apply (@nodeDisconnected_frame "node-local" true sample_cluster);
    [reflexivity | discriminate].
Defined.

(** ** What [registerServices] leaves alone *)

Lemma getActionEndpointByNodeId_eq : forall a nodeID r,
  getActionEndpointByNodeId a nodeID r =
  entry_lookup nodeID (actions_get a (actions r)).
Proof. reflexivity. Qed.

Lemma filter_map_fixed : forall A (q : A -> bool) (g : A -> A) l,
  (forall x, In x l -> q (g x) = q x) ->
  (forall x, In x l -> q x = true -> g x = x) ->
  filter q (map g l) = filter q l.
Proof.
  intros A q g l. induction l as [|x l IH]; simpl; intros H1 H2; [reflexivity|].
  rewrite (H1 x (or_introl eq_refl)).
  destruct (q x) eqn:Q.
  - rewrite (H2 x (or_introl eq_refl) Q). f_equal.
    apply IH; intros y Hy; [apply H1 | apply H2]; now right.
  - apply IH; intros y Hy; [apply H1 | apply H2]; now right.
Qed.

Lemma others_registerService : forall node r svc,
  registry_wf r ->
  filter (fun t => negb (String.eqb (service_node t) node))
         (services (registerService node r svc)) =
  filter (fun t => negb (String.eqb (service_node t) node)) (services r).
Proof.
  intros node r svc Hwf. rewrite services_registerService by assumption.
  destruct (services_get (svc_name svc) (svc_version svc) node (services r))
    as [s|] eqn:G.
  - apply services_get_some in G as (Hs & _ & _ & Hn).
    pose proof (grows_on_service (sid s) (grows_applySchema svc)) as Hg.
    unfold on_service. apply filter_map_fixed.
    + intros x _. now destruct (Hg x) as (_ & _ & _ & -> & _).
    + intros x Hx Hq. destruct (Nat.eqb_spec (sid x) (sid s)) as [E|E];
        [|reflexivity].
      assert (x = s) as -> by (apply (NoDup_map_inj sid (services r));
                               auto; apply Hwf).
      rewrite Hn, String.eqb_refl in Hq. discriminate.
  - rewrite filter_app. simpl. rewrite applySchema_eq. simpl.
    rewrite String.eqb_refl. simpl. apply app_nil_r.
Qed.

Lemma others_fold_registerService : forall node L r,
  registry_wf r ->
  filter (fun t => negb (String.eqb (service_node t) node))
         (services (fold_left (registerService node) L r)) =
  filter (fun t => negb (String.eqb (service_node t) node)) (services r).
Proof.
  induction L as [|svc L IH]; simpl; intros r Hwf; [reflexivity|].
  rewrite IH by (now apply wf_registerService).
  now apply others_registerService.
Qed.

Lemma filter_filter_fixed : forall A (p q : A -> bool) l,
  (forall x, In x l -> p x = true -> q x = true) ->
  filter p (filter q l) = filter p l.
Proof.
  intros A p q. induction l as [|x l IH]; simpl; intros H; [reflexivity|].
  assert (filter p (filter q l) = filter p l) as IH'
    by (apply IH; intros y Hy; apply H; now right).
  destruct (q x) eqn:Q; simpl.
  - now rewrite IH'.
  - destruct (p x) eqn:P; [|exact IH'].
    rewrite (H x (or_introl eq_refl) P) in Q. discriminate.
Qed.

Lemma or_broker_nodeID_some : forall node r,
  node <> "" -> or_broker_nodeID (Some node) r = node.
Proof.
  intros node r Hne. unfold or_broker_nodeID.
  destruct (String.eqb_spec node ""); [contradiction | reflexivity].
Qed.

(** One callback of the second loop, for a node with a non-empty id:
    nothing of another node changes. *)
Lemma frame_removeOldService : forall node L x t,
  registry_wf x -> node <> "" ->
  let x' := removeOldService node L x t in
  filter (fun t => negb (String.eqb (service_node t) node)) (services x') =
  filter (fun t => negb (String.eqb (service_node t) node)) (services x) /\
  (forall a n', n' <> node ->
     entry_lookup n' (actions_get a (actions x')) =
     entry_lookup n' (actions_get a (actions x))) /\
  nodes x' = nodes x /\ broker_calls x' = broker_calls x /\
  broker_nodeID x' = broker_nodeID x.
Proof.
  intros node L x t Hwf Hne. unfold removeOldService.
  destruct (negb (String.eqb (service_node t) node)); [simpl; auto|].
  destruct (existsb _ L); [simpl; auto|].
  unfold unregisterService. rewrite or_broker_nodeID_some by assumption.
  unfold services_remove.
  destruct (services_get (service_name t) (service_version t) node (services x))
    as [s|] eqn:G; [|simpl; auto].
  apply services_get_some in G as (Hs & _ & _ & Hn).
  simpl. split; [|split; [|auto]].
  - apply filter_filter_fixed. intros y Hy Hq.
    apply negb_true_iff. apply Nat.eqb_neq. intros E.
    assert (y = s) as -> by (apply (NoDup_map_inj sid (services x));
                             auto; apply Hwf).
    rewrite Hn, String.eqb_refl in Hq. discriminate.
  - intros a n' Hne'. apply lookup_removeByService_other; auto.
    now rewrite Hn.
Qed.

(** X9: in a well-formed registry, for a node with a non-empty id,
    [registerServices(n, L)] changes nothing that belongs to another node:
    the service items of the other nodes are the same, in the same order,
    their endpoints are found as before, and the node catalog and the broker
    calls are untouched. *)
Theorem registerServices_frame : forall node L r,
  registry_wfb r = true -> String.eqb node "" = false ->
  let r' := registerServices node L r in
  filter (fun t => negb (String.eqb (service_node t) node)) (services r') =
  filter (fun t => negb (String.eqb (service_node t) node)) (services r) /\
  (forall a n', n' <> node ->
     getActionEndpointByNodeId a n' r' = getActionEndpointByNodeId a n' r) /\
  nodes r' = nodes r /\ broker_calls r' = broker_calls r /\
  broker_nodeID r' = broker_nodeID r.
Proof.
  intros node L r Hwfb Hnode r'. apply registry_wfb_sound in Hwfb.
  apply String.eqb_neq in Hnode.
  pose proof (wf_fold_registerService node L Hwfb) as Hwff.
  destruct (fold_registerService_fields node L r) as (F1 & F2 & F3).
  set (rf := fold_left (registerService node) L r) in *.
  assert (Hrf : filter (fun t => negb (String.eqb (service_node t) node))
                       (services rf) =
                filter (fun t => negb (String.eqb (service_node t) node))
                       (services r) /\
                forall a n', n' <> node ->
                  entry_lookup n' (actions_get a (actions rf)) =
                  entry_lookup n' (actions_get a (actions r))).
  { split; [apply (others_fold_registerService node L Hwfb)|].
    intros a n' Hne. unfold rf. rewrite actions_fold_registerService.
    rewrite (@run_plan_touch node a (plan_of node L r) (actions r)
               Untouched (actions_get a (actions r)) eq_refl).
    now apply entry_lookup_touch_other. }
  destruct Hrf as [Hs Ha].
  assert (registry_wf r' /\
          filter (fun t => negb (String.eqb (service_node t) node))
                 (services r') =
          filter (fun t => negb (String.eqb (service_node t) node))
                 (services rf) /\
          (forall a n', n' <> node ->
             entry_lookup n' (actions_get a (actions r')) =
             entry_lookup n' (actions_get a (actions rf))) /\
          nodes r' = nodes rf /\ broker_calls r' = broker_calls rf /\
          broker_nodeID r' = broker_nodeID rf) as (_ & Ls & La & L1 & L2 & L3).
  { unfold r', registerServices. fold rf.
    apply (@live_loop_ind
             (fun x => registry_wf x /\
                filter (fun t => negb (String.eqb (service_node t) node))
                       (services x) =
                filter (fun t => negb (String.eqb (service_node t) node))
                       (services rf) /\
                (forall a n', n' <> node ->
                   entry_lookup n' (actions_get a (actions x)) =
                   entry_lookup n' (actions_get a (actions rf))) /\
                nodes x = nodes rf /\ broker_calls x = broker_calls rf /\
                broker_nodeID x = broker_nodeID rf) node L).
    - intros x t (Hwx & Xs & Xa & X1 & X2 & X3) _.
      destruct (@frame_removeOldService node L x t Hwx Hnode)
        as (Ys & Ya & Y1 & Y2 & Y3).
      split; [now apply wf_removeOldService|].
      split; [congruence|]. split; [|repeat split; congruence].
      intros a n' Hne. rewrite Ya by assumption. now apply Xa.
    - split; [exact Hwff|]. repeat split; auto. }
  split; [congruence|]. split; [|repeat split; congruence].
  intros a n' Hne. rewrite !getActionEndpointByNodeId_eq.
  rewrite La by assumption. now apply Ha.
Qed.

Lemma registerServices_frame_witness :
  getActionEndpointByNodeId "math.add" "node-local"
    (registerServices "node-1" [users_schema] sample_cluster) =
  getActionEndpointByNodeId "math.add" "node-local" sample_cluster /\
  registerServices "node-1" [users_schema] sample_cluster <> sample_cluster.
Proof.
  split; [|vm_compute; discriminate].
  assert (H1 : registry_wfb sample_cluster = true) by (vm_compute; reflexivity).
  assert (H2 : String.eqb "node-1" "" = false) by reflexivity.
  pose proof (@registerServices_frame "node-1" [users_schema] sample_cluster
                H1 H2) as H.
  cbv zeta in H. destruct H as (_ & H & _).
  apply H. discriminate.
Defined.

(** ** The first service list of a node *)

Lemma touch_adds_keeps_placed : forall a k acts t,
  (exists k' act m, t = Placed k' act m) ->
  exists k' act m, touch_adds a k acts t = Placed k' act m.
Proof.
  unfold touch_adds. induction acts as [|kv acts IH]; simpl; intros t H.
  - exact H.
  - apply IH. destruct (String.eqb a (action_name (snd kv))); [|exact H].
    destruct H as (k' & act & m & ->). simpl. eauto.
Qed.

Lemma touch_adds_places : forall a k acts t kv,
  In kv acts -> action_name (snd kv) = a ->
  exists k' act m, touch_adds a k acts t = Placed k' act m.
Proof.
  induction acts as [|kv0 acts IH]; intros t kv Hin Ha; [destruct Hin|].
  change (touch_adds a k (kv0 :: acts) t)
    with (touch_adds a k acts
            (if String.eqb a (action_name (snd kv0))
             then touch_add k (snd kv0) t else t)).
  destruct Hin as [->|Hin].
  - rewrite Ha, String.eqb_refl. apply touch_adds_keeps_placed.
    destruct t as [|c|k' a' m]; simpl; eauto.
  - now apply (IH _ kv).
Qed.

Lemma touch_plan_places : forall a plan t,
  (forall st, In st plan -> st_old st = []) ->
  (exists k act m, t = Placed k act m) \/
  (exists st kv, In st plan /\ In kv (st_acts st) /\ action_name (snd kv) = a) ->
  exists k act m, touch_plan a plan t = Placed k act m.
Proof.
  unfold touch_plan. induction plan as [|st plan IH]; simpl; intros t Hold H.
  - destruct H as [H|(st & kv & [] & _)]. exact H.
  - assert (touch_step a t st = touch_adds a (st_sid st) (st_acts st) t) as E.
    { unfold touch_step. now rewrite (Hold st (or_introl eq_refl)). }
    apply IH; [intros st' Hin; apply Hold; now right|].
    rewrite E. destruct H as [H|(st' & kv & [<-|Hin] & Hkv & Ha)].
    + left. now apply touch_adds_keeps_placed.
    + left. now apply (@touch_adds_places a (st_sid st) (st_acts st) t kv).
    + right. exists st', kv. auto.
Qed.

Lemma item_persists : forall node r svc t,
  registry_wf r -> In t (services r) ->
  exists t', In t' (services (registerService node r svc)) /\
             sid t' = sid t /\ service_name t' = service_name t /\
             service_version t' = service_version t /\
             service_node t' = service_node t /\
             incl (obj_keys (service_actions t)) (obj_keys (service_actions t')).
Proof.
  intros node r svc t Hwf Ht. rewrite services_registerService by assumption.
  destruct (services_get _ _ _ _) as [s|].
  - pose proof (grows_on_service (sid s) (grows_applySchema svc)) as Hg.
    eexists. split; [unfold on_service; apply in_map, Ht|]. apply Hg.
  - exists t. repeat split; auto; [apply in_or_app; now left | apply incl_refl].
Qed.

Lemma matched_fold_registerService : forall node Lall L r,
  registry_wf r -> incl L Lall ->
  (forall t, In t (services r) -> service_node t = node ->
             existsb (fun svc => equals t (svc_name svc) (svc_version svc))
                     Lall = true) ->
  forall t, In t (services (fold_left (registerService node) L r)) ->
            service_node t = node ->
            existsb (fun svc => equals t (svc_name svc) (svc_version svc))
                    Lall = true.
Proof.
  induction L as [|svc L IH]; simpl; intros r Hwf Hincl H; [exact H|].
  apply IH.
  - now apply wf_registerService.
  - intros x Hx. apply Hincl. now right.
  - intros t Ht Hn. rewrite services_registerService in Ht by assumption.
    destruct (services_get (svc_name svc) (svc_version svc) node (services r))
      as [s|].
    + pose proof (grows_on_service (sid s) (grows_applySchema svc)) as Hg.
      unfold on_service in Ht. apply in_map_iff in Ht as (t0 & <- & Ht0).
      destruct (Hg t0) as (_ & E2 & E3 & E4 & _). rewrite E4 in Hn.
      unfold equals. rewrite E2, E3. now apply H.
    + apply in_app_or in Ht as [Ht|[<-|[]]]; [now apply H|].
      apply existsb_exists. exists svc. split; [apply Hincl; now left|].
      rewrite applySchema_eq. unfold equals. simpl.
      now rewrite String.eqb_refl, jsval_eqb_refl.
Qed.

Lemma registered_fold_registerService : forall node L r svc,
  registry_wf r ->
  (exists t, In t (services r) /\ service_node t = node /\
             equals t (svc_name svc) (svc_version svc) = true) ->
  exists t, In t (services (fold_left (registerService node) L r)) /\
            service_node t = node /\
            equals t (svc_name svc) (svc_version svc) = true.
Proof.
  induction L as [|svc' L IH]; simpl; intros r svc Hwf H; [exact H|].
  apply IH; [now apply wf_registerService|].
  destruct H as (t & Ht & Hn & M).
  destruct (@item_persists node r svc' t Hwf Ht)
    as (t' & Ht' & _ & E2 & E3 & E4 & _).
  exists t'. repeat split; [assumption | congruence|].
  unfold equals in *. now rewrite E2, E3.
Qed.

Lemma fresh_plan : forall node L r,
  registry_wf r -> distinct_services L = true ->
  (forall t svc, In t (services r) -> service_node t = node -> In svc L ->
                 equals t (svc_name svc) (svc_version svc) = false) ->
  (forall st, In st (plan_of node L r) -> st_old st = []) /\
  (forall svc kv, In svc L -> In kv (svc_actions svc) ->
     exists st, In st (plan_of node L r) /\ In kv (st_acts st)) /\
  (forall svc, In svc L ->
     exists t, In t (services (fold_left (registerService node) L r)) /\
               service_node t = node /\
               equals t (svc_name svc) (svc_version svc) = true).
Proof.
  induction L as [|svc L IH]; simpl; intros r Hwf Hd Hnew.
  - repeat split; intros; contradiction.
  - destruct (distinct_services_cons _ _ Hd) as [Hdiff Hd'].
    assert (services_get (svc_name svc) (svc_version svc) node (services r)
            = None) as G.
    { destruct (services_get _ _ _ _) as [t|] eqn:G; [|reflexivity].
      exfalso. apply find_some in G as [Ht M].
      apply andb_true_iff in M as [M Mn]. apply String.eqb_eq in Mn.
      rewrite (Hnew t svc Ht Mn (or_introl eq_refl)) in M. discriminate. }
    pose proof (wf_registerService node svc Hwf) as Hwf1.
    assert (services (registerService node r svc) =
            services r ++ [applySchema svc (newService node svc (next_sid r))])
      as Es by (rewrite services_registerService, G; auto).
    destruct (IH (registerService node r svc) Hwf1 Hd') as (I1 & I2 & I3).
    { intros t svc' Ht Hn Hin. rewrite Es in Ht.
      apply in_app_or in Ht as [Ht|[<-|[]]].
      - apply (Hnew t svc' Ht Hn). now right.
      - rewrite applySchema_eq. unfold equals. simpl.
        now apply Hdiff. }
    assert (step_of node r svc = mkStep (next_sid r) (svc_actions svc) [])
      as Est by (unfold step_of; now rewrite G).
    split; [|split].
    + intros st [<-|Hin]; [now rewrite Est | now apply I1].
    + intros svc' kv [<-|Hin] Hkv.
      * exists (step_of node r svc). split; [now left | now rewrite Est].
      * destruct (I2 svc' kv Hin Hkv) as (st & Hst & H). exists st. auto.
    + intros svc' [<-|Hin]; [|now apply I3].
      apply registered_fold_registerService; [assumption|].
      exists (applySchema svc (newService node svc (next_sid r))).
      split; [rewrite Es; apply in_or_app; right; now left|].
      rewrite applySchema_eq. unfold equals. simpl.
      now rewrite String.eqb_refl, jsval_eqb_refl.
Qed.

(** X10: in a well-formed registry that holds no service of node [n], after
    [registerServices(n, L)] with descriptors of distinct services, every
    service of [L] is in the catalog for [n] and every action of every
    descriptor has an endpoint on [n]; nothing is unregistered. *)
Theorem registerServices_first_list : forall node L r svc,
  registry_wfb r = true ->
  forallb (fun t => negb (String.eqb (service_node t) node)) (services r)
    = true ->
  distinct_services L = true -> In svc L ->
  let r' := registerServices node L r in
  r' = fold_left (registerService node) L r /\
  (exists t, In t (services r') /\ service_node t = node /\
             equals t (svc_name svc) (svc_version svc) = true) /\
  (forall kv, In kv (svc_actions svc) ->
     exists ep, getActionEndpointByNodeId (action_name (snd kv)) node r'
                  = Some ep /\ ep_node ep = node) /\
  (forall t, In t (services r) -> In t (services r')).
Proof.
  intros node L r svc Hwfb Hnone Hd Hsvc r'.
  apply registry_wfb_sound in Hwfb. rewrite forallb_forall in Hnone.
  assert (forall t, In t (services r) -> service_node t <> node) as Hnone'.
  { intros t Ht E. specialize (Hnone t Ht).
    rewrite E, String.eqb_refl in Hnone. discriminate. }
  destruct (@fresh_plan node L r Hwfb Hd) as (P1 & P2 & P3).
  { intros t svc' Ht Hn _. exfalso. exact (Hnone' t Ht Hn). }
  assert (r' = fold_left (registerService node) L r) as Er.
  { unfold r', registerServices. apply fold_removeOldService_kept.
    intros t Ht. unfold keptService.
    destruct (String.eqb_spec (service_node t) node) as [Hn|Hn];
      [|reflexivity].
    simpl. apply (@matched_fold_registerService node L L r Hwfb);
      [apply incl_refl | | assumption | assumption].
    intros t0 Ht0 Hn0. exfalso. exact (Hnone' t0 Ht0 Hn0). }
  split; [exact Er|]. rewrite Er. split; [now apply P3|]. split.
  - intros kv Hkv. rewrite getActionEndpointByNodeId_eq.
    rewrite actions_fold_registerService.
    rewrite (@run_plan_touch node (action_name (snd kv)) (plan_of node L r)
               (actions r) Untouched
               (actions_get (action_name (snd kv)) (actions r)) eq_refl).
    destruct (@touch_plan_places (action_name (snd kv)) (plan_of node L r)
                Untouched P1) as (k & act & m & ->).
    { right. destruct (P2 svc kv Hsvc Hkv) as (st & Hst & H).
      exists st, kv. auto. }
    destruct (entry_lookup_placed node k act m
                (actions_get (action_name (snd kv)) (actions r)))
      as (ep & E & Hn & _).
    exists ep. auto.
  - intros t Ht.
    assert (In t (filter (fun t => negb (String.eqb (service_node t) node))
                         (services r))) as Hf.
    { apply filter_In. split; [assumption|]. now apply Hnone. }
    rewrite <- (others_fold_registerService node L Hwfb) in Hf.
    now apply filter_In in Hf.
Qed.

Lemma registerServices_first_list_witness :
  exists ep,
    getActionEndpointByNodeId "posts.count" "node-2"
      (registerServices "node-2" [posts_v1; users_schema] sample_cluster)
      = Some ep /\ ep_node ep = "node-2".
Proof.
  assert (registry_wfb sample_cluster = true) as Hwf by (vm_compute; reflexivity).
  assert (forallb (fun t => negb (String.eqb (service_node t) "node-2"))
                  (services sample_cluster) = true) as Hnone
    by (vm_compute; reflexivity).
  assert (distinct_services [posts_v1; users_schema] = true) as Hd
    by (vm_compute; reflexivity).
  pose proof (@registerServices_first_list "node-2" [posts_v1; users_schema]
                sample_cluster posts_v1 Hwf Hnone Hd (or_introl eq_refl)) as H.
  cbv zeta in H. destruct H as (_ & _ & H & _).
  exact (H ("posts.count", mkAction "posts.count" [])
           (or_intror (or_introl eq_refl))).
Defined.

(** ** At most one endpoint per node, at most one item per service *)

Lemma endpoints_uniqueb_sound : forall A,
  endpoints_uniqueb A = true -> endpoints_unique A.
Proof.
  intros A H a eps G. apply obj_get_In in G.
  unfold endpoints_uniqueb in H. rewrite forallb_forall in H.
  specialize (H _ G). simpl in H.
  apply (nodupb_NoDup String.eqb); [apply String.eqb_refl | exact H].
Qed.

Lemma NoDup_nodes_add : forall node k act eps,
  NoDup (map ep_node eps) ->
  NoDup (map ep_node (EndpointList_add node k act eps)).
Proof.
  intros node k act eps H. unfold EndpointList_add.
  destruct (existsb _ eps) eqn:E.
  - rewrite map_map. erewrite map_ext; [exact H|].
    intros ep. now destruct (String.eqb (ep_node ep) node).
  - rewrite map_app. simpl. apply NoDup_snoc; [assumption|].
    intros Hin. apply in_map_iff in Hin as (ep & Hn & Hep).
    assert (existsb (fun ep0 => String.eqb (ep_node ep0) node) eps = true).
    { apply existsb_exists. exists ep. split; [assumption|].
      now apply String.eqb_eq. }
    congruence.
Qed.

Lemma unique_actions_add : forall node k act A,
  endpoints_unique A -> endpoints_unique (actions_add node k act A).
Proof.
  intros node k act A H a eps G. rewrite actions_get_add in G.
  destruct (String.eqb a (action_name act)); [|now apply (H a)].
  injection G as <-. apply NoDup_nodes_add.
  destruct (actions_get (action_name act) A) as [eps0|] eqn:G0.
  - now apply (H (action_name act)).
  - constructor.
Qed.

Lemma unique_actions_remove : forall name nodeID A,
  endpoints_unique A -> endpoints_unique (actions_remove name nodeID A).
Proof.
  intros name n A H a eps G. rewrite actions_get_remove in G.
  destruct (String.eqb a name) eqn:E; [|now apply (H a)].
  apply String.eqb_eq in E. subst a.
  destruct (actions_get name A) as [eps0|] eqn:G0; [|discriminate].
  injection G as <-. apply NoDup_map_filter. now apply (H name).
Qed.

Lemma unique_removeByService : forall service A,
  endpoints_unique A -> endpoints_unique (actions_removeByService service A).
Proof.
  intros service A H a eps G. rewrite actions_get_removeByService in G.
  destruct (actions_get a A) as [eps0|] eqn:G0; [|discriminate].
  injection G as <-. apply NoDup_map_filter. now apply (H a).
Qed.

Lemma unique_removeServices : forall gone A,
  endpoints_unique A -> endpoints_unique (removeServices gone A).
Proof.
  unfold removeServices. induction gone as [|s gone IH]; simpl; intros A H.
  - exact H.
  - apply IH. now apply unique_removeByService.
Qed.

Lemma unique_run_step : forall node st A,
  endpoints_unique A -> endpoints_unique (run_step node A st).
Proof.
  intros node st A H. unfold run_step.
  assert (forall names A0, endpoints_unique A0 ->
            endpoints_unique (removeEndpoints node names A0)) as Hrem.
  { unfold removeEndpoints. induction names as [|k names IH]; simpl;
      intros A0 H0; [exact H0|].
    apply IH. now apply unique_actions_remove. }
  apply Hrem. unfold addEndpoints. generalize dependent A.
  induction (st_acts st) as [|kv acts IH]; simpl; intros A H; [exact H|].
  apply IH. now apply unique_actions_add.
Qed.

Lemma unique_registerServices : forall node L r,
  endpoints_unique (actions r) ->
  endpoints_unique (actions (registerServices node L r)).
Proof.
  intros node L r H. unfold registerServices.
  apply (@live_loop_ind (fun x => endpoints_unique (actions x)) node L).
  - intros x t Hx _. unfold removeOldService.
    destruct (negb (String.eqb (service_node t) node)); [assumption|].
    destruct (existsb _ L); [assumption|].
    unfold unregisterService, services_remove.
    destruct (services_get _ _ _ _); [|assumption].
    simpl. now apply unique_removeByService.
  - rewrite actions_fold_registerService. unfold run_plan.
    generalize dependent (actions r).
    induction (plan_of node L r) as [|st plan IH]; simpl; intros A HA;
      [exact HA|].
    apply IH. now apply unique_run_step.
Qed.

Lemma wf_ext : forall r r',
  services r' = services r -> next_sid r' = next_sid r ->
  actions r' = actions r -> registry_wf r -> registry_wf r'.
Proof.
  intros r r' Es En Ea [Hget Hsids Hfresh Hkeys Hown].
  constructor; rewrite ?Es, ?En, ?Ea; assumption.
Qed.

Lemma wf_removeAllByNodeID : forall nodeID r,
  registry_wf r -> registry_wf (services_removeAllByNodeID nodeID r).
Proof.
  intros n r Hwf. pose proof Hwf as [Hget Hsids Hfresh Hkeys Hown].
  unfold services_removeAllByNodeID. constructor; simpl.
  - intros t Ht. apply filter_In in Ht as [Ht Hq].
    unfold services_get. apply find_filter_Some; [|assumption].
    now apply Hget.
  - now apply NoDup_map_filter.
  - intros t Ht. apply filter_In in Ht as [Ht _]. now apply Hfresh.
  - fold (removeServices
            (filter (fun s => String.eqb (service_node s) n) (services r))
            (actions r)).
    now rewrite removeServices_keys.
  - intros a eps ep Hg Hep.
    destruct (@removeServices_get _ _ a eps ep Hg Hep)
      as (eps0 & H0 & Hep0 & Hgone).
    destruct (Hown a eps0 ep H0 Hep0) as (t & Ht & E1 & E2 & Hk).
    exists t. repeat split; auto. apply filter_In. split; [assumption|].
    apply negb_true_iff. destruct (String.eqb (service_node t) n) eqn:E;
      [|reflexivity].
    exfalso. apply (Hgone t); [|now symmetry].
    apply filter_In. auto.
Qed.

Lemma wf_nodeDisconnected : forall nodeID u r,
  registry_wf r -> registry_wf (nodeDisconnected nodeID u r).
Proof.
  intros n u r Hwf. unfold nodeDisconnected.
  destruct (nodes_get n (nodes r)) as [node|]; [|assumption].
  destruct (node_available node); [|assumption].
  unfold unregisterServicesByNode.
  eapply wf_ext; [| | |apply (wf_removeAllByNodeID (node_id node) Hwf)];
    reflexivity.
Qed.

Lemma wf_processNodeInfo : forall payload r,
  registry_wf r -> registry_wf (snd (processNodeInfo payload r)).
Proof.
  intros payload r Hwf. unfold processNodeInfo, nodes_processNodeInfo. simpl.
  apply wf_registerServices.
  destruct (match nodes_get (sender payload) (nodes r) with
            | Some n => node_available n | None => false end);
    (eapply wf_ext; [| | |exact Hwf]; reflexivity).
Qed.

Lemma wf_call : forall c r, registry_wf r -> registry_wf (call r c).
Proof.
  intros [node L|payload|n u|name version nodeID|n|node name] r Hwf; simpl.
  - now apply wf_registerServices.
  - now apply wf_processNodeInfo.
  - now apply wf_nodeDisconnected.
  - now apply wf_services_remove.
  - now apply wf_removeAllByNodeID.
  - now apply wf_unregisterAction.
Qed.

Lemma unique_call : forall c r,
  endpoints_unique (actions r) -> endpoints_unique (actions (call r c)).
Proof.
  intros [node L|payload|n u|name version nodeID|n|node name] r H; simpl.
  - now apply unique_registerServices.
  - unfold processNodeInfo, nodes_processNodeInfo. simpl.
    apply unique_registerServices.
    now destruct (match nodes_get (sender payload) (nodes r) with
                  | Some n => node_available n | None => false end).
  - unfold nodeDisconnected.
    destruct (nodes_get n (nodes r)) as [node|]; [|assumption].
    destruct (node_available node); [|assumption].
    simpl. now apply unique_removeServices.
  - unfold unregisterService, services_remove.
    destruct (services_get _ _ _ _); [|assumption].
    simpl. now apply unique_removeByService.
  - now apply unique_removeServices.
  - now apply unique_actions_remove.
Qed.

Lemma filter_at_most_one : forall A (p : A -> bool) l,
  NoDup l ->
  (forall x y, In x l -> In y l -> p x = true -> p y = true -> x = y) ->
  List.length (filter p l) <= 1.
Proof.
  intros A p l. induction l as [|x l IH]; simpl; intros Hnd H; [lia|].
  inversion Hnd as [|? ? Hx Hnd']; subst.
  assert (List.length (filter p l) <= 1) as IH'
    by (apply IH; [assumption | intros; apply H; auto]).
  destruct (p x) eqn:P; [|exact IH'].
  assert (filter p l = []) as ->; [|simpl; lia].
  destruct (filter p l) as [|y l'] eqn:F; [reflexivity|].
  exfalso. assert (In y (filter p l)) as Hy by (rewrite F; now left).
  apply filter_In in Hy as [Hy Py].
  apply Hx. rewrite (H x y); auto.
Qed.

Lemma NoDup_of_map : forall A B (f : A -> B) l, NoDup (map f l) -> NoDup l.
Proof.
  induction l as [|x l IH]; simpl; intros H; constructor;
    inversion H as [|? ? Hx Hnd]; subst.
  - intros Hin. apply Hx. now apply in_map.
  - now apply IH.
Qed.

(** X11: starting from a well-formed registry with at most one endpoint per
    node in every action entry, any sequence of [registerServices],
    [processNodeInfo], [nodeDisconnected], [unregisterService],
    [unregisterServicesByNode] and [unregisterAction] leaves at most one
    service item per (name, version, node) and at most one endpoint per
    action name and node. *)
Theorem calls_keep_catalogs_unique : forall calls r,
  registry_wfb r = true -> endpoints_uniqueb (actions r) = true ->
  let r' := fold_left call calls r in
  (forall name version nodeID,
     List.length
       (filter (fun t => equals t name version &&
                         String.eqb (service_node t) nodeID)
               (services r')) <= 1) /\
  (forall a eps nodeID,
     getActionEndpoints a r' = Some eps ->
     List.length (filter (fun ep => String.eqb (ep_node ep) nodeID) eps) <= 1).
Proof.
  intros calls r Hwfb Hub r'. apply registry_wfb_sound in Hwfb.
  apply endpoints_uniqueb_sound in Hub.
  assert (registry_wf r' /\ endpoints_unique (actions r')) as [Hwf Hu].
  { unfold r'. clear r'. revert r Hwfb Hub.
    induction calls as [|c calls IH]; simpl; intros r Hwf Hu; [auto|].
    apply IH; [now apply wf_call | now apply unique_call]. }
  split.
  - intros name version n. apply filter_at_most_one.
    + apply (@NoDup_of_map _ _ sid), Hwf.
    + intros x y Hx Hy Px Py.
      pose proof (wf_get Hwf) as Hget.
      pose proof (Hget x Hx) as Gx. pose proof (Hget y Hy) as Gy.
      apply andb_true_iff in Px as [Px Nx]. apply andb_true_iff in Py as [Py Ny].
      apply andb_true_iff in Px as [Px1 Px2].
      apply andb_true_iff in Py as [Py1 Py2].
      apply String.eqb_eq in Px1, Py1, Nx, Ny.
      apply jsval_eqb_eq in Px2, Py2.
      rewrite Px1, Px2, Nx in Gx. rewrite Py1, Py2, Ny in Gy. congruence.
  - intros a eps n G. specialize (Hu a eps G).
    apply filter_at_most_one.
    + now apply (@NoDup_of_map _ _ ep_node).
    + intros x y Hx Hy Px Py. apply String.eqb_eq in Px, Py.
      apply (NoDup_map_inj ep_node eps); auto. congruence.
Qed.

Lemma calls_keep_catalogs_unique_witness :
  let r' := fold_left call
              [CallRegisterServices "node-2" [posts_v1; users_schema];
               CallProcessNodeInfo (mkInfo "node-1" [posts_v1]);
               CallUnregisterAction "node-2" "posts.find";
               CallNodeDisconnected "node-2" true;
               CallUnregisterService "math" JUndefined None]
              sample_cluster in
  List.length
    (filter (fun t => equals t "posts" (JNum 1) &&
                      String.eqb (service_node t) "node-1")
            (services r')) <= 1.
Proof.
  assert (registry_wfb sample_cluster = true) as Hwf by (vm_compute; reflexivity).
  assert (endpoints_uniqueb (actions sample_cluster) = true) as Hu
    by (vm_compute; reflexivity).
  intros r'.
  exact (proj1 (@calls_keep_catalogs_unique _ sample_cluster Hwf Hu)
           "posts" (JNum 1) "node-1").
Defined.

Lemma unique_addEndpoints : forall node k acts A,
  endpoints_unique A -> endpoints_unique (addEndpoints node k acts A).
Proof.
  unfold addEndpoints. induction acts as [|kv acts IH]; simpl; intros A H.
  - exact H.
  - apply IH. now apply unique_actions_add.
Qed.

(** X12: [registerLocalService] keeps the catalogs unique when the broker's
    own node has no service of that name and version yet (the lookup that
    [registerServices] makes before adding): afterwards there is still at
    most one service item per (name, version, node) and at most one endpoint
    per action name and node. *)
Theorem registerLocalService_new_keeps_unique : forall svc r,
  registry_wfb r = true -> endpoints_uniqueb (actions r) = true ->
  services_get (svc_name svc) (svc_version svc) (broker_nodeID r) (services r)
    = None ->
  let r' := registerLocalService svc r in
  (forall name version nodeID,
     List.length
       (filter (fun t => equals t name version &&
                         String.eqb (service_node t) nodeID)
               (services r')) <= 1) /\
  (forall a eps nodeID,
     getActionEndpoints a r' = Some eps ->
     List.length (filter (fun ep => String.eqb (ep_node ep) nodeID) eps) <= 1).
Proof.
  intros svc r Hwfb Hub Hnone r'. apply registry_wfb_sound in Hwfb.
  apply endpoints_uniqueb_sound in Hub.
  assert (registry_wf r') as Hwf.
  { unfold r', registerLocalService.
    pose proof (wf_services_add (broker_nodeID r) (svc_name svc)
                  (svc_version svc) (svc_settings svc) Hwfb Hnone) as Hwf1.
    unfold services_add in *. simpl in *.
    apply wf_registerActions; [exact Hwf1|].
    eexists. split; [simpl; apply in_or_app; right; left; reflexivity|].
    simpl. auto. }
  assert (endpoints_unique (actions r')) as Hu.
  { unfold r', registerLocalService, services_add.
    rewrite registerActions_eq. simpl. now apply unique_addEndpoints. }
  split.
  - intros name version n. apply filter_at_most_one.
    + apply (@NoDup_of_map _ _ sid), Hwf.
    + intros x y Hx Hy Px Py.
      pose proof (wf_get Hwf) as Hget.
      pose proof (Hget x Hx) as Gx. pose proof (Hget y Hy) as Gy.
      apply andb_true_iff in Px as [Px Nx]. apply andb_true_iff in Py as [Py Ny].
      apply andb_true_iff in Px as [Px1 Px2].
      apply andb_true_iff in Py as [Py1 Py2].
      apply String.eqb_eq in Px1, Py1, Nx, Ny.
      apply jsval_eqb_eq in Px2, Py2.
      rewrite Px1, Px2, Nx in Gx. rewrite Py1, Py2, Ny in Gy. congruence.
  - intros a eps n G. specialize (Hu a eps G).
    apply filter_at_most_one.
    + now apply (@NoDup_of_map _ _ ep_node).
    + intros x y Hx Hy Px Py. apply String.eqb_eq in Px, Py.
      apply (NoDup_map_inj ep_node eps); auto. congruence.
Qed.

Lemma registerLocalService_new_keeps_unique_witness :
  List.length
    (filter (fun t => equals t "users" JUndefined &&
                      String.eqb (service_node t) "node-local")
            (services (registerLocalService users_schema sample_cluster)))
  <= 1.
Proof.
  assert (registry_wfb sample_cluster = true) as Hwf by (vm_compute; reflexivity).
  assert (endpoints_uniqueb (actions sample_cluster) = true) as Hu
    by (vm_compute; reflexivity).
  assert (services_get (svc_name users_schema) (svc_version users_schema)
            (broker_nodeID sample_cluster) (services sample_cluster) = None)
    as Hnone by (vm_compute; reflexivity).
  exact (proj1 (@registerLocalService_new_keeps_unique users_schema
                  sample_cluster Hwf Hu Hnone)
           "users" JUndefined "node-local").
Defined.

(** ** What the catalog holds for a listed service *)

(** One callback of the second loop leaves the item of a listed descriptor
    where the catalog finds it. *)
Lemma listed_removeOldService : forall node L x t0 svc t,
  registry_wf x -> node <> "" -> In svc L ->
  services_get (svc_name svc) (svc_version svc) node (services x) = Some t ->
  services_get (svc_name svc) (svc_version svc) node
    (services (removeOldService node L x t0)) = Some t.
Proof.
  intros node L x t0 svc t Hwf Hne Hin G. unfold removeOldService.
  destruct (negb (String.eqb (service_node t0) node)); [assumption|].
  destruct (existsb _ L) eqn:Ex; [assumption|].
  unfold unregisterService. rewrite or_broker_nodeID_some by assumption.
  unfold services_remove.
  destruct (services_get (service_name t0) (service_version t0) node
              (services x)) as [s|] eqn:G0; [|assumption].
  simpl. unfold services_get. apply find_filter_Some; [exact G|].
  apply negb_true_iff. apply Nat.eqb_neq. intros E.
  apply services_get_some in G0 as (Hs & N0 & V0 & _).
  pose proof G as G'. apply find_some in G' as [Ht M].
  apply andb_true_iff in M as [M _].
  assert (t = s) as -> by (apply (NoDup_map_inj sid (services x));
                           auto; apply Hwf).
  assert (equals t0 (svc_name svc) (svc_version svc) = true) as M0.
  { unfold equals in *. now rewrite <- N0, <- V0. }
  assert (existsb (fun svc => equals t0 (svc_name svc) (svc_version svc)) L
          = true) as Ex'
    by (apply existsb_exists; eauto).
  congruence.
Qed.

(** X13: in a well-formed registry, for a node with a non-empty id and a
    list of well-formed descriptors of distinct services, after
    [registerServices(n, L)] the catalog finds, for every descriptor of [L],
    a service item of [n] that carries the descriptor's settings and each of
    its actions under the action's name. *)
Theorem registerServices_stores_descriptor : forall node L r svc,
  registry_wfb r = true -> String.eqb node "" = false ->
  distinct_services L = true -> forallb schema_wf L = true -> In svc L ->
  exists t,
    services_get (svc_name svc) (svc_version svc) node
      (services (registerServices node L r)) = Some t /\
    service_node t = node /\
    service_settings t = svc_settings svc /\
    forall kv, In kv (svc_actions svc) ->
      obj_get (action_name (snd kv)) (service_actions t) = Some (snd kv).
Proof.
  intros node L r svc Hwfb Hnode Hd Hsch Hin.
  apply registry_wfb_sound in Hwfb. apply String.eqb_neq in Hnode.
  pose proof (wf_fold_registerService node L Hwfb) as Hwff.
  destruct (@plan_of_final node L r Hwfb Hd Hsch) as [_ Hset].
  destruct (Hset svc Hin) as (t & G & Hfix).
  assert (registry_wf (registerServices node L r) /\
          services_get (svc_name svc) (svc_version svc) node
            (services (registerServices node L r)) = Some t) as [_ G1].
  { unfold registerServices.
    apply (@live_loop_ind
             (fun x => registry_wf x /\
                services_get (svc_name svc) (svc_version svc) node
                             (services x) = Some t) node L).
    - intros x t0 [Hwx Gx] _.
      split; [now apply wf_removeOldService|].
      now apply listed_removeOldService.
    - split; assumption. }
  exists t. split; [exact G1|].
  rewrite forallb_forall in Hsch.
  destruct (schema_wf_names svc (Hsch svc Hin)) as [_ Hnd].
  split; [now apply services_get_some in G|].
  rewrite <- Hfix, applySchema_eq. simpl. split; [reflexivity|].
  intros kv Hkv. now apply setAll_get.
Qed.

Lemma registerServices_stores_descriptor_witness :
  exists t,
    services_get "users" JUndefined "node-1"
      (services (registerServices "node-1" [posts_v1; users_schema]
                   sample_cluster)) = Some t /\
    service_node t = "node-1" /\ service_settings t = JNum 5 /\
    forall kv, In kv (svc_actions users_schema) ->
      obj_get (action_name (snd kv)) (service_actions t) = Some (snd kv).
Proof.
  assert (registry_wfb sample_cluster = true) as Hwf by (vm_compute; reflexivity).
  assert (distinct_services [posts_v1; users_schema] = true) as Hd
    by (vm_compute; reflexivity).
  assert (forallb schema_wf [posts_v1; users_schema] = true) as Hs
    by (vm_compute; reflexivity).
  exact (@registerServices_stores_descriptor "node-1" [posts_v1; users_schema]
           sample_cluster users_schema Hwf eq_refl Hd Hs
           (or_intror (or_introl eq_refl))).
Defined.

(** ** The action list after a disconnection *)

(** X14: after [nodeDisconnected(n, u)] of an available node, in a registry
    whose endpoints belong to catalogued services of their node, every item
    of [getActionList] is an action that another node hosted before, and the
    endpoints it reports never name [n]. *)
Theorem nodeDisconnected_not_listed : forall nodeID u r opts item,
  isAvailableNode nodeID r = true -> endpoints_owned r = true ->
  In item (getActionList opts (nodeDisconnected nodeID u r)) ->
  (forall l, item_endpoints item = Some l -> ~ In nodeID (map fst l)) /\
  (exists entry ep, In (item_name item, entry) (actions r) /\
                    In ep entry /\ ep_node ep <> nodeID).
Proof.
  intros n u r opts item Hav Hown Hin. unfold isAvailableNode in Hav.
  destruct (nodes_get n (nodes r)) as [node|] eqn:G; [|discriminate].
  assert (node_id node = n) as Hid.
  { apply find_some in G as [_ E]. now apply String.eqb_eq in E. }
  unfold getActionList in Hin.
  apply filter_map_In in Hin as ([key entry] & He & H).
  apply listEntry_spec in H as (ep & rest & -> & _ & _ & _ & ->).
  unfold nodeDisconnected in He. rewrite G, Hav, Hid in He. simpl in He.
  assert (forall ep', In ep' (ep :: rest) ->
            ep_node ep' <> n /\
            exists e0, In e0 (actions r) /\ fst e0 = key /\ In ep' (snd e0))
    as Heps.
  { intros ep' Hep'.
    destruct (@In_removeByService_fold _ _ (key, ep :: rest) ep' He Hep')
      as [(e0 & H0 & Hk & Hep0) Hgone].
    split; [|exists e0; auto].
    intros Hn.
    destruct (endpoints_owned_In r e0 ep' Hown H0 Hep0) as (s & Hs & E1 & E2).
    apply (Hgone s); [|now symmetry].
    apply filter_In. split; [assumption|].
    rewrite E2, Hn. apply String.eqb_refl. }
  simpl. split.
  - intros l Hl Hnl. destruct (withEndpoints opts); [|discriminate].
    injection Hl as <-.
    apply in_map_iff in Hnl as (p & E & Hp).
    apply (proj1 (in_map_iff (fun e : Endpoint => (ep_node e, ep_state e))
                    (ep :: rest) p)) in Hp as (ep' & <- & Hep').
    simpl in E.
    exact (proj1 (Heps ep' Hep') E).
  - destruct (Heps ep (or_introl eq_refl)) as (Hn & [k0 entry0] & H0 & Hk & Hep0).
    simpl in Hk, Hep0. subst k0. exists entry0, ep. auto.
Qed.

Lemma nodeDisconnected_not_listed_witness :
  In (mkItem "math.add" 1 true true
        (Some (mkAction "math.add" [("cache", JBool false)]))
        (Some [("node-local", CLOSED)]))
     (getActionList (mkOpts false false true)
        (nodeDisconnected "node-1" false sample_cluster)) /\
  ~ In "node-1" (map fst [("node-local", CLOSED)]).
Proof.
  assert (In (mkItem "math.add" 1 true true
                (Some (mkAction "math.add" [("cache", JBool false)]))
                (Some [("node-local", CLOSED)]))
             (getActionList (mkOpts false false true)
                (nodeDisconnected "node-1" false sample_cluster))) as Hin
    by (vm_compute; left; reflexivity).
  split; [exact Hin|].
  assert (isAvailableNode "node-1" sample_cluster = true) as Hav
    by (vm_compute; reflexivity).
  assert (endpoints_owned sample_cluster = true) as Hown
    by (vm_compute; reflexivity).
  exact (proj1 (@nodeDisconnected_not_listed "node-1" false sample_cluster
                  _ _ Hav Hown Hin) _ eq_refl).
Defined.

(** ** Endpoints of a node after a reconcile that removed every old service *)

Lemma obj_keys_set_inv : forall A k k0 (v : A) o,
  In k (obj_keys (obj_set k0 v o)) -> k = k0 \/ In k (obj_keys o).
Proof.
  induction o as [|[k' v'] o IH]; simpl; intros H.
  - destruct H as [<-|[]]. now left.
  - destruct (String.eqb_spec k0 k') as [->|Hne]; simpl in H.
    + destruct H as [<-|H]; auto.
    + destruct H as [<-|H]; [auto|]. destruct (IH H); auto.
Qed.

Lemma setAll_keys : forall acts o k,
  In k (obj_keys (setAll acts o)) ->
  In k (obj_keys o) \/ exists kv, In kv acts /\ action_name (snd kv) = k.
Proof.
  unfold setAll. induction acts as [|kv acts IH]; simpl; intros o k H.
  - now left.
  - destruct (IH _ _ H) as [H1|(kv' & Hin & E)].
    + apply obj_keys_set_inv in H1 as [->|H1]; [|now left].
      right. exists kv. auto.
    + right. exists kv'. auto.
Qed.

Lemma undeclared_applySchema : forall svc t a,
  declares svc a = false ->
  In a (obj_keys (service_actions (applySchema svc t))) ->
  In a (obj_keys (service_actions t)).
Proof.
  intros svc t a Hd H. rewrite applySchema_eq in H. simpl in H.
  apply setAll_keys in H as [H|(kv & Hin & E)]; [exact H|].
  exfalso. assert (declares svc a = true) as D; [|congruence].
  apply existsb_exists. exists kv. split; [assumption|].
  now apply String.eqb_eq.
Qed.

Lemma services_get_named : forall x t svc,
  registry_wf x -> In t (services x) ->
  equals t (svc_name svc) (svc_version svc) = true ->
  services_get (svc_name svc) (svc_version svc) (service_node t) (services x)
  = Some t.
Proof.
  intros x t svc Hwf Ht M. unfold equals in M.
  apply andb_true_iff in M as [N V].
  apply String.eqb_eq in N. apply jsval_eqb_eq in V.
  rewrite <- N, <- V. now apply (wf_get Hwf).
Qed.

(** While the first loop runs: once a descriptor that names an item has
    been processed, an action name that no descriptor declares and that the
    item lists has no endpoint on the node. *)
Lemma undeclared_step : forall node a L0 x svc,
  registry_wf x ->
  declares svc a = false -> js_falsy_at a (svc_actions svc) = true ->
  (forall t, In t (services x) -> service_node t = node ->
             named L0 t = true -> In a (obj_keys (service_actions t)) ->
             no_endpoint a node x) ->
  forall t, In t (services (registerService node x svc)) ->
            service_node t = node -> named (L0 ++ [svc]) t = true ->
            In a (obj_keys (service_actions t)) ->
            no_endpoint a node (registerService node x svc).
Proof.
  intros node a L0 x svc Hwf Hd Hf Inv t' Ht' Hn' Hnamed Ha'.
  assert (forall t, In t (services x) -> service_node t = node ->
            named (L0 ++ [svc]) t = true ->
            In a (obj_keys (service_actions t)) ->
            no_endpoint a node (registerService node x svc)) as Hold.
  { intros t Ht Hn Hnm Ha. unfold named in Hnm.
    rewrite existsb_app in Hnm. simpl in Hnm. rewrite orb_false_r in Hnm.
    apply orb_true_iff in Hnm as [Hnm|Hnm].
    - apply no_endpoint_registerService; [assumption|].
      now apply (Inv t).
    - pose proof (@services_get_named x t svc Hwf Ht Hnm) as G.
      rewrite Hn in G. intros eps ep Hg Hep.
      exact (@registerService_removes node x svc t a eps ep G Ha Hf Hg Hep). }
  rewrite services_registerService in Ht' by assumption.
  destruct (services_get (svc_name svc) (svc_version svc) node (services x))
    as [s|] eqn:G.
  - pose proof (grows_on_service (sid s) (grows_applySchema svc)) as Hg.
    unfold on_service in Ht'. apply in_map_iff in Ht' as (t & E & Ht).
    apply (Hold t Ht).
    + rewrite <- Hn', <- E. symmetry. apply (Hg t).
    + rewrite <- Hnamed, <- E. symmetry.
      exact (@named_grows (L0 ++ [svc]) _ t Hg).
    + rewrite <- E in Ha'.
      destruct (Nat.eqb (sid t) (sid s)); [|exact Ha'].
      now apply (@undeclared_applySchema svc).
  - apply in_app_or in Ht' as [Ht|[<-|[]]].
    + now apply (Hold t').
    + exfalso. apply undeclared_applySchema in Ha'; [|assumption].
      destruct Ha'.
Qed.

Lemma undeclared_fold : forall node a L1 L0 x,
  registry_wf x ->
  forallb (fun svc => negb (declares svc a) && js_falsy_at a (svc_actions svc))
          L1 = true ->
  (forall t, In t (services x) -> service_node t = node ->
             named L0 t = true -> In a (obj_keys (service_actions t)) ->
             no_endpoint a node x) ->
  forall t, In t (services (fold_left (registerService node) L1 x)) ->
            service_node t = node -> named (L0 ++ L1) t = true ->
            In a (obj_keys (service_actions t)) ->
            no_endpoint a node (fold_left (registerService node) L1 x).
Proof.
  induction L1 as [|svc L1 IH]; simpl; intros L0 x Hwf HL Inv.
  - rewrite app_nil_r. exact Inv.
  - apply andb_true_iff in HL as [Hsvc HL].
    apply andb_true_iff in Hsvc as [Hd Hf]. apply negb_true_iff in Hd.
    replace (L0 ++ svc :: L1) with ((L0 ++ [svc]) ++ L1)
      by (rewrite <- app_assoc; reflexivity).
    apply IH; [now apply wf_registerService | assumption|].
    now apply undeclared_step.
Qed.

(** X15: in a well-formed registry, when [registerServices(n, L)] leaves no
    service of [n] that [L] does not name, node [n] has afterwards no
    endpoint for an action name that no descriptor of [L] declares or holds
    as a key and that is not an inherited property name. *)
Theorem registerServices_only_declared : forall node L r a,
  registry_wfb r = true ->
  forallb (keptService node L) (services (registerServices node L r)) = true ->
  forallb (fun svc => negb (declares svc a) && js_falsy_at a (svc_actions svc))
          L = true ->
  getActionEndpointByNodeId a node (registerServices node L r) = None.
Proof.
  intros node L r a Hwfb Hkept HL. apply registry_wfb_sound in Hwfb.
  pose proof (wf_fold_registerService node L Hwfb) as Hwff.
  set (rf := fold_left (registerService node) L r) in *.
  set (r1 := registerServices node L r) in *.
  assert (exists gone,
            registry_wf r1 /\
            services r1 =
              filter (fun t => negb (existsb (fun g => Nat.eqb (sid t) (sid g))
                                             gone))
                     (services rf) /\
            actions r1 = removeServices gone (actions rf) /\
            next_sid r1 = next_sid rf /\ broker_nodeID r1 = broker_nodeID rf /\
            nodes r1 = nodes rf /\ broker_calls r1 = broker_calls rf /\
            (forall g, In g gone -> In g (services rf) /\ named L g = false))
    as (gone & Hwf1 & Es1 & Ea1 & _)
    by (apply (@live_loop_gone node L rf
                 (seq 0 (List.length (services rf))) Hwff)).
  apply no_endpoint_iff. intros eps ep Hg Hep Hn.
  pose proof (wf_owner Hwf1) as Hown.
  destruct (Hown a eps ep Hg Hep) as (t & Ht & _ & E2 & Ha).
  rewrite forallb_forall in Hkept. pose proof (Hkept t Ht) as K.
  unfold keptService in K. rewrite E2, Hn, String.eqb_refl in K. simpl in K.
  rewrite Es1 in Ht. apply filter_In in Ht as [Ht _].
  assert (no_endpoint a node rf) as Hno.
  { apply (@undeclared_fold node a L [] r Hwfb HL) with (t := t); auto.
    - intros t0 _ _ Habs. discriminate Habs.
    - congruence. }
  rewrite Ea1 in Hg.
  destruct (@removeServices_get gone (actions rf) a eps ep Hg Hep)
    as (eps0 & G0 & Hep0 & _).
  exact (Hno eps0 ep G0 Hep0 Hn).
Qed.

Lemma registerServices_only_declared_witness :
  getActionEndpointByNodeId "posts.find" "node-1" sample_cluster <> None /\
  getActionEndpointByNodeId "posts.find" "node-1"
    (registerServices "node-1" [users_schema] sample_cluster) = None.
Proof.
  split; [vm_compute; discriminate|].
  assert (H1 : registry_wfb sample_cluster = true) by (vm_compute; reflexivity).
  assert (H2 : forallb (keptService "node-1" [users_schema])
                 (services (registerServices "node-1" [users_schema]
                              sample_cluster)) = true)
    by (vm_compute; reflexivity).
  assert (H3 : forallb (fun svc => negb (declares svc "posts.find") &&
                                   js_falsy_at "posts.find" (svc_actions svc))
                       [users_schema] = true)
    by (vm_compute; reflexivity).
  exact (@registerServices_only_declared "node-1" [users_schema]
           sample_cluster "posts.find" H1 H2 H3).
Defined.
